(** * Football coach intelligence: zone grid and object tracker

    A shallow embedding of [backend/utils/zones.py] and
    [backend/utils/tracker.py], followed by the properties of the
    tracking-and-event-detection core.

    Numeric model.  Python [int] is [Z].  Every finite Python [float] is a
    rational number, so pixel coordinates, zone sizes, centers and velocities
    are [Q].  The two quantities that the code compares with a threshold, the
    distance of [_calculate_distance] and the velocity magnitude of
    [detect_ball_kick], are computed as the code computes them: every
    operation is followed by [fl], the rounding to the nearest double, and
    [np.sqrt] is the correctly rounded square root [np_sqrt].  The other
    float operations (zone sizes and edges, centers, velocities, prediction)
    are written without rounding; some statements about them are restricted
    to inputs on which these operations are exact, and then say that the
    rounded operations give the same numbers.  Overflow, underflow,
    infinities and NaN are not modelled.

    Python exceptions are values of [result]. *)

From Stdlib Require Import ZArith QArith Qround Qabs Qpower Reals Qreals Lia Psatz List.
From stdpp Require Import base option list strings gmap fin_maps.

Set Default Proof Using "Type".

(** ** Exceptions *)

Inductive exn : Type :=
| ZeroDivisionError
| ValueError
| KeyError.

Inductive result (A : Type) : Type :=
| Ok (a : A)
| Raise (e : exn).

Arguments Ok {A} a.
Arguments Raise {A} e.

#[global] Instance result_ret : MRet result := fun A a => Ok a.

#[global] Instance result_bind : MBind result := fun A B k r =>
  match r with
  | Ok a => k a
  | Raise e => Raise e
  end.

(** Python's [range(n)]. *)
Definition range (n : Z) : list Z := map Z.of_nat (seq 0 (Z.to_nat n)).

(** Python's [len]. *)
Definition len {A : Type} (l : list A) : Z := Z.of_nat (length l).

(** ** Double-precision arithmetic

    A finite double is the rational number it denotes.  An arithmetic
    operation on doubles returns the double nearest to the exact result, the
    one with the even significand when two are equally near: [fl] of the
    exact result.  The exponent range is not bounded here, so overflow and
    underflow do not occur. *)

Definition pow2 (e : Z) : Q := (2 ^ e)%Q.

(** The integer nearest to [q]; of two equally near, the even one. *)
Definition rne (q : Q) : Z :=
  let f := Qfloor q in
  match Qcompare (q - inject_Z f)%Q (1 # 2)%Q with
  | Lt => f
  | Eq => if Z.even f then f else (f + 1)%Z
  | Gt => (f + 1)%Z
  end.

(** For [0 < q], the exponent [e] with [2^e <= q < 2^(e+1)]. *)
Definition binade (q : Q) : Z :=
  let e := (Z.log2 (Qnum q) - Z.log2 (Z.pos (Qden q)))%Z in
  if Qle_bool (pow2 e) q then e else (e - 1)%Z.

(** For [0 < q], the nearest number with a significand of 53 bits. *)
Definition round_pos (q : Q) : Q :=
  let s := (binade q - 52)%Z in
  (inject_Z (rne (q / pow2 s)) * pow2 s)%Q.

(** Rounding to the nearest double, ties to even. *)
Definition fl (q : Q) : Q :=
  match Qcompare q 0%Q with
  | Eq => 0%Q
  | Gt => Qred (round_pos (Qred q))
  | Lt => Qred (- round_pos (Qred (- q)))%Q
  end.

(** [np.sqrt]: the double nearest to the square root. *)
Definition np_sqrt (q : Q) : Q :=
  match Qcompare q 0%Q with
  | Gt =>
      let q := Qred q in
      let s := (binade q / 2 - 52)%Z in
      let t := (q / pow2 (2 * s))%Q in
      let m := Z.sqrt (Qfloor t) in
      let h := (inject_Z m + (1 # 2))%Q in
      let m' := match Qcompare t (h * h)%Q with
                | Lt => m
                | Eq => if Z.even m then m else (m + 1)%Z
                | Gt => (m + 1)%Z
                end in
      Qred (inject_Z m' * pow2 s)%Q
  | _ => 0%Q
  end.

(** ** [zones.py] *)

Module Zones.

(** A zone rectangle [(x1, y1, x2, y2)]. *)
Definition Bounds : Type := (Q * Q * Q * Q)%type.

Record PitchZoneMapper : Type := {
  pitch_width : Z;
  pitch_height : Z;
  zones_per_row : Z;
  zones_per_col : Z;
  zone_width : Q;
  zone_height : Q;
  zone_map : gmap Z Bounds
}.

(** One iteration of the inner loop of [_create_zone_map]: the state is the
    dict built so far and the running [zone_number]. *)
Definition zone_map_cell (zw zh : Q) (row : Z) (acc : gmap Z Bounds * Z) (col : Z)
  : gmap Z Bounds * Z :=
  let x1 := (inject_Z col * zw)%Q in
  let y1 := (inject_Z row * zh)%Q in
  let x2 := (inject_Z (col + 1) * zw)%Q in
  let y2 := (inject_Z (row + 1) * zh)%Q in
  (<[acc.2 := (x1, y1, x2, y2)]> (acc.1), (acc.2 + 1)%Z).

Definition _create_zone_map (zpr zpc : Z) (zw zh : Q) : gmap Z Bounds :=
  (foldl (fun acc row => foldl (zone_map_cell zw zh row) acc (range zpr))
         (∅, 1%Z) (range zpc)).1.

(** [PitchZoneMapper.__init__]; the defaults are 1920 and 1080. *)
Definition init (pitch_width pitch_height : Z) : PitchZoneMapper :=
  let zones_per_row := 6%Z in
  let zones_per_col := 3%Z in
  let zone_width := (inject_Z pitch_width / inject_Z zones_per_row)%Q in
  let zone_height := (inject_Z pitch_height / inject_Z zones_per_col)%Q in
  {| pitch_width := pitch_width;
     pitch_height := pitch_height;
     zones_per_row := zones_per_row;
     zones_per_col := zones_per_col;
     zone_width := zone_width;
     zone_height := zone_height;
     zone_map := _create_zone_map zones_per_row zones_per_col zone_width zone_height |}.

Definition default_mapper : PitchZoneMapper := init 1920 1080.

(** Float floor division [a // b] followed by [int(...)]. *)
Definition floordiv (a b : Q) : result Z :=
  if Qeq_bool b 0 then Raise ZeroDivisionError else Ok (Qfloor (a / b)).

Definition pixel_to_zone (self : PitchZoneMapper) (x y : Q) : result Z :=
  if negb (Qle_bool 0 x && Qle_bool x (inject_Z (pitch_width self)) &&
           Qle_bool 0 y && Qle_bool y (inject_Z (pitch_height self)))
  then Ok 0%Z
  else
    col ← floordiv x (zone_width self);
    row ← floordiv y (zone_height self);
    let col := Z.min col (zones_per_row self - 1) in
    let row := Z.min row (zones_per_col self - 1) in
    let zone_number := (row * zones_per_row self + col + 1)%Z in
    Ok zone_number.

Definition zone_to_pixel_center (self : PitchZoneMapper) (zone_number : Z)
  : result (Q * Q) :=
  match zone_map self !! zone_number with
  | None => Raise ValueError
  | Some (x1, y1, x2, y2) =>
      let center_x := ((x1 + x2) / 2)%Q in
      let center_y := ((y1 + y2) / 2)%Q in
      Ok (center_x, center_y)
  end.

Definition get_zone_boundaries (self : PitchZoneMapper) (zone_number : Z)
  : result Bounds :=
  match zone_map self !! zone_number with
  | None => Raise ValueError
  | Some b => Ok b
  end.

(** [sum(zones)]: Python's [sum] adds from the left, starting at 0. *)
Definition calculate_zone_sum (zones : list Z) : Z := foldl Z.add 0%Z zones.

Definition detect_fast_break (zone_sequence : list Z)
    (min_passes min_zone_sum max_passes max_zone_sum : Z) : bool :=
  if (len zone_sequence <? min_passes)%Z then false
  else
    let zone_sum := calculate_zone_sum zone_sequence in
    if (min_passes <=? len zone_sequence)%Z && (min_zone_sum <? zone_sum)%Z then true
    else if (min_passes <? len zone_sequence)%Z && (len zone_sequence <=? max_passes)%Z
            && (max_zone_sum <? zone_sum)%Z then true
    else false.

(** The call with every keyword argument left at its default. *)
Definition detect_fast_break_default (zone_sequence : list Z) : bool :=
  detect_fast_break zone_sequence 3 9 5 12.

(** [is_forward_pass]; [//] on integers is floor division, as [Z.div]. *)
Definition is_forward_pass (self : PitchZoneMapper) (zone1 zone2 : Z) : bool :=
  if negb ((1 <=? zone1)%Z && (zone1 <=? 18)%Z && (1 <=? zone2)%Z && (zone2 <=? 18)%Z)
  then false
  else
    let row1 := ((zone1 - 1) / zones_per_row self)%Z in
    let row2 := ((zone2 - 1) / zones_per_row self)%Z in
    (row2 <? row1)%Z.

(** One iteration of the loop of [get_zone_heatmap_data] over the
    [(zone_num, timestamp)] pairs. *)
Definition heatmap_step (zone_counts : gmap Z Z) (sample : Z * Q) : gmap Z Z :=
  let zone_num := sample.1 in
  if (1 <=? zone_num)%Z && (zone_num <=? 18)%Z
  then <[zone_num := (default 0%Z (zone_counts !! zone_num) + 1)%Z]> zone_counts
  else zone_counts.

Definition get_zone_heatmap_data (zone_positions : list (Z * Q)) : gmap Z Z :=
  foldl heatmap_step ∅ zone_positions.

(** Python's [range(a, b)]. *)
Definition range_from (a b : Z) : list Z :=
  map (fun i => (a + Z.of_nat i)%Z) (seq 0 (Z.to_nat (b - a))).

(** An entry of the ['zones'] list of [visualize_zones]. *)
Record ZoneData : Type := {
  zd_zone_number : Z;
  zd_x1 : Q;
  zd_y1 : Q;
  zd_x2 : Q;
  zd_y2 : Q;
  zd_center_x : Q;
  zd_center_y : Q
}.

Record ZonesView : Type := {
  view_zones : list ZoneData;
  view_pitch_width : Z;
  view_pitch_height : Z
}.

Definition visualize_step (self : PitchZoneMapper) (acc : result (list ZoneData))
    (zone_num : Z) : result (list ZoneData) :=
  zones_data ← acc;
  '(x1, y1, x2, y2) ← get_zone_boundaries self zone_num;
  Ok (zones_data ++ [ {| zd_zone_number := zone_num;
                         zd_x1 := x1; zd_y1 := y1; zd_x2 := x2; zd_y2 := y2;
                         zd_center_x := ((x1 + x2) / 2)%Q;
                         zd_center_y := ((y1 + y2) / 2)%Q |} ]).

Definition visualize_zones (self : PitchZoneMapper) : result ZonesView :=
  zones_data ← foldl (visualize_step self) (Ok []) (range_from 1 19);
  Ok {| view_zones := zones_data;
        view_pitch_width := pitch_width self;
        view_pitch_height := pitch_height self |}.

(** The number of samples that name the zone [z]. *)
Definition visits (z : Z) (zone_positions : list (Z * Q)) : Z :=
  Z.of_nat (length (filter (fun sample => sample.1 = z) zone_positions)).

(** What [visualize_zones] reports for a zone agrees with the two queries. *)
Definition agrees (self : PitchZoneMapper) (zd : ZoneData) : Prop :=
  get_zone_boundaries self (zd_zone_number zd)
    = Ok (zd_x1 zd, zd_y1 zd, zd_x2 zd, zd_y2 zd) /\
  zone_to_pixel_center self (zd_zone_number zd) = Ok (zd_center_x zd, zd_center_y zd).

End Zones.

(** ** [tracker.py] *)

Module Tracker.

(** A bounding box [(x, y, w, h)]. *)
Definition BBox : Type := (Q * Q * Q * Q)%type.

Definition Point : Type := (Q * Q)%type.

(** The [TrackedObject] dataclass; [velocity] defaults to [None]. *)
Record TrackedObject : Type := {
  id : Z;
  bbox : BBox;
  class_id : Z;
  confidence : Q;
  frame_id : Z;
  center : Point;
  velocity : option Point
}.

Definition set_velocity (v : option Point) (obj : TrackedObject) : TrackedObject :=
  {| id := id obj; bbox := bbox obj; class_id := class_id obj;
     confidence := confidence obj; frame_id := frame_id obj;
     center := center obj; velocity := v |}.

(** A detection dictionary with its keys ['bbox'], ['class_id'] and
    ['confidence']. *)
Record Detection : Type := {
  det_bbox : BBox;
  det_class_id : Z;
  det_confidence : Q
}.

(** The OpenCV single-object tracker the manager plugs in.  Only its two
    entry points are used: [tracker.init(frame, bbox)] and
    [tracker.update(frame)].  An OpenCV tracker is a stateful object, so both
    also return its next state. *)
Class VisualTracker : Type := {
  Frame : Type;
  Backend : Type;
  cv2_create : string -> Backend;
  tracker_init : Backend -> Frame -> BBox -> bool * Backend;
  tracker_update : Backend -> Frame -> bool * BBox * Backend
}.

(** *** Insertion-ordered dictionaries

    [self.trackers] is iterated, and Python dictionaries iterate in insertion
    order: it is an association list with the dictionary operations. *)

Fixpoint dict_set {V : Type} (k : Z) (v : V) (d : list (Z * V)) : list (Z * V) :=
  match d with
  | [] => [(k, v)]
  | (k', v') :: d' =>
      if decide (k' = k) then (k, v) :: d' else (k', v') :: dict_set k v d'
  end.

(** A change made in place to the object stored under [k]; the set of keys
    stays as it is. *)
Definition dict_alter {V : Type} (f : V -> V) (k : Z) (d : list (Z * V)) : list (Z * V) :=
  map (fun kv => if decide (kv.1 = k) then (kv.1, f kv.2) else kv) d.

Fixpoint dict_del {V : Type} (k : Z) (d : list (Z * V)) : list (Z * V) :=
  match d with
  | [] => []
  | (k', v') :: d' =>
      if decide (k' = k) then dict_del k d' else (k', v') :: dict_del k d'
  end.

Definition keys {V : Type} (d : list (Z * V)) : list Z := map fst d.

Section WithBackend.

Context `{VT : VisualTracker}.

(** The value stored under each id of [self.trackers]. *)
Record TrackerInfo : Type := {
  tracker : Backend;
  info_class_id : Z;
  info_confidence : Q
}.

Record ObjectTracker : Type := {
  tracker_type : string;
  trackers : list (Z * TrackerInfo);
  next_id : Z;
  max_disappeared : Z;
  disappeared : gmap Z Z
}.

Definition set_tracker (t : Backend) (info : TrackerInfo) : TrackerInfo :=
  {| tracker := t; info_class_id := info_class_id info;
     info_confidence := info_confidence info |}.

(** [ObjectTracker.__init__]. *)
Definition init (tracker_type : string) : ObjectTracker :=
  {| tracker_type := tracker_type;
     trackers := [];
     next_id := 0;
     max_disappeared := 30;
     disappeared := ∅ |}.

Definition set_trackers (t : list (Z * TrackerInfo)) (self : ObjectTracker) : ObjectTracker :=
  {| tracker_type := tracker_type self; trackers := t; next_id := next_id self;
     max_disappeared := max_disappeared self; disappeared := disappeared self |}.

Definition set_disappeared (m : gmap Z Z) (self : ObjectTracker) : ObjectTracker :=
  {| tracker_type := tracker_type self; trackers := trackers self; next_id := next_id self;
     max_disappeared := max_disappeared self; disappeared := m |}.

Definition set_next_id (n : Z) (self : ObjectTracker) : ObjectTracker :=
  {| tracker_type := tracker_type self; trackers := trackers self; next_id := n;
     max_disappeared := max_disappeared self; disappeared := disappeared self |}.

(** The keys of [self.tracker_factory]. *)
Definition tracker_factory : list string :=
  ["CSRT"; "KCF"; "MOSSE"; "MIL"; "TLD"; "MEDIANFLOW"; "BOOSTING"]%string.

Definition create_tracker (self : ObjectTracker) : Backend :=
  if decide (tracker_type self ∈ tracker_factory)
  then cv2_create (tracker_type self)
  else cv2_create "CSRT".

(** One iteration of the bootstrap loop of [update]. *)
Definition bootstrap_step (frame : Frame) (self : ObjectTracker) (detection : Detection)
  : ObjectTracker :=
  let bbox := det_bbox detection in
  let tracker := create_tracker self in
  let '(success, tracker) := tracker_init tracker frame bbox in
  if success : bool then
    let info := {| tracker := tracker;
                   info_class_id := det_class_id detection;
                   info_confidence := det_confidence detection |} in
    let self := set_trackers (dict_set (next_id self) info (trackers self)) self in
    let self := set_disappeared (<[next_id self := 0%Z]> (disappeared self)) self in
    set_next_id (next_id self + 1) self
  else self.

(** [if not self.trackers: for detection in detections: ...]. *)
Definition bootstrap (frame : Frame) (detections : list Detection) (self : ObjectTracker)
  : ObjectTracker :=
  match trackers self with
  | [] => foldl (bootstrap_step frame) self detections
  | _ :: _ => self
  end.

Definition bbox_center (b : BBox) : Point :=
  let '(x, y, w, h) := b in ((x + w / 2)%Q, (y + h / 2)%Q).

(** One iteration of [for object_id, tracker_info in list(self.trackers.items())].
    [tracker.update(frame)] changes the state of the tracker object that the
    dictionary entry refers to; the counters in [self.disappeared] follow its
    outcome. *)
Definition track_step (frame : Frame)
    (acc : result (ObjectTracker * list TrackedObject))
    (item : Z * TrackerInfo) : result (ObjectTracker * list TrackedObject) :=
  '(self, tracked_objects) ← acc;
  let '(object_id, tracker_info) := item in
  let '(success, bbox, tracker) := tracker_update (tracker tracker_info) frame in
  let self := set_trackers (dict_alter (set_tracker tracker) object_id (trackers self)) self in
  if success : bool then
    let self := set_disappeared (<[object_id := 0%Z]> (disappeared self)) self in
    let tracked_obj := {| id := object_id;
                          bbox := bbox;
                          class_id := info_class_id tracker_info;
                          confidence := info_confidence tracker_info;
                          frame_id := 0;
                          center := bbox_center bbox;
                          velocity := None |} in
    Ok (self, tracked_objects ++ [tracked_obj])
  else
    match disappeared self !! object_id with
    | None => Raise KeyError
    | Some count =>
        let self := set_disappeared (<[object_id := (count + 1)%Z]> (disappeared self)) self in
        if (max_disappeared self <? count + 1)%Z then
          let self := set_trackers (dict_del object_id (trackers self)) self in
          let self := set_disappeared (delete object_id (disappeared self)) self in
          Ok (self, tracked_objects)
        else Ok (self, tracked_objects)
    end.

(** [ObjectTracker.update]: the new state of the manager and the list it
    returns. *)
Definition update (self : ObjectTracker) (frame : Frame) (detections : list Detection)
  : result (ObjectTracker * list TrackedObject) :=
  let self := bootstrap frame detections self in
  foldl (track_step frame) (Ok (self, [])) (trackers self).

(** [ObjectTracker.reset]. *)
Definition reset (self : ObjectTracker) : ObjectTracker :=
  set_next_id 0 (set_disappeared ∅ (set_trackers [] self)).

End WithBackend.

Arguments TrackerInfo : clear implicits.
Arguments ObjectTracker : clear implicits.

(** *** Possession *)

(** A transfer event dictionary. *)
Record Transfer : Type := {
  tr_frame_id : Z;
  tr_ball_id : Z;
  tr_player_id : Z;
  tr_distance : Q;
  tr_ball_position : Point;
  tr_player_position : Point
}.

(** Each operation on floats rounds: the two differences, the two squares,
    their sum, and [np.sqrt]. *)
Definition _calculate_distance (point1 point2 : Point) : Q :=
  np_sqrt (fl (fl (fl (point1.1 - point2.1) ^ 2) + fl (fl (point1.2 - point2.2) ^ 2)))%Q.

(** A distance, or [float('inf')]. *)
Inductive distance : Type :=
| Finite (d : Q)
| Inf.

(** One iteration of [for player in players]; the state is
    [(closest_player, min_distance)]. *)
Definition closest_step (ball : TrackedObject)
    (acc : option TrackedObject * distance) (player : TrackedObject)
  : option TrackedObject * distance :=
  let d := _calculate_distance (center ball) (center player) in
  match acc.2 with
  | Inf => (Some player, Finite d)
  | Finite m => if Qlt_le_dec d m then (Some player, Finite d) else acc
  end.

Definition players (tracked_objects : list TrackedObject) : list TrackedObject :=
  filter (fun obj => class_id obj = 0%Z) tracked_objects.

Definition balls (tracked_objects : list TrackedObject) : list TrackedObject :=
  filter (fun obj => class_id obj = 1%Z) tracked_objects.

Definition detect_ball_transfer (tracked_objects : list TrackedObject)
    (transfer_threshold : Q) : list Transfer :=
  let transfers := [] in
  let players := players tracked_objects in
  let balls := balls tracked_objects in
  match balls with
  | [] => transfers
  | ball :: _ =>
      if (len players <? 2)%Z then transfers
      else
        match foldl (closest_step ball) (None, Inf) players with
        | (Some closest_player, Finite min_distance) =>
            if Qle_bool min_distance transfer_threshold then
              transfers ++ [ {| tr_frame_id := frame_id ball;
                                tr_ball_id := id ball;
                                tr_player_id := id closest_player;
                                tr_distance := min_distance;
                                tr_ball_position := center ball;
                                tr_player_position := center closest_player |} ]
            else transfers
        | _ => transfers
        end
  end.

(** *** Velocity *)

(** [{obj.id: obj for obj in previous_objects}]: a later object replaces an
    earlier one with the same id. *)
Definition objects_by_id (objs : list TrackedObject) : gmap Z TrackedObject :=
  foldl (fun m obj => <[id obj := obj]> m) ∅ objs.

Definition calculate_velocity (tracked_objects previous_objects : list TrackedObject)
  : list TrackedObject :=
  let prev_objects_map := objects_by_id previous_objects in
  (fun obj =>
         match prev_objects_map !! id obj with
         | Some prev_obj =>
             let vx := ((center obj).1 - (center prev_obj).1)%Q in
             let vy := ((center obj).2 - (center prev_obj).2)%Q in
             set_velocity (Some (vx, vy)) obj
         | None => obj
         end) <$> tracked_objects.

(** *** Ball history and prediction *)

Record BallSample : Type := {
  sample_frame_id : Z;
  position : Point;
  sample_bbox : BBox
}.

(** The fields [BallTracker] adds to [ObjectTracker]. *)
Record BallTracker `{VT : VisualTracker} : Type := {
  base : ObjectTracker VT;
  ball_history : list BallSample;
  max_history : Z
}.

Definition ball_tracker_init `{VT : VisualTracker} (tracker_type : string) : BallTracker :=
  {| base := init tracker_type; ball_history := []; max_history := 30 |}.

(** [for i in range(1, len(recent_positions))]: the velocity between each
    sample and the one before it. *)
Fixpoint velocities (recent_positions : list BallSample) : list Point :=
  match recent_positions with
  | prev :: (curr :: _) as rest =>
      let prev_pos := position prev in
      let curr_pos := position curr in
      let vx := (curr_pos.1 - prev_pos.1)%Q in
      let vy := (curr_pos.2 - prev_pos.2)%Q in
      (vx, vy) :: velocities rest
  | _ => []
  end.

(** [sum(...)] over floats: left to right, starting at 0. *)
Definition qsum (l : list Q) : Q := foldl Qplus 0%Q l.

Definition predict_ball_position `{VT : VisualTracker} (self : BallTracker)
    (frames_ahead : Z) : option Point :=
  if (len (ball_history self) <? 3)%Z then None
  else
    let recent_positions := drop (length (ball_history self) - 3) (ball_history self) in
    let velocities := velocities recent_positions in
    match velocities with
    | [] => None
    | _ :: _ =>
        let avg_vx := (qsum (map fst velocities) / inject_Z (len velocities))%Q in
        let avg_vy := (qsum (map snd velocities) / inject_Z (len velocities))%Q in
        match last (ball_history self) with
        | None => None
        | Some s =>
            let last_pos := position s in
            let predicted_x := (last_pos.1 + avg_vx * inject_Z frames_ahead)%Q in
            let predicted_y := (last_pos.2 + avg_vy * inject_Z frames_ahead)%Q in
            Some (predicted_x, predicted_y)
        end
    end.

(** One coordinate of the prediction of [predict_ball_position] from the
    coordinates [p0], [p1], [p2] of the last three samples, with the rounding
    of each operation written out: the two differences, [sum] (which starts
    from 0), the division by [len], the product and the final sum. *)
Definition rounded_prediction (p0 p1 p2 : Q) (frames_ahead : Z) : Q :=
  let v1 := fl (p1 - p0)%Q in
  let v2 := fl (p2 - p1)%Q in
  let avg := fl (fl (fl (0 + v1) + v2) / inject_Z 2)%Q in
  fl (p2 + fl (avg * inject_Z frames_ahead))%Q.

(** A coordinate on the half-pixel grid, where the center [x + w/2] of a box
    with integer corners lies, at most [2^39] from the origin. *)
Definition on_half_grid (c : Q) : Prop :=
  exists k : Z, (Z.abs k <= 2 ^ 40)%Z /\ (c == inject_Z k / 2)%Q.

(** *** A scripted backend

    A stand-in for an OpenCV tracker, to run the manager on concrete frames:
    a frame is [true] when the tracked object is visible in it.  [init]
    remembers the box and always succeeds; [update] succeeds exactly on a
    frame that shows the object and reports the remembered box. *)
Definition scripted_tracker : VisualTracker :=
  {| Frame := bool;
     Backend := BBox;
     cv2_create := fun _ => (0, 0, 0, 0)%Q;
     tracker_init := fun _ _ bbox => (true, bbox);
     tracker_update := fun box frame => (frame, box, box) |}.

(** A run of [update] over successive frames, from the state [self]. *)
Definition run `{VT : VisualTracker} (self : ObjectTracker VT)
    (inputs : list (Frame * list Detection)) : result (ObjectTracker VT) :=
  foldl (fun acc input =>
           self ← acc;
           '(self, _) ← update self input.1 input.2;
           Ok self) (Ok self) inputs.

(** *** Detection filter, ball history and kicks *)

Definition filter_detections (detections : list Detection) (confidence_threshold : Q)
  : list Detection :=
  List.filter (fun det => Qle_bool confidence_threshold (det_confidence det)) detections.

Definition set_ball_history `{VT : VisualTracker} (h : list BallSample) (self : BallTracker)
  : BallTracker :=
  {| base := base self; ball_history := h; max_history := max_history self |}.

(** [BallTracker.update_ball_history]; [pop(0)] drops the oldest sample. *)
Definition update_ball_history `{VT : VisualTracker} (self : BallTracker)
    (ball_objects : list TrackedObject) : BallTracker :=
  match ball_objects with
  | [] => self
  | ball :: _ =>
      let h := ball_history self ++ [ {| sample_frame_id := frame_id ball;
                                         position := center ball;
                                         sample_bbox := bbox ball |} ] in
      if (max_history self <? len h)%Z then set_ball_history (drop 1 h) self
      else set_ball_history h self
  end.

(** A kick event dictionary. *)
Record Kick : Type := {
  kick_frame_id : Z;
  kick_ball_id : Z;
  kick_velocity : Point;
  kick_velocity_magnitude : Q;
  kick_position : Point
}.

(** [np.sqrt(ball.velocity[0]**2 + ball.velocity[1]**2)], each operation
    rounded. *)
Definition velocity_magnitude (v : Point) : Q :=
  np_sqrt (fl (fl (v.1 ^ 2) + fl (v.2 ^ 2)))%Q.

(** One iteration of [for ball in balls] in [detect_ball_kick].  A velocity
    tuple is truthy whatever its components. *)
Definition kick_step (velocity_threshold : Q) (kicks : list Kick) (ball : TrackedObject)
  : list Kick :=
  match velocity ball with
  | Some v =>
      let velocity_magnitude := velocity_magnitude v in
      if Qlt_le_dec velocity_threshold velocity_magnitude then
        kicks ++ [ {| kick_frame_id := frame_id ball;
                      kick_ball_id := id ball;
                      kick_velocity := v;
                      kick_velocity_magnitude := velocity_magnitude;
                      kick_position := center ball |} ]
      else kicks
  | None => kicks
  end.

Definition detect_ball_kick (tracked_objects : list TrackedObject)
    (velocity_threshold : Q) : list Kick :=
  foldl (kick_step velocity_threshold) [] (balls tracked_objects).

(** The kick event [detect_ball_kick] builds for a ball of velocity [v]. *)
Definition kick_of (ball : TrackedObject) (v : Point) : Kick :=
  {| kick_frame_id := frame_id ball;
     kick_ball_id := id ball;
     kick_velocity := v;
     kick_velocity_magnitude := velocity_magnitude v;
     kick_position := center ball |}.

(** The transfer event [detect_ball_transfer] builds for a ball and the
    player nearest to it. *)
Definition transfer_of (ball player : TrackedObject) : Transfer :=
  {| tr_frame_id := frame_id ball;
     tr_ball_id := id ball;
     tr_player_id := id player;
     tr_distance := _calculate_distance (center ball) (center player);
     tr_ball_position := center ball;
     tr_player_position := center player |}.

(** *** Well-formed and reachable states of the manager *)

Section ManagerStates.

Context `{VT : VisualTracker}.

Local Open Scope Z_scope.

(** A Python dictionary has each key once, and [self.disappeared] has a
    counter for every key of [self.trackers]. *)
Definition wf (self : ObjectTracker VT) : Prop :=
  NoDup (keys (trackers self)) /\
  forall k, k ∈ keys (trackers self) -> is_Some (disappeared self !! k).

(** The states a job goes through: a fresh manager, then calls of [update]
    that return, and of [reset]. *)
Inductive reachable : ObjectTracker VT -> Prop :=
| reachable_init tracker_type : reachable (init tracker_type)
| reachable_update self frame detections self' tracked_objects :
    reachable self ->
    update self frame detections = Ok (self', tracked_objects) ->
    reachable self'
| reachable_reset self : reachable self -> reachable (reset self).

(** What one frame does to the track [k], whose backend state is in [info]
    and whose counter was [count]. *)
Definition track_outcome (frame : Frame) (self self' : ObjectTracker VT)
    (k : Z) (info : TrackerInfo VT) (count : Z) : Prop :=
  if (tracker_update (tracker info) frame).1.1 then
    disappeared self' !! k = Some 0 /\
    (k ∈ keys (trackers self) -> k ∈ keys (trackers self'))
  else if decide (max_disappeared self < count + 1) then
    disappeared self' !! k = None /\ k ∉ keys (trackers self')
  else
    disappeared self' !! k = Some (count + 1) /\
    (k ∈ keys (trackers self) -> k ∈ keys (trackers self')).

(** What every step of the loop keeps: the id counter and the limit stay,
    no key is added, keys stay distinct. *)
Definition shrinks (self self' : ObjectTracker VT) : Prop :=
  next_id self' = next_id self /\
  max_disappeared self' = max_disappeared self /\
  (length (trackers self') <= length (trackers self))%nat /\
  (forall k, k ∈ keys (trackers self') -> k ∈ keys (trackers self)) /\
  (NoDup (keys (trackers self)) -> NoDup (keys (trackers self'))).

(** The entries of [k] are the same in both states. *)
Definition untouched (k : Z) (self self' : ObjectTracker VT) : Prop :=
  disappeared self' !! k = disappeared self !! k /\
  (k ∈ keys (trackers self') <-> k ∈ keys (trackers self)).

(** Every track collected so far is as [update] builds it: without a velocity. *)
Definition all_fresh (acc : result (ObjectTracker VT * list TrackedObject)) : Prop :=
  match acc with
  | Ok (_, objs) => Forall (fun obj => velocity obj = None) objs
  | Raise _ => True
  end.

End ManagerStates.

(** *** Scenarios *)

Section Scenarios.

Local Open Scope Q_scope.

Definition sample_at (frame : Z) (x y : Q) : BallSample :=
  {| sample_frame_id := frame; position := (x, y); sample_bbox := (x, y, 10, 10) |}.

Definition track_at (i cls : Z) (c : Point) (v : option Point) : TrackedObject :=
  {| id := i; bbox := (c.1, c.2, 0, 0); class_id := cls; confidence := 1;
     frame_id := 0; center := c; velocity := v |}.

Definition ball_detection : Detection :=
  {| det_bbox := (10, 10, 4, 4)%Q; det_class_id := 1; det_confidence := 9 # 10 |}.

(** The manager after one frame that shows the ball. *)
Definition after_bootstrap : ObjectTracker scripted_tracker :=
  match update (VT := scripted_tracker) (init "CSRT") true [ball_detection] with
  | Ok (self, _) => self
  | Raise _ => init "CSRT"
  end.

(** The distance between a ball and a player, as [detect_ball_transfer]
    computes it. *)
Definition dist (ball player : TrackedObject) : Q :=
  _calculate_distance (center ball) (center player).


(** C4 as stated: once [update] has bootstrapped tracks, no later call
    adds a track or increases the number of live tracks. *)
Definition never_grows_after_bootstrap (VT : VisualTracker) : Prop :=
  forall tracker_type frame0 detections0 self1 objs1 later self2 frame detections self3 objs3,
    update (init tracker_type) frame0 detections0 = Ok (self1, objs1) ->
    trackers self1 <> [] ->
    run self1 later = Ok self2 ->
    update self2 frame detections = Ok (self3, objs3) ->
    (length (trackers self3) <= length (trackers self2))%nat /\
    (forall k, k ∈ keys (trackers self3) -> k ∈ keys (trackers self2)).

End Scenarios.

(** *** The manager's table between frames *)

Section ManagerTable.

Context `{VT : VisualTracker}.

Local Open Scope Z_scope.

(** The counters are those of the live tracks and stay within the limit; the
    ids handed out so far are below [next_id]. *)
Definition table_invariant (self : ObjectTracker VT) : Prop :=
  NoDup (keys (trackers self)) /\
  (forall k, k ∈ keys (trackers self) <-> is_Some (disappeared self !! k)) /\
  (forall k count, disappeared self !! k = Some count -> 0 <= count <= 30) /\
  max_disappeared self = 30 /\
  0 <= next_id self /\
  (forall k, k ∈ keys (trackers self) -> 0 <= k < next_id self).

(** The object [update] returns for a dictionary entry whose backend follows
    the frame, if it does. *)
Definition reported (frame : Frame) (item : Z * TrackerInfo VT) : option TrackedObject :=
  let '(success, bbox, _) := tracker_update (tracker item.2) frame in
  if success : bool then
    Some {| id := item.1;
            bbox := bbox;
            class_id := info_class_id item.2;
            confidence := info_confidence item.2;
            frame_id := 0;
            center := bbox_center bbox;
            velocity := None |}
  else None.

(** Whether the backend accepts the box of a detection at bootstrap. *)
Definition accepted (self : ObjectTracker VT) (frame : Frame) (detection : Detection) : bool :=
  (tracker_init (create_tracker self) frame (det_bbox detection)).1.

End ManagerTable.

Section TableColumns.

Context `{VT : VisualTracker}.

(** The class ids and the confidences of the tracks, in dictionary order. *)
Definition class_ids (d : list (Z * TrackerInfo VT)) : list Z :=
  map (fun item => info_class_id item.2) d.

Definition confidences (d : list (Z * TrackerInfo VT)) : list Q :=
  map (fun item => info_confidence item.2) d.

End TableColumns.

Section TrackClasses.

Context `{VT : VisualTracker}.

(** Every track of the table has a class id in [P]. *)
Definition tracks_in_class (P : Z -> Prop) (self : ObjectTracker VT) : Prop :=
  Forall (fun item => P (info_class_id item.2)) (trackers self).

(** Two entries agree on what identifies a track to its users. *)
Definition same_identity (info info' : TrackerInfo VT) : Prop :=
  info_class_id info' = info_class_id info /\
  info_confidence info' = info_confidence info.

End TrackClasses.

Section DetectorScenario.

Local Open Scope Q_scope.

(** A sports ball as the detector script reports it: COCO class 32. *)
Definition coco_ball_detection : Detection :=
  {| det_bbox := (10, 10, 4, 4); det_class_id := 32; det_confidence := 9 # 10 |}.

End DetectorScenario.

End Tracker.

(** ** [test_detection.py] *)

Module Detector.

(** [self.target_classes] of [YOLODetector]: the COCO class ids that
    [detect_frame] lets through, 0 for a person and 32 for a sports ball. *)
Definition target_classes : list Z := [0; 32]%Z.

End Detector.

(** * Properties of the double-precision arithmetic *)

Section BinaryRounding.

Local Open Scope Q_scope.

Lemma pow2_pos (e : Z) : 0 < pow2 e.
Proof. apply Qpower_0_lt. reflexivity. Qed.

Lemma pow2_add (a b : Z) : pow2 (a + b) == pow2 a * pow2 b.
Proof. apply Qpower_plus. discriminate. Qed.

Lemma pow2_succ (a : Z) : pow2 (a + 1) == 2 * pow2 a.
Proof. rewrite pow2_add. unfold pow2 at 2. rewrite Qpower_1_r. ring. Qed.

Lemma pow2_le (a b : Z) : (a <= b)%Z -> pow2 a <= pow2 b.
Proof. intros H. apply Qpower_le_compat_l; [exact H | discriminate]. Qed.

Lemma pow2_Z (a : Z) : (0 <= a)%Z -> pow2 a == inject_Z (2 ^ a).
Proof. intros H. unfold pow2. rewrite Zpower_Qpower by exact H. reflexivity. Qed.

Lemma pow2_sub (a b : Z) : pow2 (a - b) == pow2 a / pow2 b.
Proof. apply Qpower_minus. discriminate. Qed.

(** [binade] brackets a positive number between two powers of 2. *)
Lemma binade_spec (q : Q) :
  0 < q -> pow2 (binade q) <= q /\ q < pow2 (binade q + 1).
Proof.
  intros Hq. destruct q as [n d].
  assert (Hn : (0 < n)%Z) by (unfold Qlt in Hq; simpl in Hq; lia).
  unfold binade. cbn [Qnum Qden].
  set (a := Z.log2 n). set (b := Z.log2 (Z.pos d)).
  destruct (Z.log2_spec n Hn) as [Ha1 Ha2]. fold a in Ha1, Ha2.
  destruct (Z.log2_spec (Z.pos d) ltac:(lia)) as [Hb1 Hb2]. fold b in Hb1, Hb2.
  assert (Ha0 : (0 <= a)%Z) by apply Z.log2_nonneg.
  assert (Hb0 : (0 <= b)%Z) by apply Z.log2_nonneg.
  assert (EA : pow2 a == inject_Z (2 ^ a)) by (apply pow2_Z; exact Ha0).
  assert (EB : pow2 b == inject_Z (2 ^ b)) by (apply pow2_Z; exact Hb0).
  pose proof (pow2_pos a) as PA. pose proof (pow2_pos b) as PB.
  assert (Eq : n # d == inject_Z n / inject_Z (Z.pos d)) by apply Qmake_Qdiv.
  assert (HD : 0 < inject_Z (Z.pos d)) by reflexivity.
  assert (HA1 : pow2 a <= inject_Z n) by (rewrite EA, <- Zle_Qle; exact Ha1).
  assert (HA2 : inject_Z n < 2 * pow2 a).
  { rewrite EA. change 2 with (inject_Z 2). rewrite <- inject_Z_mult, <- Zlt_Qlt.
    replace (Z.succ a) with (a + 1)%Z in Ha2 by lia.
    rewrite Z.pow_add_r in Ha2 by lia. lia. }
  assert (HB1 : pow2 b <= inject_Z (Z.pos d)) by (rewrite EB, <- Zle_Qle; exact Hb1).
  assert (HB2 : inject_Z (Z.pos d) < 2 * pow2 b).
  { rewrite EB. change 2 with (inject_Z 2). rewrite <- inject_Z_mult, <- Zlt_Qlt.
    replace (Z.succ b) with (b + 1)%Z in Hb2 by lia.
    rewrite Z.pow_add_r in Hb2 by lia. lia. }
  generalize dependent (inject_Z n). generalize dependent (inject_Z (Z.pos d)).
  intros D HD HB1 HB2 N Eq HA1 HA2.
  assert (Hup : n # d < 2 * (pow2 a / pow2 b)).
  { rewrite Eq. apply Qlt_shift_div_r; [exact HD|].
    assert (2 * (pow2 a / pow2 b) * D == 2 * pow2 a * (D / pow2 b)) as ->
      by (field; intros E; rewrite E in PB; discriminate PB).
    assert (1 <= D / pow2 b) by (apply Qle_shift_div_l; [exact PB | lra]).
    nra. }
  assert (Hlow : pow2 a / pow2 b / 2 <= n # d).
  { rewrite Eq. apply Qle_shift_div_l; [exact HD|].
    assert (pow2 a / pow2 b / 2 * D == pow2 a * (D / pow2 b / 2)) as ->
      by (field; intros E; rewrite E in PB; discriminate PB).
    assert (D / pow2 b / 2 <= 1).
    { apply Qle_shift_div_r; [reflexivity|]. apply Qle_shift_div_r; [exact PB | lra]. }
    assert (0 <= D / pow2 b / 2).
    { apply Qle_shift_div_l; [reflexivity|]. apply Qle_shift_div_l; [exact PB | lra]. }
    nra. }
  destruct (Qle_bool (pow2 (a - b)) (n # d)) eqn:E.
  - apply Qle_bool_iff in E. split; [exact E|].
    rewrite pow2_succ, pow2_sub. exact Hup.
  - assert (Hlt : n # d < pow2 (a - b)).
    { apply Qnot_le_lt. intros H. apply Qle_bool_iff in H. congruence. }
    replace (a - b - 1 + 1)%Z with (a - b)%Z by lia. split; [|exact Hlt].
    assert (pow2 (a - b - 1) == pow2 a / pow2 b / 2) as ->; [|exact Hlow].
    rewrite (pow2_sub (a - b) 1), pow2_sub. reflexivity.
Qed.

Lemma binade_comp (p q : Q) : Qred p = Qred q -> binade (Qred p) = binade (Qred q).
Proof. intros ->. reflexivity. Qed.

(** [rne] is within a half of its argument. *)
Lemma rne_spec (q : Q) :
  inject_Z (rne q) - (1 # 2) <= q /\ q <= inject_Z (rne q) + (1 # 2).
Proof.
  unfold rne. pose proof (Qfloor_le q) as Hl. pose proof (Qlt_floor q) as Hu.
  rewrite inject_Z_plus in Hu. change (inject_Z 1) with 1 in Hu.
  destruct (Qcompare_spec (q - inject_Z (Qfloor q)) (1 # 2)) as [E | E | E].
  - destruct (Z.even (Qfloor q)).
    + split; lra.
    + rewrite inject_Z_plus. change (inject_Z 1) with 1. split; lra.
  - split; lra.
  - rewrite inject_Z_plus. change (inject_Z 1) with 1. split; lra.
Qed.

Lemma rne_pos (q : Q) : 1 <= q -> (1 <= rne q)%Z.
Proof.
  intros Hq. destruct (rne_spec q) as [_ Hu].
  assert (H : 0 < inject_Z (rne q)) by lra.
  change 0 with (inject_Z 0) in H. rewrite <- Zlt_Qlt in H. lia.
Qed.

(** Rounding a positive number to 53 bits moves it by at most [2^-53] of
    its value. *)
Lemma round_pos_error (q : Q) :
  0 < q ->
  (1 - pow2 (-53)) * q <= round_pos q /\ round_pos q <= (1 + pow2 (-53)) * q.
Proof.
  intros Hq. unfold round_pos.
  destruct (binade_spec q Hq) as [Hb _].
  set (s := (binade q - 52)%Z).
  pose proof (pow2_pos s) as Ps.
  destruct (rne_spec (q / pow2 s)) as [Hr1 Hr2].
  assert (Es : pow2 (binade q) == pow2 53 * (pow2 (-53) * pow2 52 * pow2 s)).
  { rewrite <- !pow2_add. subst s. apply Qpower_comp; [reflexivity | lia]. }
  assert (E53 : pow2 53 * pow2 (-53) == 1) by reflexivity.
  assert (Hq' : q == q / pow2 s * pow2 s)
    by (field; intros E; rewrite E in Ps; discriminate Ps).
  assert (Hhalf : (1 # 2) * pow2 s <= pow2 (-53) * q).
  { assert (pow2 (-53) * pow2 (binade q) == (1 # 2) * pow2 s) as <-.
    { rewrite Es. assert (pow2 52 == 4503599627370496) as -> by reflexivity.
      assert (pow2 (-53) == 1 # 9007199254740992) as -> by reflexivity.
      assert (pow2 53 == 9007199254740992) as -> by reflexivity. ring. }
    apply Qmult_le_l; [reflexivity | exact Hb]. }
  clear Es E53 Hb.
  generalize dependent (inject_Z (rne (q / pow2 s))). intros r Hr1 Hr2.
  generalize dependent (q / pow2 s). intros x Hq' Hr1 Hr2.
  generalize dependent (pow2 (-53)). intros u Hhalf.
  generalize dependent (pow2 s). intros P Ps Hq' Hhalf.
  split; nra.
Qed.

Lemma round_pos_pos (q : Q) : 0 < q -> 0 < round_pos q.
Proof.
  intros Hq. destruct (round_pos_error q Hq) as [H _].
  assert (pow2 (-53) == 1 # 9007199254740992) as E by reflexivity.
  rewrite E in H. nra.
Qed.

(** [fl] gives equal results on equal rationals. *)
Lemma fl_comp (p q : Q) : p == q -> fl p = fl q.
Proof.
  intros E. unfold fl. assert (Qcompare p 0 = Qcompare q 0) as ->
    by (apply Qcompare_comp; [exact E | reflexivity]).
  assert (E1 : Qred p = Qred q) by (apply Qred_complete; exact E).
  assert (E2 : Qred (- p) = Qred (- q)) by (apply Qred_complete; rewrite E; reflexivity).
  rewrite E1, E2. reflexivity.
Qed.

Lemma fl_proper : Proper (Qeq ==> Qeq) fl.
Proof. intros p q E. rewrite (fl_comp p q E). reflexivity. Qed.

#[global] Existing Instance fl_proper.

Lemma fl_pos (q : Q) : 0 < q -> fl q == round_pos (Qred q).
Proof.
  intros Hq. unfold fl. rewrite (proj1 (Qgt_alt q 0) Hq). apply Qred_correct.
Qed.

Lemma fl_neg (q : Q) : q < 0 -> fl q == - round_pos (Qred (- q)).
Proof.
  intros Hq. unfold fl. rewrite (proj1 (Qlt_alt q 0) Hq). apply Qred_correct.
Qed.

Lemma fl_0 (q : Q) : q == 0 -> fl q = 0.
Proof. intros Hq. unfold fl. rewrite (proj1 (Qeq_alt q 0) Hq). reflexivity. Qed.

Lemma fl_opp (q : Q) : fl (- q) == - fl q.
Proof.
  destruct (Q_dec q 0) as [[H | H] | H].
  - rewrite (fl_neg q H), fl_pos by lra. ring.
  - rewrite (fl_pos q H), fl_neg by lra.
    assert (Qred (- - q) = Qred q) as -> by (apply Qred_complete; ring). reflexivity.
  - rewrite (fl_0 q H), fl_0 by lra. reflexivity.
Qed.


Lemma fl_nonneg (q : Q) : 0 <= q -> 0 <= fl q.
Proof.
  intros Hq. destruct (Qle_lt_or_eq _ _ Hq) as [H | H].
  - rewrite (fl_pos q H). apply Qlt_le_weak, round_pos_pos.
    rewrite Qred_correct. exact H.
  - rewrite fl_0 by (symmetry; exact H). discriminate.
Qed.

Lemma fl_eq_0 (q : Q) : fl q == 0 -> q == 0.
Proof.
  intros E. destruct (Q_dec q 0) as [[H | H] | H]; [| |exact H].
  - rewrite (fl_neg q H) in E.
    assert (Hm : 0 < Qred (- q)) by (rewrite Qred_correct; lra).
    pose proof (round_pos_pos _ Hm). lra.
  - rewrite (fl_pos q H) in E.
    assert (Hm : 0 < Qred q) by (rewrite Qred_correct; lra).
    pose proof (round_pos_pos _ Hm). lra.
Qed.

End BinaryRounding.

Section SquareRoot.

Local Open Scope Q_scope.

Lemma np_sqrt_comp (p q : Q) : p == q -> np_sqrt p = np_sqrt q.
Proof.
  intros E. unfold np_sqrt.
  assert (Qcompare p 0 = Qcompare q 0) as ->
    by (apply Qcompare_comp; [exact E | reflexivity]).
  assert (Qred p = Qred q) as -> by (apply Qred_complete; exact E).
  reflexivity.
Qed.

Lemma np_sqrt_nonpos (q : Q) : q <= 0 -> np_sqrt q = 0.
Proof.
  intros Hq. unfold np_sqrt.
  destruct (Qcompare_spec q 0) as [E | E | E]; [reflexivity | reflexivity | lra].
Qed.

(** What [np_sqrt] computes on a positive number: a significand [m] and a
    scale [2^s] with [m] within a half of the square root of [q / 4^s], and
    [2^52 <= m]. *)
Lemma np_sqrt_digits (q : Q) :
  0 < q ->
  exists (m s : Z) (t : Q),
    np_sqrt q == inject_Z m * pow2 s /\
    q == t * (pow2 s * pow2 s) /\
    pow2 52 * pow2 s * (pow2 52 * pow2 s) <= q /\
    (1 <= m)%Z /\
    (inject_Z m - (1 # 2)) * (inject_Z m - (1 # 2)) <= t /\
    t <= (inject_Z m + (1 # 2)) * (inject_Z m + (1 # 2)).
Proof.
  intros Hq. unfold np_sqrt. rewrite (proj1 (Qgt_alt q 0) Hq).
  pose proof (Qred_correct q) as Er.
  assert (Hq' : 0 < Qred q) by (rewrite Er; exact Hq).
  destruct (binade_spec _ Hq') as [Hb _].
  set (e := binade (Qred q)) in *.
  set (s := (e / 2 - 52)%Z).
  set (t := Qred q / pow2 (2 * s)).
  set (m := Z.sqrt (Qfloor t)).
  pose proof (pow2_pos s) as Ps.
  assert (E2 : pow2 (2 * s) == pow2 s * pow2 s).
  { rewrite <- pow2_add. apply Qpower_comp; [reflexivity | lia]. }
  assert (Et : q == t * (pow2 s * pow2 s)).
  { rewrite <- Er. subst t. rewrite E2. field.
    intros E. rewrite E in Ps. discriminate Ps. }
  assert (Hlow : pow2 52 * pow2 s * (pow2 52 * pow2 s) <= q).
  { rewrite <- Er. eapply Qle_trans; [|exact Hb].
    rewrite <- !pow2_add. apply pow2_le. subst s.
    pose proof (Z.mul_div_le e 2 ltac:(lia)). lia. }
  assert (Ht : pow2 52 * pow2 52 <= t).
  { assert (0 < pow2 s * pow2 s) as PP by nra.
    assert (pow2 52 * pow2 52 * (pow2 s * pow2 s) <= t * (pow2 s * pow2 s)) as Hm.
    { rewrite <- Et. eapply Qle_trans; [|exact Hlow].
      assert (pow2 52 * pow2 52 * (pow2 s * pow2 s)
              == pow2 52 * pow2 s * (pow2 52 * pow2 s)) as -> by ring.
      apply Qle_refl. }
    apply Qmult_le_r in Hm; [exact Hm | exact PP]. }
  assert (Hft : (2 ^ 104 <= Qfloor t)%Z).
  { change (2 ^ 104)%Z with (Qfloor (inject_Z (2 ^ 104))) at 1.
    rewrite Qfloor_Z. rewrite <- (Qfloor_Z (2 ^ 104)).
    apply Qfloor_resp_le. exact Ht. }
  assert (Hm52 : (2 ^ 52 <= m)%Z).
  { subst m. change (2 ^ 52)%Z with (Z.sqrt (2 ^ 104)).
    apply Z.sqrt_le_mono. exact Hft. }
  destruct (Z.sqrt_spec (Qfloor t) ltac:(lia)) as [Hs1 Hs2]. fold m in Hs1, Hs2.
  assert (Hml : inject_Z m * inject_Z m <= t).
  { eapply Qle_trans; [|apply Qfloor_le].
    rewrite <- inject_Z_mult, <- Zle_Qle. exact Hs1. }
  assert (Hmu : t < (inject_Z m + 1) * (inject_Z m + 1)).
  { eapply Qlt_le_trans; [apply Qlt_floor|].
    change 1 with (inject_Z 1). rewrite <- !inject_Z_plus, <- inject_Z_mult, <- Zle_Qle.
    lia. }
  assert (Hm1 : 1 <= inject_Z m).
  { change 1 with (inject_Z 1). rewrite <- Zle_Qle.
    assert (1 <= 2 ^ 52)%Z by (vm_compute; discriminate). lia. }
  assert (Hcase :
    forall m' : Z, (m' = m /\ t <= (inject_Z m + (1 # 2)) * (inject_Z m + (1 # 2)))
                \/ (m' = (m + 1)%Z /\ (inject_Z m + (1 # 2)) * (inject_Z m + (1 # 2)) <= t) ->
      (1 <= m')%Z /\
      (inject_Z m' - (1 # 2)) * (inject_Z m' - (1 # 2)) <= t /\
      t <= (inject_Z m' + (1 # 2)) * (inject_Z m' + (1 # 2))).
  { intros m' [[-> Hu] | [-> Hl]].
    - split; [rewrite Zle_Qle; exact Hm1|]. split; [nra | exact Hu].
    - assert (1 <= m + 1)%Z by (assert (1 <= 2 ^ 52)%Z by (vm_compute; discriminate); lia).
      split; [assumption|]. rewrite inject_Z_plus. change (inject_Z 1) with 1.
      split; nra. }
  eexists _, s, t. split; [apply Qred_correct|]. split; [exact Et|].
  split; [exact Hlow|]. apply Hcase.
  destruct (Qcompare_spec t ((inject_Z m + (1 # 2)) * (inject_Z m + (1 # 2)))) as [E | E | E].
  - destruct (Z.even m); [left | right]; split; try reflexivity; rewrite E; apply Qle_refl.
  - left. split; [reflexivity | apply Qlt_le_weak, E].
  - right. split; [reflexivity | apply Qlt_le_weak, E].
Qed.

Lemma np_sqrt_pos (q : Q) : 0 < q -> 0 < np_sqrt q.
Proof.
  intros Hq. destruct (np_sqrt_digits q Hq) as (m & s & t & E & _ & _ & Hm & _).
  rewrite E. apply Qmult_lt_0_compat; [|apply pow2_pos].
  change 0 with (inject_Z 0). rewrite <- Zlt_Qlt. lia.
Qed.

Lemma np_sqrt_nonneg (q : Q) : 0 <= np_sqrt q.
Proof.
  destruct (Qlt_le_dec 0 q) as [H | H].
  - apply Qlt_le_weak, np_sqrt_pos, H.
  - rewrite np_sqrt_nonpos by exact H. apply Qle_refl.
Qed.

Lemma np_sqrt_eq_0 (q : Q) : np_sqrt q == 0 -> q <= 0.
Proof.
  intros E. apply Qnot_lt_le. intros H. pose proof (np_sqrt_pos q H). lra.
Qed.

Local Open Scope R_scope.




End SquareRoot.

Section NormAccuracy.

Local Open Scope Q_scope.




Local Open Scope R_scope.



End NormAccuracy.

Section ExactRounding.

Local Open Scope Q_scope.

Lemma rne_comp (p q : Q) : p == q -> rne p = rne q.
Proof.
  intros E. unfold rne. rewrite (Qfloor_comp _ _ E).
  assert (Qcompare (p - inject_Z (Qfloor q)) (1 # 2)
          = Qcompare (q - inject_Z (Qfloor q)) (1 # 2)) as ->
    by (apply Qcompare_comp; [rewrite E|]; reflexivity).
  reflexivity.
Qed.

Lemma rne_Z (z : Z) : rne (inject_Z z) = z.
Proof.
  unfold rne. rewrite Qfloor_Z.
  assert (Qcompare (inject_Z z - inject_Z z) (1 # 2) = Lt) as ->; [|reflexivity].
  apply Qlt_alt. assert (inject_Z z - inject_Z z == 0) as -> by ring. reflexivity.
Qed.

Lemma binade_upper (q : Q) (n : Z) : 0 < q -> q < pow2 n -> (binade q < n)%Z.
Proof.
  intros Hq Hn. destruct (binade_spec q Hq) as [Hb _].
  destruct (Z_lt_le_dec (binade q) n) as [H | H]; [exact H|].
  pose proof (pow2_le _ _ H). lra.
Qed.

(** A number with a significand below [2^53] is a double: rounding leaves
    it as it is. *)
Lemma round_pos_dyadic (q : Q) (k j : Z) :
  (0 < k < 2 ^ 53)%Z -> q == inject_Z k * pow2 j -> round_pos q == q.
Proof.
  intros Hk Eq.
  pose proof (pow2_pos j) as Pj.
  assert (Hk0 : 0 < inject_Z k) by (change 0 with (inject_Z 0); rewrite <- Zlt_Qlt; lia).
  assert (Hq : 0 < q) by (rewrite Eq; apply Qmult_lt_0_compat; assumption).
  assert (Hup : q < pow2 (53 + j)).
  { rewrite Eq, pow2_add. apply Qmult_lt_compat_r; [exact Pj|].
    rewrite pow2_Z by lia. rewrite <- Zlt_Qlt. lia. }
  pose proof (binade_upper q _ Hq Hup) as Hb.
  unfold round_pos. set (s := (binade q - 52)%Z).
  pose proof (pow2_pos s) as Ps.
  assert (Hd : (0 <= j - s)%Z) by (subst s; lia).
  assert (Ej : pow2 j == inject_Z (2 ^ (j - s)) * pow2 s).
  { rewrite <- pow2_Z by exact Hd. rewrite <- pow2_add.
    apply Qpower_comp; [reflexivity | lia]. }
  assert (Ex : q / pow2 s == inject_Z (k * 2 ^ (j - s))).
  { rewrite Eq, Ej, inject_Z_mult. field.
    intros E. rewrite E in Ps. discriminate Ps. }
  rewrite (rne_comp _ _ Ex), rne_Z, Eq, Ej, inject_Z_mult. ring.
Qed.

Lemma fl_dyadic (q : Q) (k j : Z) :
  (Z.abs k < 2 ^ 53)%Z -> q == inject_Z k * pow2 j -> fl q == q.
Proof.
  intros Hk Eq. pose proof (pow2_pos j) as Pj.
  destruct (Z.lt_trichotomy k 0) as [Hneg | [-> | Hpos]].
  - assert (Hq : q < 0).
    { rewrite Eq. assert (inject_Z k < 0) by (change 0 with (inject_Z 0); rewrite <- Zlt_Qlt; lia).
      nra. }
    rewrite (fl_neg q Hq).
    rewrite (round_pos_dyadic (Qred (- q)) (- k) j); [rewrite Qred_correct; ring | lia |].
    rewrite Qred_correct, Eq, inject_Z_opp. ring.
  - rewrite fl_0; rewrite Eq; change (inject_Z 0) with 0; ring.
  - assert (Hq : 0 < q).
    { rewrite Eq. assert (0 < inject_Z k) by (change 0 with (inject_Z 0); rewrite <- Zlt_Qlt; lia).
      nra. }
    rewrite (fl_pos q Hq).
    rewrite (round_pos_dyadic (Qred q) k j); [apply Qred_correct | lia |].
    rewrite Qred_correct. exact Eq.
Qed.

(** Integers below [2^53] in size are doubles. *)
Lemma fl_Z (k : Z) : (Z.abs k < 2 ^ 53)%Z -> fl (inject_Z k) == inject_Z k.
Proof.
  intros Hk. apply (fl_dyadic _ k 0 Hk). change (pow2 0) with 1. ring.
Qed.

(** So are the quarters of integers below [2^53] in size. *)
Lemma fl_quarters (q : Q) (k : Z) :
  (Z.abs k < 2 ^ 53)%Z -> q == inject_Z k / 4 -> fl q == q.
Proof.
  intros Hk Eq. apply (fl_dyadic _ k (-2) Hk). rewrite Eq.
  assert (pow2 (-2) == 1 / 4) as -> by reflexivity. field.
Qed.

End ExactRounding.

(** * Properties of the zone grid *)

Section ZoneProperties.

Import Zones.

Local Open Scope Z_scope.

Lemma foldl_add_shift (zones : list Z) (acc : Z) :
  foldl Z.add acc zones = acc + foldl Z.add 0 zones.
Proof.
  revert acc. induction zones as [|z l IH]; intros acc; simpl.
  - lia.
  - rewrite (IH (acc + z)), (IH (0 + z)). lia.
Qed.

(** [calculate_zone_sum] is the sum of the sequence. *)
Lemma calculate_zone_sum_cons (z : Z) (zones : list Z) :
  calculate_zone_sum (z :: zones) = z + calculate_zone_sum zones.
Proof. unfold calculate_zone_sum. simpl. apply foldl_add_shift. Qed.

(** C3. With the default thresholds a sequence of [n] zones of sum [s] is
    a fast-break exactly when [n >= 3] and [s > 9] (rule A), or [3 < n <= 5]
    and [s > 12] (rule B).  The rules are independent: 4 or 5 passes that
    satisfy rule A are a fast-break whatever rule B says, and a sequence that
    satisfies neither rule is not a fast-break. *)
Theorem detect_fast_break_rules (zone_sequence : list Z) :
  let n := len zone_sequence in
  let s := calculate_zone_sum zone_sequence in
  (detect_fast_break_default zone_sequence = true <->
     (n >= 3 /\ s > 9) \/ (3 < n <= 5 /\ s > 12)) /\
  (4 <= n <= 5 -> s > 9 -> detect_fast_break_default zone_sequence = true) /\
  (~ (n >= 3 /\ s > 9) -> ~ (3 < n <= 5 /\ s > 12) ->
     detect_fast_break_default zone_sequence = false).
Proof.
  intros n s.
  unfold detect_fast_break_default, detect_fast_break.
  fold n. fold s.
  destruct (Z.ltb_spec n 3), (Z.leb_spec 3 n), (Z.ltb_spec 9 s),
    (Z.ltb_spec 3 n), (Z.leb_spec n 5), (Z.ltb_spec 12 s);
    simpl; repeat split; intros; try reflexivity; try discriminate; try lia;
    intuition lia.
Qed.

Lemma detect_fast_break_rules_witness :
  detect_fast_break_default [3; 3; 4] = true /\
  detect_fast_break_default [3; 3; 3] = false /\
  detect_fast_break_default [1; 1; 1; 1] = false /\
  detect_fast_break_default [2; 2; 3; 3] = true.
Proof.
  split; [|split; [|split]].
  - apply (proj1 (detect_fast_break_rules [3; 3; 4])). left.
    unfold len, calculate_zone_sum; simpl; lia.
  - apply (proj2 (proj2 (detect_fast_break_rules [3; 3; 3])));
      unfold len, calculate_zone_sum; simpl; lia.
  - apply (proj2 (proj2 (detect_fast_break_rules [1; 1; 1; 1])));
      unfold len, calculate_zone_sum; simpl; lia.
  - apply (proj1 (proj2 (detect_fast_break_rules [2; 2; 3; 3])));
      unfold len, calculate_zone_sum; simpl; lia.
Defined.

(** C1, as the code has it.  The sequence [1,2,3,6] (4 passes, sum 12) already
    satisfies rule A (at least 3 passes, sum above 9), so it is classified as a
    fast-break, and so is [1,2,3,7] (4 passes, sum 13). *)
Theorem fast_break_end_to_end :
  len [1; 2; 3; 6] = 4 /\ calculate_zone_sum [1; 2; 3; 6] = 12 /\
  detect_fast_break_default [1; 2; 3; 6] = true /\
  len [1; 2; 3; 7] = 4 /\ calculate_zone_sum [1; 2; 3; 7] = 13 /\
  detect_fast_break_default [1; 2; 3; 7] = true.
Proof. repeat split. Qed.

(** C1 as stated fails: [1,2,3,6] is not rejected. *)
Lemma fast_break_end_to_end_counterexample :
  ~ (detect_fast_break_default [1; 2; 3; 6] = false /\
     detect_fast_break_default [1; 2; 3; 7] = true).
Proof. intros [H _]. vm_compute in H. discriminate H. Qed.

(** C2, as the code has it.  On the default 1920 by 1080 pitch the zones are
    320 wide and 360 high; (100,100) is in zone 1 and (1900,100) in zone 6.
    The point (100,700) is in the middle row (700 // 360 = 1), which is zone
    7; zone 13 starts at y = 720. *)
Theorem pixel_to_zone_default_examples :
  (zone_width default_mapper == 320)%Q /\
  (zone_height default_mapper == 360)%Q /\
  pixel_to_zone default_mapper 100 100 = Ok 1 /\
  pixel_to_zone default_mapper 1900 100 = Ok 6 /\
  pixel_to_zone default_mapper 100 700 = Ok 7.
Proof.
  split; [|split; [|split; [|split]]]; vm_compute; reflexivity.
Qed.

(** C2 as stated fails at its third point: (100,700) is not in zone 13. *)
Lemma pixel_to_zone_default_examples_counterexample :
  ~ (pixel_to_zone default_mapper 100 100 = Ok 1 /\
     pixel_to_zone default_mapper 1900 100 = Ok 6 /\
     pixel_to_zone default_mapper 100 700 = Ok 13).
Proof. intros (_ & _ & H). vm_compute in H. discriminate H. Qed.


Local Open Scope Q_scope.

(** The two loops of [_create_zone_map] number the cells row by row: cell
    [(row, col)] is stored under [row * 6 + col + 1]. *)
Lemma grid_fold_lookup {A : Type} (f : Z -> Z -> A) (row col : Z) :
  (0 <= row < 3)%Z -> (0 <= col < 6)%Z ->
  (foldl (fun acc r =>
            foldl (fun (acc : gmap Z A * Z) c => (<[acc.2 := f r c]> (acc.1), (acc.2 + 1)%Z))
                  acc (range 6))
         (∅, 1%Z) (range 3)).1 !! (row * 6 + col + 1)%Z = Some (f row col).
Proof.
  intros Hr Hc.
  assert (Hrow : row = 0%Z \/ row = 1%Z \/ row = 2%Z) by lia.
  assert (Hcol : col = 0%Z \/ col = 1%Z \/ col = 2%Z \/ col = 3%Z \/ col = 4%Z \/ col = 5%Z) by lia.
  destruct Hrow as [-> | [-> | ->]];
    destruct Hcol as [-> | [-> | [-> | [-> | [-> | ->]]]]];
    vm_compute; reflexivity.
Qed.

Lemma zone_map_lookup (zw zh : Q) (row col : Z) :
  (0 <= row < 3)%Z -> (0 <= col < 6)%Z ->
  _create_zone_map 6 3 zw zh !! (row * 6 + col + 1)%Z =
  Some (inject_Z col * zw, inject_Z row * zh,
        inject_Z (col + 1) * zw, inject_Z (row + 1) * zh).
Proof.
  intros Hr Hc.
  apply (grid_fold_lookup
           (fun r c => (inject_Z c * zw, inject_Z r * zh,
                        inject_Z (c + 1) * zw, inject_Z (r + 1) * zh)) row col Hr Hc).
Qed.

Lemma Qfloor_unique (q : Q) (c : Z) :
  inject_Z c <= q -> q < inject_Z (c + 1) -> Qfloor q = c.
Proof.
  intros H1 H2.
  apply Z.le_antisymm.
  - assert (Qfloor q < c + 1)%Z as Hlt; [|lia].
    rewrite Zlt_Qlt. eapply Qle_lt_trans; [apply Qfloor_le | exact H2].
  - rewrite <- (Qfloor_Z c). apply Qfloor_resp_le. exact H1.
Qed.

(** The clamped floor division of [pixel_to_zone] picks a cell of the grid
    that contains the coordinate. *)
Lemma floor_cell (x zw : Q) (n : Z) :
  0 < zw -> 0 <= x -> x <= inject_Z (n + 1) * zw -> (0 <= n)%Z ->
  let c := Z.min (Qfloor (x / zw)) n in
  (0 <= c <= n)%Z /\ inject_Z c * zw <= x /\ x <= inject_Z (c + 1) * zw.
Proof.
  intros Hzw Hx0 Hx1 Hn c.
  assert (Hne : ~ zw == 0) by (intros E; rewrite E in Hzw; discriminate Hzw).
  assert (Hq : x == (x / zw) * zw) by (field; exact Hne).
  assert (Hq0 : 0 <= x / zw).
  { apply Qle_shift_div_l; [exact Hzw|]. rewrite Qmult_0_l. exact Hx0. }
  assert (Hf0 : (0 <= Qfloor (x / zw))%Z).
  { change 0%Z with (Qfloor 0). apply Qfloor_resp_le. exact Hq0. }
  assert (Hfl : inject_Z (Qfloor (x / zw)) * zw <= x).
  { rewrite Hq at 2. apply Qmult_le_compat_r; [apply Qfloor_le | apply Qlt_le_weak, Hzw]. }
  assert (Hfu : x <= inject_Z (Qfloor (x / zw) + 1) * zw).
  { rewrite Hq at 1. apply Qmult_le_compat_r; [|apply Qlt_le_weak, Hzw].
    apply Qlt_le_weak, Qlt_floor. }
  subst c. destruct (Z.min_spec (Qfloor (x / zw)) n) as [[Hlt ->] | [Hge ->]].
  - split; [lia|]. split; assumption.
  - split; [lia|]. split; [|exact Hx1].
    eapply Qle_trans; [|exact Hfl].
    apply Qmult_le_compat_r; [|apply Qlt_le_weak, Hzw].
    rewrite <- Zle_Qle. exact Hge.
Qed.

Lemma zone_width_pos (W : Z) : (0 < W)%Z -> 0 < inject_Z W / inject_Z 6.
Proof.
  intros HW. apply Qlt_shift_div_l; [reflexivity|].
  rewrite Qmult_0_l. change 0 with (inject_Z 0). rewrite <- Zlt_Qlt. exact HW.
Qed.

Lemma inject_Z_nonzero (W : Z) : (0 < W)%Z -> ~ inject_Z W == 0.
Proof. intros HW E. unfold Qeq in E. simpl in E. lia. Qed.

Lemma floordiv_ok (a b : Q) : 0 < b -> floordiv a b = Ok (Qfloor (a / b)).
Proof.
  intros Hb. unfold floordiv.
  destruct (Qeq_bool b 0) eqn:E; [|reflexivity].
  apply Qeq_bool_eq in E. rewrite E in Hb. discriminate Hb.
Qed.

Lemma inside_check (W H : Z) (x y : Q) :
  Qle_bool 0 x && Qle_bool x (inject_Z W) && Qle_bool 0 y && Qle_bool y (inject_Z H) = true
  <-> (0 <= x <= inject_Z W /\ 0 <= y <= inject_Z H).
Proof.
  rewrite !andb_true_iff, !Qle_bool_iff. tauto.
Qed.

(** C6, as the code has it.  On a pitch of positive width and height, a
    point inside the pitch rectangle (edges included) is mapped to a zone in
    1..18 whose boundaries contain the point; on the right and bottom edges
    the point is clamped into the last column and the last row.  A point
    outside the rectangle is mapped to 0, whatever the pitch. *)
Theorem pixel_to_zone_within_boundaries (W H : Z) (x y : Q) :
  let self := init W H in
  (~ (0 <= x <= inject_Z W /\ 0 <= y <= inject_Z H) ->
     pixel_to_zone self x y = Ok 0%Z) /\
  ((0 < W)%Z -> (0 < H)%Z -> 0 <= x <= inject_Z W -> 0 <= y <= inject_Z H ->
     exists z x1 y1 x2 y2,
       pixel_to_zone self x y = Ok z /\ (1 <= z <= 18)%Z /\
       get_zone_boundaries self z = Ok (x1, y1, x2, y2) /\
       x1 <= x <= x2 /\ y1 <= y <= y2 /\
       (x == inject_Z W -> ((z - 1) mod 6 = 5)%Z) /\
       (y == inject_Z H -> ((z - 1) / 6 = 2)%Z)).
Proof.
  intros self. split.
  - intros Hout. unfold pixel_to_zone. simpl pitch_width. simpl pitch_height.
    destruct (Qle_bool 0 x && Qle_bool x (inject_Z W) && Qle_bool 0 y
              && Qle_bool y (inject_Z H)) eqn:E; [|reflexivity].
    apply inside_check in E. contradiction.
  - intros HW HH Hx Hy.
    pose proof (zone_width_pos W HW) as Hzw.
    assert (Hzh : 0 < inject_Z H / inject_Z 3).
    { apply Qlt_shift_div_l; [reflexivity|].
      rewrite Qmult_0_l. change 0 with (inject_Z 0). rewrite <- Zlt_Qlt. exact HH. }
    assert (HxW : x <= inject_Z (5 + 1) * (inject_Z W / inject_Z 6)).
    { assert (inject_Z (5 + 1) * (inject_Z W / inject_Z 6) == inject_Z W) as ->
        by (change (inject_Z (5 + 1)) with 6; change (inject_Z 6) with 6; field). apply Hx. }
    assert (HyH : y <= inject_Z (2 + 1) * (inject_Z H / inject_Z 3)).
    { assert (inject_Z (2 + 1) * (inject_Z H / inject_Z 3) == inject_Z H) as ->
        by (change (inject_Z (2 + 1)) with 3; change (inject_Z 3) with 3; field). apply Hy. }
    destruct (floor_cell x _ 5 Hzw (proj1 Hx) HxW ltac:(lia)) as (Hc & Hcl & Hcu).
    destruct (floor_cell y _ 2 Hzh (proj1 Hy) HyH ltac:(lia)) as (Hr & Hrl & Hru).
    set (col := Z.min (Qfloor (x / (inject_Z W / inject_Z 6))) 5) in *.
    set (row := Z.min (Qfloor (y / (inject_Z H / inject_Z 3))) 2) in *.
    exists (row * 6 + col + 1)%Z.
    eexists _, _, _, _.
    split; [|split; [lia|split; [|split; [|split; [|split]]]]].
    + unfold pixel_to_zone. simpl pitch_width. simpl pitch_height.
      rewrite (proj2 (inside_check W H x y) (conj Hx Hy)). simpl negb. cbv iota.
      unfold self, init; simpl zone_width; simpl zone_height;
        simpl zones_per_row; simpl zones_per_col.
      rewrite !floordiv_ok by assumption. reflexivity.
    + unfold get_zone_boundaries, self, init. simpl zone_map.
      rewrite zone_map_lookup by lia. reflexivity.
    + split; assumption.
    + split; assumption.
    + intros Ex.
      assert (Qfloor (x / (inject_Z W / inject_Z 6)) = 6%Z) as Hf.
      { rewrite Ex.
        assert (inject_Z W / (inject_Z W / inject_Z 6) == inject_Z 6) as ->.
        2: apply Qfloor_Z.
        change (inject_Z 6) with 6. change (inject_Z 3) with 3. field.
          apply inject_Z_nonzero; assumption. }
      subst col. rewrite Hf.
      replace (row * 6 + Z.min 6 5 + 1 - 1)%Z with (5 + row * 6)%Z by lia.
      rewrite Z.mod_add by lia. reflexivity.
    + intros Ey.
      assert (Qfloor (y / (inject_Z H / inject_Z 3)) = 3%Z) as Hf.
      { rewrite Ey.
        assert (inject_Z H / (inject_Z H / inject_Z 3) == inject_Z 3) as ->.
        2: apply Qfloor_Z.
        change (inject_Z 6) with 6. change (inject_Z 3) with 3. field.
          apply inject_Z_nonzero; assumption. }
      subst row. rewrite Hf.
      replace (Z.min 3 2 * 6 + col + 1 - 1)%Z with (col + 2 * 6)%Z by lia.
      rewrite Z.div_add by lia. rewrite Z.div_small by lia. reflexivity.
Qed.

Lemma pixel_to_zone_within_boundaries_witness :
  exists z x1 y1 x2 y2,
    pixel_to_zone default_mapper 1920 1080 = Ok z /\ (1 <= z <= 18)%Z /\
    get_zone_boundaries default_mapper z = Ok (x1, y1, x2, y2) /\
    x1 <= 1920 <= x2 /\ y1 <= 1080 <= y2 /\
    (1920 == inject_Z 1920 -> ((z - 1) mod 6 = 5)%Z) /\
    (1080 == inject_Z 1080 -> ((z - 1) / 6 = 2)%Z).
Proof.
  apply (proj2 (pixel_to_zone_within_boundaries 1920 1080 1920 1080));
    [lia | lia | split; unfold Qle; simpl; lia | split; unfold Qle; simpl; lia].
Defined.

(** C6 as stated, for every pitch, fails on a pitch of width 0: the corner
    (0,0) lies inside the pitch rectangle, and the floor division by the zone
    width 0 raises [ZeroDivisionError] instead of giving a zone. *)
Lemma pixel_to_zone_within_boundaries_counterexample :
  ~ (forall (W H : Z) (x y : Q),
       (~ (0 <= x <= inject_Z W /\ 0 <= y <= inject_Z H) ->
          pixel_to_zone (init W H) x y = Ok 0%Z) /\
       (0 <= x <= inject_Z W -> 0 <= y <= inject_Z H ->
          exists z x1 y1 x2 y2,
            pixel_to_zone (init W H) x y = Ok z /\ (1 <= z <= 18)%Z /\
            get_zone_boundaries (init W H) z = Ok (x1, y1, x2, y2) /\
            x1 <= x <= x2 /\ y1 <= y <= y2 /\
            (x == inject_Z W -> ((z - 1) mod 6 = 5)%Z) /\
            (y == inject_Z H -> ((z - 1) / 6 = 2)%Z))).
Proof.
  intros Hclaim.
  destruct (proj2 (Hclaim 0%Z 1080%Z 0 0)) as (z & x1 & y1 & x2 & y2 & Hz & _);
    [split; discriminate | split; discriminate |].
  vm_compute in Hz. discriminate Hz.
Qed.

(** The center of cell [(row, col)] lies in column [col]. *)
Lemma center_floor (zw : Q) (c : Z) :
  0 < zw ->
  Qfloor ((inject_Z c * zw + inject_Z (c + 1) * zw) / 2 / zw) = c.
Proof.
  intros Hzw.
  assert (Hne : ~ zw == 0) by (intros E; rewrite E in Hzw; discriminate Hzw).
  assert ((inject_Z c * zw + inject_Z (c + 1) * zw) / 2 / zw == inject_Z c + (1 # 2)) as ->.
  { rewrite inject_Z_plus. change (inject_Z 1) with 1. field. exact Hne. }
  apply Qfloor_unique.
  - rewrite <- (Qplus_0_r (inject_Z c)) at 1. apply Qplus_le_r. discriminate.
  - rewrite inject_Z_plus. apply Qplus_lt_r. reflexivity.
Qed.

Lemma center_in_range (zw : Q) (c n : Z) :
  0 < zw -> (0 <= c <= n)%Z ->
  0 <= (inject_Z c * zw + inject_Z (c + 1) * zw) / 2 <= inject_Z (n + 1) * zw.
Proof.
  intros Hzw Hc.
  assert (H0 : 0 <= inject_Z c * zw).
  { apply Qmult_le_0_compat; [|apply Qlt_le_weak, Hzw].
    change 0 with (inject_Z 0). rewrite <- Zle_Qle. lia. }
  assert (H1 : inject_Z c * zw <= inject_Z (c + 1) * zw).
  { apply Qmult_le_compat_r; [|apply Qlt_le_weak, Hzw]. rewrite <- Zle_Qle. lia. }
  assert (H2 : inject_Z (c + 1) * zw <= inject_Z (n + 1) * zw).
  { apply Qmult_le_compat_r; [|apply Qlt_le_weak, Hzw]. rewrite <- Zle_Qle. lia. }
  generalize dependent (inject_Z (n + 1) * zw).
  generalize dependent (inject_Z (c + 1) * zw).
  generalize dependent (inject_Z c * zw).
  intros a Ha b Hab t Hbt. split.
  - apply Qle_shift_div_l; [reflexivity|]. lra.
  - apply Qle_shift_div_r; [reflexivity|]. lra.
Qed.

(** C10. On a pitch of positive width and height, the center of every zone
    [z] in 1..18 is mapped back to [z]. *)
Theorem zone_center_round_trip (W H z : Z) :
  (0 < W)%Z -> (0 < H)%Z -> (1 <= z <= 18)%Z ->
  exists center_x center_y,
    zone_to_pixel_center (init W H) z = Ok (center_x, center_y) /\
    pixel_to_zone (init W H) center_x center_y = Ok z.
Proof.
  intros HW HH Hz.
  set (row := ((z - 1) / 6)%Z). set (col := ((z - 1) mod 6)%Z).
  assert (Hrow : (0 <= row <= 2)%Z).
  { subst row. split; [apply Z.div_pos; lia|].
    apply Z.lt_succ_r. apply Z.div_lt_upper_bound; lia. }
  assert (Hcol : (0 <= col <= 5)%Z).
  { subst col. pose proof (Z.mod_pos_bound (z - 1) 6 ltac:(lia)). lia. }
  assert (Ez : z = (row * 6 + col + 1)%Z).
  { subst row col. pose proof (Z.div_mod (z - 1) 6 ltac:(lia)). lia. }
  pose proof (zone_width_pos W HW) as Hzw.
  assert (Hzh : 0 < inject_Z H / inject_Z 3).
  { apply Qlt_shift_div_l; [reflexivity|].
    rewrite Qmult_0_l. change 0 with (inject_Z 0). rewrite <- Zlt_Qlt. exact HH. }
  eexists _, _. split.
  - unfold zone_to_pixel_center, init. simpl zone_map.
    rewrite Ez, zone_map_lookup by lia. reflexivity.
  - unfold pixel_to_zone. simpl pitch_width. simpl pitch_height.
    pose proof (center_in_range _ col 5 Hzw Hcol) as Hx.
    pose proof (center_in_range _ row 2 Hzh Hrow) as Hy.
    assert (inject_Z (5 + 1) * (inject_Z W / inject_Z 6) == inject_Z W) as EW
        by (change (inject_Z (5 + 1)) with 6; change (inject_Z 6) with 6; field).
    assert (inject_Z (2 + 1) * (inject_Z H / inject_Z 3) == inject_Z H) as EH
        by (change (inject_Z (2 + 1)) with 3; change (inject_Z 3) with 3; field).
    rewrite EW in Hx. rewrite EH in Hy.
    rewrite (proj2 (inside_check W H _ _) (conj Hx Hy)). simpl negb. cbv iota.
    simpl zone_width; simpl zone_height; simpl zones_per_row; simpl zones_per_col.
    rewrite !floordiv_ok by assumption.
    rewrite !center_floor by assumption.
    simpl. f_equal. lia.
Qed.

Lemma zone_center_round_trip_witness :
  exists center_x center_y,
    zone_to_pixel_center default_mapper 8 = Ok (center_x, center_y) /\
    pixel_to_zone default_mapper center_x center_y = Ok 8%Z.
Proof. apply (zone_center_round_trip 1920 1080 8); lia. Defined.

End ZoneProperties.

(** * Properties of the velocity and possession analyzers *)

Section AnalyzerProperties.

Import Tracker.

Local Open Scope Q_scope.




(** The dictionary of the previous frame's objects holds, under each id, the
    last object of the list with that id. *)
Lemma foldl_insert_absent (l : list TrackedObject) (m : gmap Z TrackedObject) (k : Z) :
  (forall o, o ∈ l -> id o <> k) ->
  foldl (fun m obj => <[id obj := obj]> m) m l !! k = m !! k.
Proof.
  revert m. induction l as [|o l IH]; intros m Hl; simpl; [reflexivity|].
  rewrite IH.
  - apply lookup_insert_ne. apply Hl. left.
  - intros o' Ho'. apply Hl. right. exact Ho'.
Qed.

Lemma objects_by_id_absent (l : list TrackedObject) (k : Z) :
  (forall o, o ∈ l -> id o <> k) -> objects_by_id l !! k = None.
Proof.
  intros Hl. unfold objects_by_id. rewrite foldl_insert_absent by exact Hl.
  apply lookup_empty.
Qed.

Lemma objects_by_id_last (older newer : list TrackedObject) (p : TrackedObject) :
  (forall o, o ∈ newer -> id o <> id p) ->
  objects_by_id (older ++ p :: newer) !! id p = Some p.
Proof.
  intros Hnew. unfold objects_by_id. rewrite foldl_app. simpl.
  rewrite foldl_insert_absent by exact Hnew.
  apply lookup_insert_eq.
Qed.




(** *** Possession *)

(** The loop of [detect_ball_transfer] keeps the nearest player seen so far
    together with its distance; on a tie the earlier player stays. *)
Lemma closest_loop (ball : TrackedObject) (l : list TrackedObject) (c0 : TrackedObject) :
  exists c,
    foldl (closest_step ball) (Some c0, Finite (dist ball c0)) l = (Some c, Finite (dist ball c)) /\
    c ∈ c0 :: l /\
    forall p, p ∈ c0 :: l -> dist ball c <= dist ball p.
Proof.
  revert c0. induction l as [|q l IH]; intros c0; simpl.
  - exists c0. split; [reflexivity|]. split; [left|].
    intros p Hp. apply list_elem_of_singleton in Hp. subst p. apply Qle_refl.
  - unfold closest_step at 2. simpl. fold (dist ball q).
    destruct (Qlt_le_dec (dist ball q) (dist ball c0)) as [Hlt | Hge].
    + destruct (IH q) as (c & Hc & Hin & Hmin).
      exists c. split; [exact Hc|]. split; [right; exact Hin|].
      intros p Hp. apply elem_of_cons in Hp. destruct Hp as [-> | Hp].
      * pose proof (Hmin q ltac:(left)). lra.
      * apply Hmin. exact Hp.
    + destruct (IH c0) as (c & Hc & Hin & Hmin).
      exists c. split; [exact Hc|]. split.
      * apply elem_of_cons in Hin. destruct Hin as [-> | Hin]; [left | right; right; exact Hin].
      * intros p Hp. apply elem_of_cons in Hp. destruct Hp as [-> | Hp];
          [apply Hmin; left|].
        apply elem_of_cons in Hp. destruct Hp as [-> | Hp].
        -- pose proof (Hmin c0 ltac:(left)). lra.
        -- apply Hmin. right. exact Hp.
Qed.






(** The test against the threshold is on the double.  A player at
    [(50, 2^-30)] is farther than 50 from a ball at the origin, but the
    double computed for its distance is 50, and with the threshold 50 the
    event is emitted, with distance 50; the nearer of two players is the one
    with the smaller double, here the player 3-4-5 away. *)
Lemma detect_ball_transfer_on_doubles :
  let ball := track_at 2 1 (0, 0) None in
  let near := track_at 0 0 (50, 1 # 1073741824) None in
  (50 < sqrt (Q2R (50 ^ 2 + (1 # 1073741824) ^ 2)))%R /\
  detect_ball_transfer [near; ball; track_at 1 0 (300, 400) None] 50 =
    [ {| tr_frame_id := 0; tr_ball_id := 2; tr_player_id := 0; tr_distance := 50;
         tr_ball_position := (0, 0); tr_player_position := (50, 1 # 1073741824) |} ] /\
  detect_ball_transfer [near; ball; track_at 1 0 (3, 4) None] 50 =
    [ {| tr_frame_id := 0; tr_ball_id := 2; tr_player_id := 1; tr_distance := 5;
         tr_ball_position := (0, 0); tr_player_position := (3, 4) |} ].
Proof.
  intros ball near. split; [|split; vm_compute; reflexivity].
  assert (E : (50 = sqrt (50 * 50))%R) by (rewrite sqrt_square; lra).
  rewrite E at 1. apply sqrt_lt_1_alt.
  change (Q2R (50 ^ 2 + (1 # 1073741824) ^ 2))
    with (Q2R (2882303761517117440001 # 1152921504606846976)).
  unfold Q2R. simpl. split; lra.
Qed.

End AnalyzerProperties.

(** * Properties of the track manager *)

Section ManagerProperties.

Import Tracker.

Context `{VT : VisualTracker}.

Local Open Scope Z_scope.

(** *** The dictionary operations *)

Ltac fields :=
  cbn [trackers next_id max_disappeared disappeared tracker_type
       set_trackers set_disappeared set_next_id] in *.


Lemma keys_dict_alter {V : Type} (f : V -> V) (k : Z) (d : list (Z * V)) :
  keys (dict_alter f k d) = keys d.
Proof.
  unfold keys, dict_alter. induction d as [|[k' v] d IH]; simpl; [reflexivity|].
  rewrite IH. destruct (decide (k' = k)); reflexivity.
Qed.

Lemma length_dict_alter {V : Type} (f : V -> V) (k : Z) (d : list (Z * V)) :
  length (dict_alter f k d) = length d.
Proof. unfold dict_alter. apply length_map. Qed.

Lemma keys_dict_del {V : Type} (k k' : Z) (d : list (Z * V)) :
  k' ∈ keys (dict_del k d) <-> k' <> k /\ k' ∈ keys d.
Proof.
  unfold keys. induction d as [|[k0 v] d IH]; simpl.
  - split; [intros H; inversion H | intros [_ H]; exact H].
  - destruct (decide (k0 = k)) as [-> | Hne]; simpl.
    + rewrite IH, elem_of_cons. intuition congruence.
    + rewrite !elem_of_cons, IH. intuition congruence.
Qed.

Lemma NoDup_dict_del {V : Type} (k : Z) (d : list (Z * V)) :
  NoDup (keys d) -> NoDup (keys (dict_del k d)).
Proof.
  induction d as [|[k0 v] d IH]; simpl; intros Hnd; [exact Hnd|].
  apply NoDup_cons in Hnd. destruct Hnd as [Hk0 Hnd].
  destruct (decide (k0 = k)); [apply IH, Hnd|].
  simpl. apply NoDup_cons. split; [|apply IH, Hnd].
  intros Hin. apply keys_dict_del in Hin. apply Hk0, Hin.
Qed.

Lemma length_dict_del {V : Type} (k : Z) (d : list (Z * V)) :
  (length (dict_del k d) <= length d)%nat.
Proof.
  induction d as [|[k0 v] d IH]; simpl; [lia|].
  destruct (decide (k0 = k)); simpl; lia.
Qed.

Lemma keys_dict_set {V : Type} (k k' : Z) (v : V) (d : list (Z * V)) :
  k' ∈ keys (dict_set k v d) <-> k' = k \/ k' ∈ keys d.
Proof.
  unfold keys. induction d as [|[k0 v0] d IH]; simpl.
  - rewrite list_elem_of_singleton. split; [left; assumption|].
    intros [H | H]; [exact H | inversion H].
  - destruct (decide (k0 = k)) as [-> | Hne]; simpl.
    + rewrite !elem_of_cons. tauto.
    + rewrite !elem_of_cons, IH. tauto.
Qed.

Lemma NoDup_dict_set {V : Type} (k : Z) (v : V) (d : list (Z * V)) :
  NoDup (keys d) -> NoDup (keys (dict_set k v d)).
Proof.
  induction d as [|[k0 v0] d IH]; simpl; intros Hnd.
  - apply NoDup_singleton.
  - apply NoDup_cons in Hnd. destruct Hnd as [Hk0 Hnd].
    destruct (decide (k0 = k)) as [-> | Hne]; simpl.
    + apply NoDup_cons. split; assumption.
    + apply NoDup_cons. split; [|apply IH, Hnd].
      intros Hin. apply keys_dict_set in Hin. destruct Hin as [-> | Hin]; [congruence | auto].
Qed.

(** *** One frame of the update loop *)

Lemma shrinks_refl (self : ObjectTracker VT) : shrinks self self.
Proof. unfold shrinks. repeat split; auto. Qed.

Lemma shrinks_trans (s1 s2 s3 : ObjectTracker VT) :
  shrinks s1 s2 -> shrinks s2 s3 -> shrinks s1 s3.
Proof.
  unfold shrinks. intros (A1 & A2 & A3 & A4 & A5) (B1 & B2 & B3 & B4 & B5).
  repeat split; try congruence; try lia; auto.
Qed.

Lemma track_step_spec (frame : Frame) (self : ObjectTracker VT)
    (objs : list TrackedObject) (i : Z) (info : TrackerInfo VT) (count : Z) :
  disappeared self !! i = Some count ->
  exists self1 objs1,
    track_step frame (Ok (self, objs)) (i, info) = Ok (self1, objs1) /\
    shrinks self self1 /\
    (forall k, k <> i -> untouched k self self1) /\
    track_outcome frame self self1 i info count.
Proof.
  intros Hc. unfold track_step, track_outcome, untouched. cbn [mbind result_bind].
  destruct (tracker_update (tracker info) frame) as [[success bbox] tracker'].
  cbn [fst snd].
  destruct success.
  - eexists _, _. split; [reflexivity|]. fields.
    split; [|split].
    + unfold shrinks. fields. rewrite keys_dict_alter, length_dict_alter. repeat split; auto.
    + intros k Hk. rewrite keys_dict_alter, lookup_insert_ne by congruence. tauto.
    + rewrite keys_dict_alter, lookup_insert_eq. tauto.
  - fields. rewrite Hc. fields.
    destruct (Z.ltb_spec (max_disappeared self) (count + 1)) as [Hexp | Hkeep].
    + eexists _, _. split; [reflexivity|]. fields.
      destruct (decide (max_disappeared self < count + 1)) as [_ | Hn]; [|lia].
      split; [|split].
      * unfold shrinks. fields. repeat split; auto.
        -- etransitivity; [apply length_dict_del|]. rewrite length_dict_alter. lia.
        -- intros k Hk. apply keys_dict_del in Hk. rewrite keys_dict_alter in Hk. tauto.
        -- intros Hnd. apply NoDup_dict_del. rewrite keys_dict_alter. exact Hnd.
      * intros k Hk. rewrite lookup_delete_ne, lookup_insert_ne by congruence.
        rewrite keys_dict_del, keys_dict_alter. tauto.
      * rewrite lookup_delete_eq, keys_dict_del. tauto.
    + eexists _, _. split; [reflexivity|]. fields.
      destruct (decide (max_disappeared self < count + 1)) as [Hn | _]; [lia|].
      split; [|split].
      * unfold shrinks. fields. rewrite keys_dict_alter, length_dict_alter. repeat split; auto.
      * intros k Hk. rewrite keys_dict_alter, lookup_insert_ne by congruence. tauto.
      * rewrite keys_dict_alter, lookup_insert_eq. tauto.
Qed.

Lemma track_outcome_later (frame : Frame) (s0 s1 s2 : ObjectTracker VT)
    (k : Z) (info : TrackerInfo VT) (count : Z) :
  track_outcome frame s0 s1 k info count -> untouched k s1 s2 ->
  track_outcome frame s0 s2 k info count.
Proof.
  unfold track_outcome, untouched. intros Hout [E M].
  destruct ((tracker_update (tracker info) frame).1.1);
    [|destruct (decide (max_disappeared s0 < count + 1))];
    destruct Hout as [H1 H2]; (split; [congruence | tauto]).
Qed.

Lemma track_outcome_earlier (frame : Frame) (s0 s1 s2 : ObjectTracker VT)
    (k : Z) (info : TrackerInfo VT) (count : Z) :
  track_outcome frame s1 s2 k info count ->
  max_disappeared s1 = max_disappeared s0 -> untouched k s0 s1 ->
  track_outcome frame s0 s2 k info count.
Proof.
  unfold track_outcome, untouched. intros Hout Hmax [E M]. rewrite Hmax in Hout.
  destruct ((tracker_update (tracker info) frame).1.1);
    [|destruct (decide (max_disappeared s0 < count + 1))];
    destruct Hout as [H1 H2]; (split; [congruence | tauto]).
Qed.

Lemma track_loop (frame : Frame) (items : list (Z * TrackerInfo VT)) :
  forall (self : ObjectTracker VT) (objs : list TrackedObject),
    NoDup (keys items) ->
    (forall k, k ∈ keys items -> is_Some (disappeared self !! k)) ->
    exists self' objs',
      foldl (track_step frame) (Ok (self, objs)) items = Ok (self', objs') /\
      shrinks self self' /\
      (forall k, k ∉ keys items -> untouched k self self') /\
      (forall k info count,
          (k, info) ∈ items -> disappeared self !! k = Some count ->
          track_outcome frame self self' k info count).
Proof.
  induction items as [|[i info] items IH]; intros self objs Hnd Hdom.
  - exists self, objs. split; [reflexivity|]. split; [apply shrinks_refl|].
    split; [intros k _; unfold untouched; tauto|].
    intros k info' count Hin. inversion Hin.
  - cbn [keys map fst] in Hnd. apply NoDup_cons in Hnd. destruct Hnd as [Hi Hnd].
    destruct (Hdom i ltac:(left)) as [ci Hci].
    destruct (track_step_spec frame self objs i info ci Hci)
      as (self1 & objs1 & Hstep & Hsh1 & Hother1 & Hout1).
    destruct (IH self1 objs1 Hnd) as (self' & objs' & Hfold & Hsh & Hother & Hout).
    { intros k Hk. destruct (Hother1 k) as [-> _]; [intros ->; exact (Hi Hk)|].
      apply Hdom. right. exact Hk. }
    exists self', objs'. cbn [foldl]. rewrite Hstep.
    split; [exact Hfold|]. split; [eapply shrinks_trans; eassumption|].
    split.
    + intros k Hk. cbn [keys map fst] in Hk. apply not_elem_of_cons in Hk.
      destruct Hk as [Hki Hk].
      destruct (Hother1 k Hki) as [E1 M1]. destruct (Hother k Hk) as [E2 M2].
      unfold untouched. rewrite E2, E1, M2, M1. tauto.
    + intros k info' count Hin Hcount.
      apply elem_of_cons in Hin. destruct Hin as [Heq | Hin].
      * injection Heq as -> ->. rewrite Hci in Hcount. injection Hcount as <-.
        eapply track_outcome_later; [exact Hout1 | exact (Hother i Hi)].
      * assert (Hk : k ∈ keys items).
        { unfold keys. apply list_elem_of_fmap. exists (k, info'). split; [reflexivity | exact Hin]. }
        assert (Hki : k <> i) by (intros ->; exact (Hi Hk)).
        destruct Hsh1 as (_ & Hmax1 & _).
        eapply track_outcome_earlier; [|exact Hmax1 | exact (Hother1 k Hki)].
        apply Hout; [exact Hin|].
        destruct (Hother1 k Hki) as [-> _]. exact Hcount.
Qed.

(** *** Bootstrap, update and reset keep the manager well formed *)

Lemma bootstrap_step_wf (frame : Frame) (self : ObjectTracker VT) (detection : Detection) :
  wf self ->
  wf (bootstrap_step frame self detection) /\
  max_disappeared (bootstrap_step frame self detection) = max_disappeared self.
Proof.
  intros [Hnd Hdom]. unfold bootstrap_step.
  destruct (tracker_init (create_tracker self) frame (det_bbox detection)) as [success tracker'].
  destruct success; [|split; [split; assumption | reflexivity]].
  fields. split; [|reflexivity]. split; fields.
  - apply NoDup_dict_set, Hnd.
  - intros k Hk. apply keys_dict_set in Hk.
    destruct (decide (k = next_id self)) as [-> | Hne].
    + rewrite lookup_insert_eq. eauto.
    + rewrite lookup_insert_ne by congruence. apply Hdom. tauto.
Qed.

Lemma bootstrap_wf (frame : Frame) (detections : list Detection) (self : ObjectTracker VT) :
  wf self ->
  wf (bootstrap frame detections self) /\
  max_disappeared (bootstrap frame detections self) = max_disappeared self.
Proof.
  intros Hwf. unfold bootstrap.
  destruct (trackers self); [|split; [exact Hwf | reflexivity]].
  revert self Hwf. induction detections as [|d ds IH]; intros self Hwf; simpl.
  - split; [exact Hwf | reflexivity].
  - destruct (bootstrap_step_wf frame self d Hwf) as [Hwf1 Hmax1].
    destruct (IH _ Hwf1) as [Hwf2 Hmax2]. split; [exact Hwf2 | congruence].
Qed.

Lemma bootstrap_nonempty (frame : Frame) (detections : list Detection)
    (self : ObjectTracker VT) :
  trackers self <> [] -> bootstrap frame detections self = self.
Proof. unfold bootstrap. destruct (trackers self); [congruence | reflexivity]. Qed.

Lemma update_spec (frame : Frame) (detections : list Detection) (self : ObjectTracker VT) :
  wf self ->
  exists self' tracked_objects,
    update self frame detections = Ok (self', tracked_objects) /\
    shrinks (bootstrap frame detections self) self' /\
    wf self' /\
    forall k info count,
      (k, info) ∈ trackers (bootstrap frame detections self) ->
      disappeared (bootstrap frame detections self) !! k = Some count ->
      track_outcome frame (bootstrap frame detections self) self' k info count.
Proof.
  intros Hwf.
  destruct (bootstrap_wf frame detections self Hwf) as [[Hnd Hdom] Hmax].
  destruct (track_loop frame (trackers (bootstrap frame detections self))
              (bootstrap frame detections self) [] Hnd Hdom)
    as (self' & objs & Hfold & Hsh & _ & Hout).
  exists self', objs. split; [exact Hfold|]. split; [exact Hsh|]. split; [|exact Hout].
  destruct Hsh as (_ & _ & _ & Hsub & Hnd').
  split; [exact (Hnd' Hnd)|].
  intros k Hk. pose proof (Hsub k Hk) as Hkb.
  destruct (Hdom k Hkb) as [count Hcount].
  unfold keys in Hkb. apply list_elem_of_fmap in Hkb. destruct Hkb as ([k' info] & Ek & Hin).
  simpl in Ek. subst k'.
  specialize (Hout k info count Hin Hcount). unfold track_outcome in Hout.
  destruct ((tracker_update (tracker info) frame).1.1);
    [|destruct (decide (max_disappeared (bootstrap frame detections self) < count + 1))];
    destruct Hout as [H1 H2]; try (rewrite H1; eauto). contradiction.
Qed.

Lemma reachable_wf (self : ObjectTracker VT) :
  reachable self -> wf self /\ max_disappeared self = 30.
Proof.
  induction 1 as [tt | self frame detections self' objs Hreach [Hwf Hmax] Hupd
                 | self Hreach [Hwf Hmax]].
  - split; [|reflexivity]. split; simpl; [apply NoDup_nil_2|].
    intros k Hk. inversion Hk.
  - destruct (update_spec frame detections self Hwf)
      as (self2 & objs2 & Hupd2 & Hsh & Hwf2 & _).
    rewrite Hupd in Hupd2. injection Hupd2 as <- <-.
    split; [exact Hwf2|].
    destruct Hsh as (_ & Hm & _). rewrite Hm.
    rewrite (proj2 (bootstrap_wf frame detections self Hwf)). exact Hmax.
  - split; [|exact Hmax]. split; simpl; [apply NoDup_nil_2|].
    intros k Hk. inversion Hk.
Qed.

(** *** The tracks [update] returns are fresh *)

Lemma track_step_fresh (frame : Frame) (acc : result (ObjectTracker VT * list TrackedObject))
    (item : Z * TrackerInfo VT) :
  all_fresh acc -> all_fresh (track_step frame acc item).
Proof.
  destruct acc as [[self objs] | e]; [|intros _; exact I].
  destruct item as [object_id tracker_info].
  unfold track_step, all_fresh. cbn [mbind result_bind]. intros Hobjs.
  destruct (tracker_update (tracker tracker_info) frame) as [[success bbox] tracker'].
  destruct success.
  - apply Forall_app. split; [exact Hobjs|]. apply Forall_singleton. reflexivity.
  - fields. destruct (disappeared self !! object_id) as [count|]; [|exact I].
    destruct (max_disappeared self <? count + 1); exact Hobjs.
Qed.

Lemma update_fresh (self self' : ObjectTracker VT) (frame : Frame)
    (detections : list Detection) (tracked_objects : list TrackedObject) :
  update self frame detections = Ok (self', tracked_objects) ->
  Forall (fun obj => velocity obj = None) tracked_objects.
Proof.
  unfold update. intros Hupd.
  assert (Hall : forall items acc,
             all_fresh acc -> all_fresh (foldl (track_step frame) acc items)).
  { induction items as [|item items IH]; intros acc Hacc; simpl; [exact Hacc|].
    apply IH, track_step_fresh, Hacc. }
  specialize (Hall (trackers (bootstrap frame detections self))
                (Ok (bootstrap frame detections self, []))).
  rewrite Hupd in Hall. apply Hall. apply Forall_nil_2.
Qed.

(** A track that [update] has just returned and that has no previous object
    comes out of [calculate_velocity] without a velocity. *)
Corollary fresh_track_without_previous (self self' : ObjectTracker VT) (frame : Frame)
    (detections : list Detection) (tracked_objects previous_objects : list TrackedObject)
    (obj : TrackedObject) :
  update self frame detections = Ok (self', tracked_objects) ->
  obj ∈ tracked_objects ->
  (forall o, o ∈ previous_objects -> id o <> id obj) ->
  exists obj', obj' ∈ calculate_velocity tracked_objects previous_objects /\
               id obj' = id obj /\ velocity obj' = None.
Proof.
  intros Hupd Hin Habs.
  pose proof (update_fresh _ _ _ _ _ Hupd) as Hfresh.
  rewrite Forall_forall in Hfresh.
  exists obj. split; [|split; [reflexivity | apply Hfresh, Hin]].
  unfold calculate_velocity. apply list_elem_of_fmap. exists obj. split; [|exact Hin].
  rewrite objects_by_id_absent by exact Habs. reflexivity.
Qed.

(** C5. In every state the manager can reach, [update] returns, and for
    every live track (those bootstrapped by this call included) the outcome
    of its backend decides its counter: a success sets it to 0 and keeps the
    track; a failure adds exactly 1, and the track is removed exactly when
    the new value exceeds 30, so a counter that reaches 30 is retained and
    one that reaches 31 is removed. *)
Theorem disappeared_counter (self : ObjectTracker VT) (frame : Frame)
    (detections : list Detection) :
  reachable self ->
  exists self' tracked_objects,
    update self frame detections = Ok (self', tracked_objects) /\
    (trackers self <> [] -> bootstrap frame detections self = self) /\
    forall object_id tracker_info,
      (object_id, tracker_info) ∈ trackers (bootstrap frame detections self) ->
      exists count,
        disappeared (bootstrap frame detections self) !! object_id = Some count /\
        forall success bbox tracker',
          tracker_update (tracker tracker_info) frame = (success, bbox, tracker') ->
          (success = true ->
             object_id ∈ keys (trackers self') /\
             disappeared self' !! object_id = Some 0) /\
          (success = false -> count + 1 <= 30 ->
             object_id ∈ keys (trackers self') /\
             disappeared self' !! object_id = Some (count + 1)) /\
          (success = false -> 30 < count + 1 ->
             (object_id ∉ keys (trackers self')) /\
             disappeared self' !! object_id = None).
Proof.
  intros Hreach. destruct (reachable_wf self Hreach) as [Hwf Hmax].
  destruct (update_spec frame detections self Hwf)
    as (self' & objs & Hupd & Hsh & Hwf' & Hout).
  destruct (bootstrap_wf frame detections self Hwf) as [[Hnd Hdom] Hmaxb].
  exists self', objs. split; [exact Hupd|].
  split; [apply bootstrap_nonempty|].
  intros object_id tracker_info Hin.
  assert (Hk : object_id ∈ keys (trackers (bootstrap frame detections self))).
  { unfold keys. apply list_elem_of_fmap. exists (object_id, tracker_info).
    split; [reflexivity | exact Hin]. }
  destruct (Hdom object_id Hk) as [count Hcount].
  exists count. split; [exact Hcount|].
  intros success bbox tracker' Hbackend.
  specialize (Hout object_id tracker_info count Hin Hcount).
  unfold track_outcome in Hout. rewrite Hbackend, Hmaxb, Hmax in Hout. cbn [fst] in Hout.
  destruct success.
  - destruct Hout as [H1 H2]. repeat split; try discriminate; auto.
  - destruct (decide (30 < count + 1)) as [Hexp | Hkeep]; destruct Hout as [H1 H2];
      repeat split; try discriminate; try lia; auto.
Qed.

(** C4, as the code has it.  While the manager holds at least one live
    track, [update] returns without creating a track: the id counter stays,
    no key is added and the number of live tracks does not increase.  The
    bootstrap is guarded by [if not self.trackers] alone, so it runs again
    whenever the table is empty; [reset] empties the table. *)
Theorem no_growth_while_live (self : ObjectTracker VT) (frame : Frame)
    (detections : list Detection) :
  reachable self -> trackers self <> [] ->
  exists self' tracked_objects,
    update self frame detections = Ok (self', tracked_objects) /\
    next_id self' = next_id self /\
    (length (trackers self') <= length (trackers self))%nat /\
    (forall k, k ∈ keys (trackers self') -> k ∈ keys (trackers self)) /\
    trackers (reset self) = [].
Proof.
  intros Hreach Hlive. destruct (reachable_wf self Hreach) as [Hwf _].
  destruct (update_spec frame detections self Hwf)
    as (self' & objs & Hupd & Hsh & _ & _).
  rewrite (bootstrap_nonempty frame detections self Hlive) in Hsh.
  destruct Hsh as (Hid & _ & Hlen & Hsub & _).
  exists self', objs. repeat split; assumption.
Qed.

End ManagerProperties.

Section ManagerScenario.

Import Tracker.

(** The ball is tracked from the first frame, hidden for 31 frames, so that
    its track expires, and shown again: the manager bootstraps a second time
    and the count goes from 0 to 1. *)
Lemma re_bootstrap_counterexample : ~ never_grows_after_bootstrap scripted_tracker.
Proof.
  intros Hclaim.
  assert (exists self1 objs1 self2 self3 objs3,
             update (VT := scripted_tracker) (init "CSRT") true [ball_detection]
               = Ok (self1, objs1) /\
             trackers self1 <> [] /\
             run (VT := scripted_tracker) self1 (replicate 31 (false, [])) = Ok self2 /\
             update (VT := scripted_tracker) self2 true [ball_detection]
               = Ok (self3, objs3) /\
             length (trackers self2) = 0%nat /\
             length (trackers self3) = 1%nat)
    as (self1 & objs1 & self2 & self3 & objs3 & H1 & Hne & H2 & H3 & L2 & L3).
  { eexists _, _, _, _, _.
    split; [vm_compute; reflexivity|].
    split; [discriminate|].
    split; [vm_compute; reflexivity|].
    split; [vm_compute; reflexivity|].
    split; reflexivity. }
  destruct (Hclaim _ _ _ _ _ _ _ _ _ _ _ H1 Hne H2 H3) as [Hlen _].
  rewrite L2, L3 in Hlen. lia.
Qed.

Lemma after_bootstrap_reachable : reachable after_bootstrap.
Proof.
  eapply (reachable_update (VT := scripted_tracker) (init "CSRT") true [ball_detection]).
  - apply reachable_init.
  - vm_compute. reflexivity.
Qed.

Lemma no_growth_while_live_witness :
  exists self' tracked_objects,
    update (VT := scripted_tracker) after_bootstrap false [ball_detection; ball_detection]
      = Ok (self', tracked_objects) /\
    next_id self' = next_id after_bootstrap /\
    (length (trackers self') <= length (trackers after_bootstrap))%nat /\
    (forall k, k ∈ keys (trackers self') -> k ∈ keys (trackers after_bootstrap)) /\
    trackers (reset after_bootstrap) = [].
Proof.
  apply (no_growth_while_live (VT := scripted_tracker) after_bootstrap false
           [ball_detection; ball_detection]).
  - exact after_bootstrap_reachable.
  - vm_compute. discriminate.
Defined.

Lemma disappeared_counter_witness :
  exists self' tracked_objects,
    update (VT := scripted_tracker) after_bootstrap false [] = Ok (self', tracked_objects) /\
    (trackers after_bootstrap <> [] ->
       bootstrap (VT := scripted_tracker) false [] after_bootstrap = after_bootstrap) /\
    forall object_id tracker_info,
      (object_id, tracker_info)
        ∈ trackers (bootstrap (VT := scripted_tracker) false [] after_bootstrap) ->
      exists count,
        disappeared (bootstrap (VT := scripted_tracker) false [] after_bootstrap) !! object_id
          = Some count /\
        forall success bbox tracker',
          tracker_update (VisualTracker := scripted_tracker) (tracker tracker_info) false
            = (success, bbox, tracker') ->
          (success = true ->
             object_id ∈ keys (trackers self') /\
             disappeared self' !! object_id = Some 0%Z) /\
          (success = false -> (count + 1 <= 30)%Z ->
             object_id ∈ keys (trackers self') /\
             disappeared self' !! object_id = Some (count + 1)%Z) /\
          (success = false -> (30 < count + 1)%Z ->
             (object_id ∉ keys (trackers self')) /\
             disappeared self' !! object_id = None).
Proof.
  apply (disappeared_counter (VT := scripted_tracker) after_bootstrap false []).
  exact after_bootstrap_reachable.
Defined.

End ManagerScenario.

(** * Further properties of the zone grid *)

Section ZoneGridProperties.

Import Zones.

Local Open Scope Q_scope.

(** The loops of [_create_zone_map] use exactly the keys 1..18. *)
Lemma grid_fold_dom {A : Type} (f : Z -> Z -> A) :
  dom (foldl (fun acc r =>
                foldl (fun (acc : gmap Z A * Z) c => (<[acc.2 := f r c]> (acc.1), (acc.2 + 1)%Z))
                      acc (range 6))
             (∅, 1%Z) (range 3)).1
  = list_to_set (range_from 1 19).
Proof. vm_compute. reflexivity. Qed.

Lemma zone_map_outside (zw zh : Q) (z : Z) :
  ~ (1 <= z <= 18)%Z -> _create_zone_map 6 3 zw zh !! z = None.
Proof.
  intros Hz. apply not_elem_of_dom.
  assert (Hd : dom (_create_zone_map 6 3 zw zh) = list_to_set (range_from 1 19))
    by exact (grid_fold_dom (fun r c => (inject_Z c * zw, inject_Z r * zh,
                                         inject_Z (c + 1) * zw, inject_Z (r + 1) * zh))).
  rewrite Hd.
  rewrite elem_of_list_to_set. unfold range_from. simpl.
  rewrite !elem_of_cons, elem_of_nil. lia.
Qed.

Lemma zone_row_col (z : Z) :
  (1 <= z <= 18)%Z ->
  (0 <= (z - 1) / 6 < 3)%Z /\ (0 <= (z - 1) mod 6 < 6)%Z /\
  z = ((z - 1) / 6 * 6 + (z - 1) mod 6 + 1)%Z.
Proof.
  intros Hz.
  pose proof (Z.mod_pos_bound (z - 1) 6 ltac:(lia)).
  pose proof (Z.div_mod (z - 1) 6 ltac:(lia)).
  assert (0 <= (z - 1) / 6)%Z by (apply Z.div_pos; lia).
  assert ((z - 1) / 6 < 3)%Z by (apply Z.div_lt_upper_bound; lia).
  lia.
Qed.

(** X1. Whatever the pitch size, the two zone queries fail with
    [ValueError] exactly on a zone number outside 1..18, and on 1..18 both
    succeed. *)
Theorem zone_queries_defined (W H z : Z) :
  ((1 <= z <= 18)%Z <->
     exists b, get_zone_boundaries (init W H) z = Ok b) /\
  ((1 <= z <= 18)%Z <->
     exists c, zone_to_pixel_center (init W H) z = Ok c) /\
  (~ (1 <= z <= 18)%Z ->
     get_zone_boundaries (init W H) z = Raise ValueError /\
     zone_to_pixel_center (init W H) z = Raise ValueError).
Proof.
  unfold get_zone_boundaries, zone_to_pixel_center, init. simpl zone_map.
  destruct (decide (1 <= z <= 18)%Z) as [Hin | Hout].
  - destruct (zone_row_col z Hin) as (Hr & Hc & Ez).
    pose proof (zone_map_lookup (inject_Z W / inject_Z 6) (inject_Z H / inject_Z 3)
                  _ _ Hr Hc) as Hl.
    rewrite <- Ez in Hl. unfold Bounds in *. rewrite !Hl.
    repeat split; intros; try (eexists; reflexivity); try contradiction; lia.
  - unfold Bounds in *. rewrite !zone_map_outside by exact Hout.
    repeat split; intros; try tauto;
      match goal with H : exists _, _ |- _ => destruct H as [? H]; discriminate H end.
Qed.

Lemma bounds_of_zone (W H z : Z) :
  (1 <= z <= 18)%Z ->
  get_zone_boundaries (init W H) z =
  Ok (inject_Z ((z - 1) mod 6) * (inject_Z W / inject_Z 6),
      inject_Z ((z - 1) / 6) * (inject_Z H / inject_Z 3),
      inject_Z ((z - 1) mod 6 + 1) * (inject_Z W / inject_Z 6),
      inject_Z ((z - 1) / 6 + 1) * (inject_Z H / inject_Z 3)).
Proof.
  intros Hz. destruct (zone_row_col z Hz) as (Hr & Hc & Ez).
  unfold get_zone_boundaries, init. simpl zone_map.
  pose proof (zone_map_lookup (inject_Z W / inject_Z 6) (inject_Z H / inject_Z 3)
                _ _ Hr Hc) as Hl.
  rewrite <- Ez in Hl. unfold Bounds in *. rewrite Hl. reflexivity.
Qed.

Lemma bounds_outside (W H z : Z) :
  ~ (1 <= z <= 18)%Z -> get_zone_boundaries (init W H) z = Raise ValueError.
Proof.
  intros Hz. unfold get_zone_boundaries, init. simpl zone_map.
  unfold Bounds in *. rewrite zone_map_outside by exact Hz. reflexivity.
Qed.

Lemma zone_height_pos (H : Z) : (0 < H)%Z -> 0 < inject_Z H / inject_Z 3.
Proof.
  intros HH. apply Qlt_shift_div_l; [reflexivity|].
  rewrite Qmult_0_l. change 0 with (inject_Z 0). rewrite <- Zlt_Qlt. exact HH.
Qed.

(** A band of the grid: cell [c] of [n + 1] cells of size [size]. *)
Lemma band_geometry (size : Q) (c n : Z) :
  0 < size -> (0 <= c <= n)%Z ->
  0 <= inject_Z c * size /\
  inject_Z c * size < inject_Z (c + 1) * size /\
  inject_Z (c + 1) * size <= inject_Z (n + 1) * size /\
  inject_Z (c + 1) * size - inject_Z c * size == size.
Proof.
  intros Hs Hc. split; [|split; [|split]].
  - apply Qmult_le_0_compat; [|apply Qlt_le_weak, Hs].
    change 0 with (inject_Z 0). rewrite <- Zle_Qle. lia.
  - apply Qmult_lt_compat_r; [exact Hs|]. rewrite <- Zlt_Qlt. lia.
  - apply Qmult_le_compat_r; [|apply Qlt_le_weak, Hs]. rewrite <- Zle_Qle. lia.
  - rewrite inject_Z_plus. change (inject_Z 1) with 1. ring.
Qed.

(** On a pitch whose width is a multiple of 6 and whose height is a
    multiple of 3, the zone sizes are integers. *)
Lemma integer_zone_size (W n : Z) :
  (0 < n)%Z -> (n | W)%Z -> inject_Z W / inject_Z n == inject_Z (W / n).
Proof.
  intros Hn [a ->]. rewrite Z.div_mul by lia. rewrite inject_Z_mult. field.
  intros E. unfold Qeq in E. simpl in E. lia.
Qed.

Lemma floordiv_comp (a b b' : Q) : b == b' -> floordiv a b = floordiv a b'.
Proof.
  intros E. unfold floordiv.
  assert (Qeq_bool b 0 = Qeq_bool b' 0) as ->.
  { destruct (Qeq_bool b' 0) eqn:E'.
    - apply Qeq_bool_iff. apply Qeq_bool_iff in E'. rewrite E. exact E'.
    - destruct (Qeq_bool b 0) eqn:E''; [|reflexivity].
      apply Qeq_bool_iff in E''. rewrite E in E''. apply Qeq_bool_iff in E''. congruence. }
  assert (Qfloor (a / b) = Qfloor (a / b')) as -> by (apply Qfloor_comp; rewrite E; reflexivity).
  reflexivity.
Qed.

(** A multiple of an integer zone size, up to the size of the pitch, is a
    double: the product that [_create_zone_map] computes is exact. *)
Lemma zone_edge_exact (W n c : Z) :
  (0 < W < 2 ^ 53)%Z -> (0 < n)%Z -> (n | W)%Z -> (0 <= c <= n)%Z ->
  fl (inject_Z c * fl (inject_Z W / inject_Z n)) == inject_Z c * (inject_Z W / inject_Z n).
Proof.
  intros HW Hn Hdiv Hc. change (2 ^ 53)%Z with 9007199254740992%Z in HW.
  rewrite (integer_zone_size W n Hn Hdiv).
  destruct Hdiv as [a ->]. rewrite Z.div_mul by lia.
  assert (Ha : (0 < a)%Z) by nia.
  rewrite (fl_Z a) by (change (2 ^ 53)%Z with 9007199254740992%Z; nia).
  rewrite <- inject_Z_mult.
  apply fl_Z. change (2 ^ 53)%Z with 9007199254740992%Z. nia.
Qed.

(** X2. On a pitch whose width is a positive multiple of 6 and whose
    height is a positive multiple of 3, both below [2^53], the zone sizes are
    integers and no operation of [__init__] and [_create_zone_map] rounds:
    the stored sizes and edges are the doubles of the quotients and of the
    products.  Every zone is then a rectangle inside the pitch, of positive
    area, and all zones have the same size: a sixth of the width by a third
    of the height. *)
Theorem zone_rectangle (W H z : Z) :
  (0 < W < 2 ^ 53)%Z -> (0 < H < 2 ^ 53)%Z -> (6 | W)%Z -> (3 | H)%Z ->
  (1 <= z <= 18)%Z ->
  let self := init W H in
  let col := ((z - 1) mod 6)%Z in
  let row := ((z - 1) / 6)%Z in
  zone_width self == fl (inject_Z W / 6) /\
  zone_height self == fl (inject_Z H / 3) /\
  exists x1 y1 x2 y2,
    get_zone_boundaries self z = Ok (x1, y1, x2, y2) /\
    x1 == fl (inject_Z col * fl (inject_Z W / 6)) /\
    x2 == fl (inject_Z (col + 1) * fl (inject_Z W / 6)) /\
    y1 == fl (inject_Z row * fl (inject_Z H / 3)) /\
    y2 == fl (inject_Z (row + 1) * fl (inject_Z H / 3)) /\
    0 <= x1 /\ x1 < x2 /\ x2 <= inject_Z W /\
    0 <= y1 /\ y1 < y2 /\ y2 <= inject_Z H /\
    x2 - x1 == inject_Z W / 6 /\ y2 - y1 == inject_Z H / 3.
Proof.
  intros HW HH HW6 HH3 Hz self col row.
  destruct (zone_row_col z Hz) as (Hr & Hc & _). fold col in Hc. fold row in Hr.
  assert (HW0 : (0 < W)%Z) by lia. assert (HH0 : (0 < H)%Z) by lia.
  pose proof (zone_edge_exact W 6 1 HW ltac:(lia) HW6 ltac:(lia)) as Ezw.
  pose proof (zone_edge_exact H 3 1 HH ltac:(lia) HH3 ltac:(lia)) as Ezh.
  change (inject_Z 1) with 1 in Ezw, Ezh. rewrite !Qmult_1_l in Ezw, Ezh.
  assert (Ew : fl (inject_Z W / 6) == inject_Z W / 6).
  { change 6 with (inject_Z 6). rewrite (integer_zone_size W 6 ltac:(lia) HW6).
    apply fl_Z. destruct HW6 as [a ->]. rewrite Z.div_mul by lia.
    change (2 ^ 53)%Z with 9007199254740992%Z in *. lia. }
  assert (Eh : fl (inject_Z H / 3) == inject_Z H / 3).
  { change 3 with (inject_Z 3). rewrite (integer_zone_size H 3 ltac:(lia) HH3).
    apply fl_Z. destruct HH3 as [a ->]. rewrite Z.div_mul by lia.
    change (2 ^ 53)%Z with 9007199254740992%Z in *. lia. }
  split; [symmetry; exact Ew|]. split; [symmetry; exact Eh|].
  eexists _, _, _, _. split; [apply bounds_of_zone, Hz|].
  fold col row.
  destruct (band_geometry _ col 5 (zone_width_pos W HW0) ltac:(lia))
    as (A1 & A2 & A3 & A4).
  destruct (band_geometry _ row 2 (zone_height_pos H HH0) ltac:(lia))
    as (B1 & B2 & B3 & B4).
  assert (inject_Z (5 + 1) * (inject_Z W / inject_Z 6) == inject_Z W) as EW
      by (change (inject_Z (5 + 1)) with 6; change (inject_Z 6) with 6; field).
  assert (inject_Z (2 + 1) * (inject_Z H / inject_Z 3) == inject_Z H) as EH
      by (change (inject_Z (2 + 1)) with 3; change (inject_Z 3) with 3; field).
  rewrite EW in A3. rewrite EH in B3.
  split; [symmetry; exact (zone_edge_exact W 6 col HW ltac:(lia) HW6 ltac:(lia))|].
  split; [symmetry; exact (zone_edge_exact W 6 (col + 1) HW ltac:(lia) HW6 ltac:(lia))|].
  split; [symmetry; exact (zone_edge_exact H 3 row HH ltac:(lia) HH3 ltac:(lia))|].
  split; [symmetry; exact (zone_edge_exact H 3 (row + 1) HH ltac:(lia) HH3 ltac:(lia))|].
  repeat split; assumption.
Qed.

Lemma zone_rectangle_witness :
  zone_width default_mapper == fl (inject_Z 1920 / 6) /\
  zone_height default_mapper == fl (inject_Z 1080 / 3) /\
  exists x1 y1 x2 y2,
    get_zone_boundaries default_mapper 11 = Ok (x1, y1, x2, y2) /\
    x1 == fl (inject_Z ((11 - 1) mod 6) * fl (inject_Z 1920 / 6)) /\
    x2 == fl (inject_Z ((11 - 1) mod 6 + 1) * fl (inject_Z 1920 / 6)) /\
    y1 == fl (inject_Z ((11 - 1) / 6) * fl (inject_Z 1080 / 3)) /\
    y2 == fl (inject_Z ((11 - 1) / 6 + 1) * fl (inject_Z 1080 / 3)) /\
    0 <= x1 /\ x1 < x2 /\ x2 <= inject_Z 1920 /\
    0 <= y1 /\ y1 < y2 /\ y2 <= inject_Z 1080 /\
    x2 - x1 == inject_Z 1920 / 6 /\ y2 - y1 == inject_Z 1080 / 3.
Proof.
  apply (zone_rectangle 1920 1080 11).
  - split; reflexivity.
  - split; reflexivity.
  - exists 320%Z. reflexivity.
  - exists 360%Z. reflexivity.
  - lia.
Defined.

(** X3. Neighbouring zones share their edge: the zone to the right of [z]
    (in the same row) starts at the x where [z] ends and spans the same y
    range, and the zone below [z] starts at the y where [z] ends and spans
    the same x range. *)
Theorem zone_neighbours (W H z : Z) (x1 y1 x2 y2 : Q) :
  get_zone_boundaries (init W H) z = Ok (x1, y1, x2, y2) ->
  ((z mod 6)%Z <> 0%Z ->
     exists x3, get_zone_boundaries (init W H) (z + 1) = Ok (x2, y1, x3, y2)) /\
  ((z <= 12)%Z ->
     exists y3, get_zone_boundaries (init W H) (z + 6) = Ok (x1, y2, x2, y3)).
Proof.
  intros Hb.
  assert (Hz : (1 <= z <= 18)%Z).
  { destruct (decide (1 <= z <= 18)%Z) as [Hz | Hz]; [exact Hz|].
    rewrite bounds_outside in Hb by exact Hz. discriminate Hb. }
  rewrite bounds_of_zone in Hb by exact Hz. injection Hb as <- <- <- <-.
  destruct (zone_row_col z Hz) as (Hr & Hc & Ez).
  split.
  - intros Hlast.
    assert (Hc' : ((z - 1) mod 6 <> 5)%Z).
    { intros E. apply Hlast. rewrite Ez, E.
      replace ((z - 1) / 6 * 6 + 5 + 1)%Z with (0 + ((z - 1) / 6 + 1) * 6)%Z by lia.
      rewrite Z.mod_add by lia. reflexivity. }
    assert (Hz1 : (1 <= z + 1 <= 18)%Z) by lia.
    eexists. rewrite bounds_of_zone by exact Hz1.
    replace (z + 1 - 1)%Z with (z - 1 + 1)%Z by lia.
    assert (((z - 1 + 1) mod 6 = (z - 1) mod 6 + 1)%Z /\
            ((z - 1 + 1) / 6 = (z - 1) / 6)%Z) as [-> ->]; [|reflexivity].
    pose proof (Z.div_mod (z - 1) 6 ltac:(lia)).
    pose proof (Z.div_mod (z - 1 + 1) 6 ltac:(lia)).
    pose proof (Z.mod_pos_bound (z - 1 + 1) 6 ltac:(lia)).
    assert ((z - 1 + 1) / 6 = (z - 1) / 6)%Z; [|lia].
    symmetry. apply (Z.div_unique _ _ _ ((z - 1) mod 6 + 1)); lia.
  - intros Hrow.
    assert (Hz6 : (1 <= z + 6 <= 18)%Z) by lia.
    eexists. rewrite bounds_of_zone by exact Hz6.
    replace (z + 6 - 1)%Z with (z - 1 + 1 * 6)%Z by lia.
    rewrite Z.mod_add, Z.div_add by lia. reflexivity.
Qed.

Lemma zone_neighbours_witness :
  exists x1 y1 x2 y2,
    get_zone_boundaries default_mapper 8 = Ok (x1, y1, x2, y2) /\
    (exists x3, get_zone_boundaries default_mapper 9 = Ok (x2, y1, x3, y2)) /\
    (exists y3, get_zone_boundaries default_mapper 14 = Ok (x1, y2, x2, y3)).
Proof.
  eexists _, _, _, _.
  assert (Hb : get_zone_boundaries default_mapper 8 = Ok (_, _, _, _))
    by exact (bounds_of_zone 1920 1080 8 ltac:(lia)).
  split; [exact Hb|].
  destruct (zone_neighbours 1920 1080 8 _ _ _ _ Hb) as [Hright Hbelow].
  split; [apply Hright; discriminate | apply Hbelow; lia].
Defined.

(** The column (or row) of a coordinate that lies in the half-open band
    [c]. *)
Lemma floor_in_band (x size : Q) (c : Z) :
  0 < size -> inject_Z c * size <= x -> x < inject_Z (c + 1) * size ->
  Qfloor (x / size) = c.
Proof.
  intros Hs Hl Hu. apply Qfloor_unique.
  - apply Qle_shift_div_l; assumption.
  - apply Qlt_shift_div_r; assumption.
Qed.

Lemma pixel_to_zone_inside (W H : Z) (x y : Q) :
  (0 < W)%Z -> (0 < H)%Z -> 0 <= x <= inject_Z W -> 0 <= y <= inject_Z H ->
  pixel_to_zone (init W H) x y =
  Ok (Z.min (Qfloor (y / (inject_Z H / inject_Z 3))) 2 * 6
      + Z.min (Qfloor (x / (inject_Z W / inject_Z 6))) 5 + 1)%Z.
Proof.
  intros HW HH Hx Hy. unfold pixel_to_zone. simpl pitch_width. simpl pitch_height.
  rewrite (proj2 (inside_check W H x y) (conj Hx Hy)). simpl negb. cbv iota.
  unfold init; simpl zone_width; simpl zone_height;
    simpl zones_per_row; simpl zones_per_col.
  rewrite (floordiv_ok x _ (zone_width_pos W HW)).
  rewrite (floordiv_ok y _ (zone_height_pos H HH)). reflexivity.
Qed.

(** X4. On a pitch whose width is a positive multiple of 6 and whose
    height is a positive multiple of 3, both below [2^53], where the zone
    sizes are integers and the edges are computed without rounding, the zone
    rectangles, taken without their right and bottom edges, decide the zone:
    a point in the half-open rectangle of zone [z] is mapped to [z] and to no
    other zone, and the floor divisions by the doubles of the zone sizes give
    its column and its row. *)
Theorem pixel_in_zone_rectangle (W H z : Z) (x y x1 y1 x2 y2 : Q) :
  (0 < W < 2 ^ 53)%Z -> (0 < H < 2 ^ 53)%Z -> (6 | W)%Z -> (3 | H)%Z ->
  get_zone_boundaries (init W H) z = Ok (x1, y1, x2, y2) ->
  x1 <= x -> x < x2 -> y1 <= y -> y < y2 ->
  pixel_to_zone (init W H) x y = Ok z /\
  floordiv x (fl (inject_Z W / 6)) = Ok ((z - 1) mod 6)%Z /\
  floordiv y (fl (inject_Z H / 3)) = Ok ((z - 1) / 6)%Z.
Proof.
  intros HW' HH' HW6 HH3 Hb Hx1 Hx2 Hy1 Hy2.
  assert (HW : (0 < W)%Z) by lia. assert (HH : (0 < H)%Z) by lia.
  assert (Hz : (1 <= z <= 18)%Z).
  { destruct (decide (1 <= z <= 18)%Z) as [Hz | Hz]; [exact Hz|].
    rewrite bounds_outside in Hb by exact Hz. discriminate Hb. }
  rewrite bounds_of_zone in Hb by exact Hz. injection Hb as <- <- <- <-.
  destruct (zone_row_col z Hz) as (Hr & Hc & Ez).
  pose proof (zone_width_pos W HW) as Hzw. pose proof (zone_height_pos H HH) as Hzh.
  destruct (band_geometry _ ((z - 1) mod 6) 5 Hzw ltac:(lia)) as (A1 & _ & A3 & _).
  destruct (band_geometry _ ((z - 1) / 6) 2 Hzh ltac:(lia)) as (B1 & _ & B3 & _).
  assert (inject_Z (5 + 1) * (inject_Z W / inject_Z 6) == inject_Z W) as EW
      by (change (inject_Z (5 + 1)) with 6; change (inject_Z 6) with 6; field).
  assert (inject_Z (2 + 1) * (inject_Z H / inject_Z 3) == inject_Z H) as EH
      by (change (inject_Z (2 + 1)) with 3; change (inject_Z 3) with 3; field).
  rewrite EW in A3. rewrite EH in B3.
  pose proof (zone_edge_exact W 6 1 HW' ltac:(lia) HW6 ltac:(lia)) as Ezw.
  pose proof (zone_edge_exact H 3 1 HH' ltac:(lia) HH3 ltac:(lia)) as Ezh.
  change (inject_Z 1) with 1 in Ezw, Ezh. rewrite !Qmult_1_l in Ezw, Ezh.
  assert (Ew : fl (inject_Z W / 6) == inject_Z W / inject_Z 6).
  { change 6 with (inject_Z 6). rewrite (integer_zone_size W 6 ltac:(lia) HW6).
    apply fl_Z. destruct HW6 as [a ->]. rewrite Z.div_mul by lia.
    change (2 ^ 53)%Z with 9007199254740992%Z in *. lia. }
  assert (Eh : fl (inject_Z H / 3) == inject_Z H / inject_Z 3).
  { change 3 with (inject_Z 3). rewrite (integer_zone_size H 3 ltac:(lia) HH3).
    apply fl_Z. destruct HH3 as [a ->]. rewrite Z.div_mul by lia.
    change (2 ^ 53)%Z with 9007199254740992%Z in *. lia. }
  split; [|split].
  - rewrite pixel_to_zone_inside; try assumption.
    + rewrite (floor_in_band x _ _ Hzw Hx1 Hx2), (floor_in_band y _ _ Hzh Hy1 Hy2).
      f_equal. lia.
    + split; [exact (Qle_trans _ _ _ A1 Hx1)|].
      apply Qlt_le_weak. exact (Qlt_le_trans _ _ _ Hx2 A3).
    + split; [exact (Qle_trans _ _ _ B1 Hy1)|].
      apply Qlt_le_weak. exact (Qlt_le_trans _ _ _ Hy2 B3).
  - rewrite (floordiv_comp x _ _ Ew), (floordiv_ok x _ Hzw).
    rewrite (floor_in_band x _ _ Hzw Hx1 Hx2). reflexivity.
  - rewrite (floordiv_comp y _ _ Eh), (floordiv_ok y _ Hzh).
    rewrite (floor_in_band y _ _ Hzh Hy1 Hy2). reflexivity.
Qed.

Lemma pixel_in_zone_rectangle_witness :
  pixel_to_zone default_mapper 700 400 = Ok 9%Z /\
  floordiv 700 (fl (inject_Z 1920 / 6)) = Ok ((9 - 1) mod 6)%Z /\
  floordiv 400 (fl (inject_Z 1080 / 3)) = Ok ((9 - 1) / 6)%Z.
Proof.
  apply (pixel_in_zone_rectangle 1920 1080 9 700 400 _ _ _ _
           ltac:(split; reflexivity) ltac:(split; reflexivity)
           ltac:(exists 320%Z; reflexivity) ltac:(exists 360%Z; reflexivity)
           (bounds_of_zone 1920 1080 9 ltac:(lia)));
    vm_compute; congruence.
Defined.

(** X5. A pitch of width or height 0 has zones of size 0: for every point
    that passes the bounds test, [pixel_to_zone] fails with
    [ZeroDivisionError] instead of returning a zone. *)
Theorem pixel_to_zone_degenerate_pitch (W H : Z) (x y : Q) :
  W = 0%Z \/ H = 0%Z ->
  0 <= x <= inject_Z W -> 0 <= y <= inject_Z H ->
  pixel_to_zone (init W H) x y = Raise ZeroDivisionError.
Proof.
  intros Hdeg Hx Hy. unfold pixel_to_zone. simpl pitch_width. simpl pitch_height.
  rewrite (proj2 (inside_check W H x y) (conj Hx Hy)). simpl negb. cbv iota.
  unfold init; simpl zone_width; simpl zone_height.
  assert (HW : (0 <= W)%Z).
  { rewrite Zle_Qle. eapply Qle_trans; [apply Hx | apply Hx]. }
  destruct (decide (W = 0%Z)) as [-> | HW0].
  - reflexivity.
  - destruct Hdeg as [-> | ->]; [contradiction|].
    rewrite (floordiv_ok x _ (zone_width_pos W ltac:(lia))). reflexivity.
Qed.

Lemma pixel_to_zone_degenerate_pitch_witness :
  pixel_to_zone (init 1920 0) 100 0 = Raise ZeroDivisionError.
Proof.
  apply (pixel_to_zone_degenerate_pitch 1920 0 100 0);
    [right; reflexivity | split; discriminate | split; discriminate].
Defined.

(** *** Forward passes *)

Lemma Ok_inj {A : Type} (a b : A) : Ok a = Ok b -> a = b.
Proof. intros E. injection E as E. exact E. Qed.

Lemma is_forward_pass_iff (self : PitchZoneMapper) (zone1 zone2 : Z) :
  is_forward_pass self zone1 zone2 = true <->
  (1 <= zone1 <= 18)%Z /\ (1 <= zone2 <= 18)%Z /\
  ((zone2 - 1) / zones_per_row self < (zone1 - 1) / zones_per_row self)%Z.
Proof.
  unfold is_forward_pass.
  destruct (Z.leb_spec 1 zone1), (Z.leb_spec zone1 18), (Z.leb_spec 1 zone2),
    (Z.leb_spec zone2 18); simpl; rewrite ?Z.ltb_lt; split; intros; try discriminate; lia.
Qed.

(** X6. [is_forward_pass] is a strict order on zones: no zone is forward of
    itself, a pass and its reverse are never both forward, and forward passes
    chain.  It is false for two zones of the same row, and false as soon as
    one zone number is outside 1..18. *)
Theorem is_forward_pass_strict_order (self : PitchZoneMapper) (a b c : Z) :
  is_forward_pass self a a = false /\
  (is_forward_pass self a b = true -> is_forward_pass self b a = false) /\
  (is_forward_pass self a b = true -> is_forward_pass self b c = true ->
     is_forward_pass self a c = true) /\
  (((a - 1) / zones_per_row self = (b - 1) / zones_per_row self)%Z ->
     is_forward_pass self a b = false) /\
  (~ (1 <= a <= 18)%Z \/ ~ (1 <= b <= 18)%Z -> is_forward_pass self a b = false).
Proof.
  repeat split.
  - apply not_true_is_false. rewrite is_forward_pass_iff. lia.
  - intros Hab. apply not_true_is_false. rewrite is_forward_pass_iff in *. lia.
  - rewrite !is_forward_pass_iff. lia.
  - intros Hrow. apply not_true_is_false. rewrite is_forward_pass_iff. lia.
  - intros Hout. apply not_true_is_false. rewrite is_forward_pass_iff. lia.
Qed.

Lemma is_forward_pass_strict_order_witness :
  is_forward_pass default_mapper 14 3 = true /\
  is_forward_pass default_mapper 3 14 = false /\
  is_forward_pass default_mapper 14 15 = false /\
  is_forward_pass default_mapper 14 19 = false.
Proof.
  assert (H1 : is_forward_pass default_mapper 14 9 = true) by reflexivity.
  assert (H2 : is_forward_pass default_mapper 9 3 = true) by reflexivity.
  pose proof (is_forward_pass_strict_order default_mapper 14 9 3) as (_ & _ & Htrans & _).
  pose proof (is_forward_pass_strict_order default_mapper 14 3 0) as (_ & Hanti & _).
  pose proof (is_forward_pass_strict_order default_mapper 14 15 0) as (_ & _ & _ & Hrow & _).
  pose proof (is_forward_pass_strict_order default_mapper 14 19 0) as (_ & _ & _ & _ & Hout).
  split; [exact (Htrans H1 H2)|].
  split; [exact (Hanti (Htrans H1 H2))|].
  split; [apply Hrow; reflexivity | apply Hout; right; lia].
Defined.

(** A row below the last one is not clamped, so its coordinate lies strictly
    above the lower edge of the row. *)
Lemma unclamped_row (y size : Q) (n r : Z) :
  0 < size -> Z.min (Qfloor (y / size)) n = r -> (r < n)%Z ->
  y < inject_Z (r + 1) * size.
Proof.
  intros Hs Hmin Hr.
  assert (Hf : Qfloor (y / size) = r) by lia.
  assert (Hne : ~ size == 0) by (intros E; rewrite E in Hs; discriminate Hs).
  assert (Hq : y == (y / size) * size) by (field; exact Hne).
  rewrite Hq, <- Hf. apply Qmult_lt_compat_r; [exact Hs | apply Qlt_floor].
Qed.

Lemma clamped_row_below (y size : Q) (n : Z) :
  0 < size -> 0 <= y -> inject_Z (Z.min (Qfloor (y / size)) n) * size <= y.
Proof.
  intros Hs Hy.
  assert (Hne : ~ size == 0) by (intros E; rewrite E in Hs; discriminate Hs).
  assert (Hq : y == (y / size) * size) by (field; exact Hne).
  rewrite Hq at 2. apply Qmult_le_compat_r; [|apply Qlt_le_weak, Hs].
  eapply Qle_trans; [|apply Qfloor_le]. rewrite <- Zle_Qle. lia.
Qed.

(** X7. Zones and pixels agree on what forward means: when the zones of two
    points of the pitch make a forward pass, the second point has the
    strictly smaller y (it is nearer to the top edge of the image). *)
Theorem forward_pass_decreases_y (W H : Z) (px py qx qy : Q) (zone1 zone2 : Z) :
  (0 < W)%Z -> (0 < H)%Z ->
  pixel_to_zone (init W H) px py = Ok zone1 ->
  pixel_to_zone (init W H) qx qy = Ok zone2 ->
  is_forward_pass (init W H) zone1 zone2 = true ->
  qy < py.
Proof.
  intros HW HH Hp Hq Hfwd.
  apply is_forward_pass_iff in Hfwd. simpl zones_per_row in Hfwd.
  destruct Hfwd as (Hz1 & Hz2 & Hrows).
  assert (Hin : forall x y z, pixel_to_zone (init W H) x y = Ok z -> (1 <= z)%Z ->
                  0 <= x <= inject_Z W /\ 0 <= y <= inject_Z H).
  { intros x y z Hpz Hz. unfold pixel_to_zone in Hpz.
    simpl pitch_width in Hpz. simpl pitch_height in Hpz.
    destruct (Qle_bool 0 x && Qle_bool x (inject_Z W) && Qle_bool 0 y
              && Qle_bool y (inject_Z H)) eqn:E.
    - apply inside_check in E. exact E.
    - simpl in Hpz. injection Hpz as <-. lia. }
  destruct (Hin _ _ _ Hp ltac:(lia)) as [Hpx Hpy].
  destruct (Hin _ _ _ Hq ltac:(lia)) as [Hqx Hqy].
  rewrite pixel_to_zone_inside in Hp, Hq by assumption.
  apply Ok_inj in Hp. apply Ok_inj in Hq. symmetry in Hp. symmetry in Hq.
  pose proof (zone_width_pos W HW) as Hzw. pose proof (zone_height_pos H HH) as Hzh.
  destruct (floor_cell px _ 5 Hzw (proj1 Hpx)) as (Hc1 & _); [|lia|].
  { assert (inject_Z (5 + 1) * (inject_Z W / inject_Z 6) == inject_Z W) as ->
      by (change (inject_Z (5 + 1)) with 6; change (inject_Z 6) with 6; field).
    apply Hpx. }
  destruct (floor_cell qx _ 5 Hzw (proj1 Hqx)) as (Hc2 & _); [|lia|].
  { assert (inject_Z (5 + 1) * (inject_Z W / inject_Z 6) == inject_Z W) as ->
      by (change (inject_Z (5 + 1)) with 6; change (inject_Z 6) with 6; field).
    apply Hqx. }
  set (r1 := Z.min (Qfloor (py / (inject_Z H / inject_Z 3))) 2) in *.
  set (r2 := Z.min (Qfloor (qy / (inject_Z H / inject_Z 3))) 2) in *.
  set (c1 := Z.min (Qfloor (px / (inject_Z W / inject_Z 6))) 5) in *.
  set (c2 := Z.min (Qfloor (qx / (inject_Z W / inject_Z 6))) 5) in *.
  assert (Hr1 : ((zone1 - 1) / 6 = r1)%Z).
  { rewrite Hp. replace (r1 * 6 + c1 + 1 - 1)%Z with (c1 + r1 * 6)%Z by lia.
    rewrite Z.div_add, Z.div_small by lia. reflexivity. }
  assert (Hr2 : ((zone2 - 1) / 6 = r2)%Z).
  { rewrite Hq. replace (r2 * 6 + c2 + 1 - 1)%Z with (c2 + r2 * 6)%Z by lia.
    rewrite Z.div_add, Z.div_small by lia. reflexivity. }
  rewrite Hr1, Hr2 in Hrows.
  assert (Hr1le : (r1 <= 2)%Z) by (subst r1; lia).
  pose proof (unclamped_row qy _ 2 r2 Hzh eq_refl ltac:(lia)) as Hupper.
  pose proof (clamped_row_below py _ 2 Hzh (proj1 Hpy)) as Hlower. fold r1 in Hlower.
  eapply Qlt_le_trans; [exact Hupper|].
  eapply Qle_trans; [|exact Hlower].
  apply Qmult_le_compat_r; [|apply Qlt_le_weak, Hzh]. rewrite <- Zle_Qle. lia.
Qed.

Lemma forward_pass_decreases_y_witness : (300 : Q) < 900.
Proof.
  apply (forward_pass_decreases_y 1920 1080 100 900 1500 300 13 5);
    [lia | lia | vm_compute; reflexivity | vm_compute; reflexivity | reflexivity].
Defined.

End ZoneGridProperties.

(** * Further properties of the fast-break classifier and the zone views *)

Section ClassifierProperties.

Import Zones.

Local Open Scope Z_scope.

Lemma default_thresholds_rule_1 (zone_sequence : list Z) :
  detect_fast_break zone_sequence 3 9 5 12 =
  (3 <=? len zone_sequence) && (9 <? calculate_zone_sum zone_sequence).
Proof.
  unfold detect_fast_break.
  destruct (Z.ltb_spec (len zone_sequence) 3), (Z.leb_spec 3 (len zone_sequence)),
    (Z.ltb_spec 9 (calculate_zone_sum zone_sequence)),
    (Z.ltb_spec 3 (len zone_sequence)), (Z.leb_spec (len zone_sequence) 5),
    (Z.ltb_spec 12 (calculate_zone_sum zone_sequence));
    simpl; try reflexivity; lia.
Qed.

(** X8. Rule 2 never decides: as long as [max_zone_sum] is not below
    [min_zone_sum] (the defaults are 12 and 9), the result is that of rule 1
    alone, at least [min_passes] zones with a sum above [min_zone_sum], and
    [max_passes] and [max_zone_sum] have no effect. *)
Theorem detect_fast_break_rule_1_only (zone_sequence : list Z)
    (min_passes min_zone_sum max_passes max_zone_sum : Z) :
  min_zone_sum <= max_zone_sum ->
  detect_fast_break zone_sequence min_passes min_zone_sum max_passes max_zone_sum =
  (min_passes <=? len zone_sequence) && (min_zone_sum <? calculate_zone_sum zone_sequence).
Proof.
  intros Hsum. unfold detect_fast_break.
  destruct (Z.ltb_spec (len zone_sequence) min_passes),
    (Z.leb_spec min_passes (len zone_sequence)),
    (Z.ltb_spec min_zone_sum (calculate_zone_sum zone_sequence)),
    (Z.ltb_spec min_passes (len zone_sequence)),
    (Z.leb_spec (len zone_sequence) max_passes),
    (Z.ltb_spec max_zone_sum (calculate_zone_sum zone_sequence));
    simpl; try reflexivity; lia.
Qed.

Lemma detect_fast_break_rule_1_only_witness :
  detect_fast_break [1; 2; 3; 6] 3 9 5 12 =
  (3 <=? len [1; 2; 3; 6]) && (9 <? calculate_zone_sum [1; 2; 3; 6]).
Proof. apply (detect_fast_break_rule_1_only [1; 2; 3; 6] 3 9 5 12). lia. Defined.

Lemma calculate_zone_sum_app (l1 l2 : list Z) :
  calculate_zone_sum (l1 ++ l2) = calculate_zone_sum l1 + calculate_zone_sum l2.
Proof.
  unfold calculate_zone_sum. rewrite foldl_app.
  rewrite (foldl_add_shift l2 (foldl Z.add 0 l1)). reflexivity.
Qed.

Lemma calculate_zone_sum_perm (l1 l2 : list Z) :
  l1 ≡ₚ l2 -> calculate_zone_sum l1 = calculate_zone_sum l2.
Proof.
  induction 1 as [|x l l' _ IH|x y l|l l' l'' _ IH1 _ IH2].
  - reflexivity.
  - rewrite !calculate_zone_sum_cons, IH. reflexivity.
  - rewrite !calculate_zone_sum_cons. lia.
  - congruence.
Qed.

(** X9. The classifier looks only at how many zones were visited and at
    their sum: reordering the sequence never changes the verdict, whatever
    the thresholds. *)
Theorem detect_fast_break_order_blind (l1 l2 : list Z)
    (min_passes min_zone_sum max_passes max_zone_sum : Z) :
  l1 ≡ₚ l2 ->
  detect_fast_break l1 min_passes min_zone_sum max_passes max_zone_sum =
  detect_fast_break l2 min_passes min_zone_sum max_passes max_zone_sum.
Proof.
  intros Hperm. unfold detect_fast_break, len.
  rewrite (Permutation_length Hperm), (calculate_zone_sum_perm _ _ Hperm). reflexivity.
Qed.

Lemma detect_fast_break_order_blind_witness :
  detect_fast_break [7; 1; 2; 3] 3 9 5 12 = detect_fast_break [1; 2; 3; 7] 3 9 5 12.
Proof.
  apply (detect_fast_break_order_blind [7; 1; 2; 3] [1; 2; 3; 7] 3 9 5 12).
  change [7; 1; 2; 3] with ([7] ++ [1; 2; 3]).
  change [1; 2; 3; 7] with ([1; 2; 3] ++ [7]).
  apply Permutation_app_comm.
Defined.

(** X10. For a sequence of real zones (each in 1..18) the zone sum lies
    between the number of passes and 18 times that number.  So, with the
    default thresholds, every sequence of at least ten zones is a fast-break,
    and no sequence of three zones all in the top-left corner (zones 1 to 3)
    is one. *)
Theorem zone_sum_bounds (zone_sequence : list Z) :
  Forall (fun z => 1 <= z <= 18) zone_sequence ->
  len zone_sequence <= calculate_zone_sum zone_sequence <= 18 * len zone_sequence /\
  (10 <= len zone_sequence -> detect_fast_break_default zone_sequence = true) /\
  (len zone_sequence = 3 -> Forall (fun z => z <= 3) zone_sequence ->
     detect_fast_break_default zone_sequence = false).
Proof.
  intros Hvalid.
  assert (Hb : len zone_sequence <= calculate_zone_sum zone_sequence
               <= 18 * len zone_sequence).
  { induction Hvalid as [|z l Hz _ IH]; [unfold len, calculate_zone_sum; simpl; lia|].
    rewrite calculate_zone_sum_cons. unfold len in *. simpl length. lia. }
  split; [exact Hb|]. split.
  - intros Hlen. unfold detect_fast_break_default.
    rewrite default_thresholds_rule_1.
    apply andb_true_iff. rewrite Z.leb_le, Z.ltb_lt. lia.
  - intros Hlen Hsmall. unfold detect_fast_break_default.
    rewrite default_thresholds_rule_1.
    apply andb_false_iff. right. rewrite Z.ltb_ge.
    assert (calculate_zone_sum zone_sequence <= 3 * len zone_sequence); [|lia].
    clear Hlen Hb Hvalid.
    induction Hsmall as [|z l Hz _ IH]; [unfold len, calculate_zone_sum; simpl; lia|].
    rewrite calculate_zone_sum_cons. unfold len in *. simpl length. lia.
Qed.

Lemma zone_sum_bounds_witness :
  len [18; 1; 7] <= calculate_zone_sum [18; 1; 7] <= 18 * len [18; 1; 7] /\
  detect_fast_break_default [1; 2; 3] = false.
Proof.
  split.
  - apply (zone_sum_bounds [18; 1; 7]). repeat constructor; lia.
  - apply (zone_sum_bounds [1; 2; 3]); [| reflexivity |]; repeat constructor; lia.
Defined.

(** *** Heat map and zone view *)

Lemma heatmap_fold (zone_positions : list (Z * Q)) (counts : gmap Z Z) (z : Z) :
  foldl heatmap_step counts zone_positions !! z =
  if decide (1 <= z <= 18 /\ 0 < visits z zone_positions)
  then Some (default 0 (counts !! z) + visits z zone_positions)
  else counts !! z.
Proof.
  revert counts. unfold visits.
  induction zone_positions as [|[zone_num t] ps IH]; intros counts.
  - simpl. destruct (decide _) as [[_ H] | _]; [simpl in H; lia | reflexivity].
  - cbn [foldl]. rewrite IH. unfold heatmap_step. cbn [fst].
    rewrite filter_cons. cbn [fst].
    destruct (decide (zone_num = z)) as [-> | Hne].
    + cbn [length]. rewrite Nat2Z.inj_succ.
      destruct (Z.leb_spec 1 z), (Z.leb_spec z 18); simpl;
        repeat (destruct (decide _)); rewrite ?lookup_insert_eq; simpl;
        try reflexivity; try (f_equal; lia); try lia.
    + destruct (Z.leb_spec 1 zone_num), (Z.leb_spec zone_num 18); simpl;
        rewrite ?lookup_insert_ne by exact Hne; reflexivity.
Qed.

(** X11. The heat map counts visits: a zone in 1..18 that occurs among the
    samples is mapped to the number of samples that name it; every other
    number (a zone never visited, the sentinel 0, anything out of range) is
    not a key.  The timestamps play no part. *)
Theorem get_zone_heatmap_data_counts (zone_positions : list (Z * Q)) (z : Z) :
  get_zone_heatmap_data zone_positions !! z =
  if decide (1 <= z <= 18 /\ 0 < visits z zone_positions)
  then Some (visits z zone_positions)
  else None.
Proof.
  unfold get_zone_heatmap_data. rewrite heatmap_fold, lookup_empty. simpl.
  destruct (decide _); reflexivity.
Qed.

Lemma zone_center_of_bounds (self : PitchZoneMapper) (z : Z) (x1 y1 x2 y2 : Q) :
  get_zone_boundaries self z = Ok (x1, y1, x2, y2) ->
  zone_to_pixel_center self z = Ok (((x1 + x2) / 2)%Q, ((y1 + y2) / 2)%Q).
Proof.
  unfold get_zone_boundaries, zone_to_pixel_center.
  destruct (zone_map self !! z) as [[[[a b] c] d]|]; [|discriminate].
  intros E. injection E as -> -> -> ->. reflexivity.
Qed.

Lemma visualize_fold (W H : Z) (zone_nums : list Z) (acc : list ZoneData) :
  Forall (fun z => 1 <= z <= 18) zone_nums ->
  exists zones_data,
    foldl (visualize_step (init W H)) (Ok acc) zone_nums = Ok (acc ++ zones_data) /\
    map zd_zone_number zones_data = zone_nums /\
    Forall (agrees (init W H)) zones_data.
Proof.
  intros Hvalid. revert acc.
  induction Hvalid as [|z l Hz _ IH]; intros acc.
  - exists []. rewrite app_nil_r. repeat split. constructor.
  - cbn [foldl]. unfold visualize_step at 2. cbn [mbind result_bind].
    pose proof (bounds_of_zone W H z Hz) as Hb. rewrite Hb. cbn [mbind result_bind].
    match goal with |- context [foldl _ (Ok (acc ++ [?zd])) l] =>
      destruct (IH (acc ++ [zd])) as (rest & Hfold & Hnums & Hagree); exists (zd :: rest)
    end.
    split; [rewrite Hfold, <- app_assoc; reflexivity|].
    split; [simpl; rewrite Hnums; reflexivity|].
    constructor; [|exact Hagree].
    split; [exact Hb | apply zone_center_of_bounds, Hb].
Qed.

(** X12. [visualize_zones] never fails, whatever the pitch size: it lists
    the 18 zones in the order 1..18, each with the rectangle that
    [get_zone_boundaries] returns and the center that [zone_to_pixel_center]
    returns, together with the pitch size. *)
Theorem visualize_zones_complete (W H : Z) :
  exists view,
    visualize_zones (init W H) = Ok view /\
    view_pitch_width view = W /\ view_pitch_height view = H /\
    map zd_zone_number (view_zones view) = range_from 1 19 /\
    length (view_zones view) = 18%nat /\
    Forall (agrees (init W H)) (view_zones view).
Proof.
  destruct (visualize_fold W H (range_from 1 19) []) as (zones_data & Hfold & Hnums & Hagree).
  { unfold range_from. simpl. repeat constructor; lia. }
  unfold visualize_zones. rewrite Hfold. cbn [mbind result_bind app].
  eexists. split; [reflexivity|]. cbn.
  repeat split; try assumption.
  rewrite <- (length_map zd_zone_number), Hnums. reflexivity.
Qed.

End ClassifierProperties.

(** * Further properties of the track manager *)

Ltac record_fields :=
  cbn [Tracker.trackers Tracker.next_id Tracker.max_disappeared Tracker.disappeared
       Tracker.tracker_type Tracker.set_trackers Tracker.set_disappeared
       Tracker.set_next_id] in *.

Section ManagerTableProperties.

Import Tracker.

Context `{VT : VisualTracker}.

Local Open Scope Z_scope.

Lemma table_invariant_init (tracker_type : string) :
  table_invariant (VT := VT) (init tracker_type).
Proof.
  unfold table_invariant, init. cbn.
  split; [apply NoDup_nil_2|].
  split; [intros k; rewrite lookup_empty, elem_of_nil; split; [tauto | intros [x Hx]; discriminate]|].
  split; [intros k count Hk; rewrite lookup_empty in Hk; discriminate|].
  split; [reflexivity|]. split; [lia|].
  intros k Hk. apply elem_of_nil in Hk. contradiction.
Qed.

Lemma table_invariant_reset (self : ObjectTracker VT) :
  max_disappeared self = 30 -> table_invariant (reset self).
Proof.
  intros Hmax. unfold table_invariant, reset. cbn.
  split; [apply NoDup_nil_2|].
  split; [intros k; rewrite lookup_empty, elem_of_nil; split; [tauto | intros [x Hx]; discriminate]|].
  split; [intros k count Hk; rewrite lookup_empty in Hk; discriminate|].
  split; [exact Hmax|]. split; [lia|].
  intros k Hk. apply elem_of_nil in Hk. contradiction.
Qed.

Lemma table_invariant_bootstrap_step (frame : Frame) (self : ObjectTracker VT)
    (detection : Detection) :
  table_invariant self -> table_invariant (bootstrap_step frame self detection).
Proof.
  intros Hinv. unfold bootstrap_step.
  destruct (tracker_init (create_tracker self) frame (det_bbox detection)) as [success tracker'].
  destruct success; [|exact Hinv].
  destruct Hinv as (Hnd & Hdom & Hrange & Hmax & Hid & Hkeys).
  unfold table_invariant. record_fields.
  split; [apply NoDup_dict_set, Hnd|].
  split; [|split; [|split; [exact Hmax|split; [lia|]]]].
  - intros k. rewrite keys_dict_set.
    destruct (decide (k = next_id self)) as [-> | Hne].
    + rewrite lookup_insert_eq. split; [eauto | tauto].
    + rewrite lookup_insert_ne by congruence. rewrite <- Hdom. tauto.
  - intros k count. destruct (decide (k = next_id self)) as [-> | Hne].
    + rewrite lookup_insert_eq. intros E. injection E as <-. lia.
    + rewrite lookup_insert_ne by congruence. apply Hrange.
  - intros k Hk. apply keys_dict_set in Hk. destruct Hk as [-> | Hk]; [lia|].
    specialize (Hkeys k Hk). lia.
Qed.

Lemma table_invariant_bootstrap (frame : Frame) (detections : list Detection)
    (self : ObjectTracker VT) :
  table_invariant self -> table_invariant (bootstrap frame detections self).
Proof.
  intros Hinv. unfold bootstrap. destruct (trackers self); [|exact Hinv].
  revert self Hinv. induction detections as [|d ds IH]; intros self Hinv; simpl.
  - exact Hinv.
  - apply IH, table_invariant_bootstrap_step, Hinv.
Qed.

Lemma table_invariant_wf (self : ObjectTracker VT) : table_invariant self -> wf self.
Proof.
  intros (Hnd & Hdom & _). split; [exact Hnd|]. intros k Hk. apply Hdom, Hk.
Qed.

Lemma elem_of_keys {V : Type} (k : Z) (d : list (Z * V)) :
  k ∈ keys d <-> exists v, (k, v) ∈ d.
Proof.
  unfold keys. rewrite list_elem_of_fmap. split.
  - intros ([k' v] & E & Hin). simpl in E. subst k'. eauto.
  - intros [v Hin]. exists (k, v). split; [reflexivity | exact Hin].
Qed.

(** The loop over the live tracks keeps the table in order. *)
Lemma table_invariant_loop (frame : Frame) (self self' : ObjectTracker VT)
    (objs objs' : list TrackedObject) :
  table_invariant self ->
  foldl (track_step frame) (Ok (self, objs)) (trackers self) = Ok (self', objs') ->
  table_invariant self'.
Proof.
  intros (Hnd & Hdom & Hrange & Hmax & Hid & Hkeys) Hfold.
  destruct (track_loop frame (trackers self) self objs Hnd)
    as (self2 & objs2 & Hfold2 & Hsh & Hother & Hout).
  { intros k Hk. apply Hdom, Hk. }
  rewrite Hfold in Hfold2. injection Hfold2 as <- <-.
  destruct Hsh as (Hnid & Hmax' & _ & Hsub & Hnd').
  assert (Hcase : forall k, k ∈ keys (trackers self) ->
             (k ∈ keys (trackers self') /\ exists c, disappeared self' !! k = Some c /\ 0 <= c <= 30)
             \/ ((k ∉ keys (trackers self')) /\ disappeared self' !! k = None)).
  { intros k Hk. destruct (proj1 (Hdom k) Hk) as [count Hcount].
    apply elem_of_keys in Hk as Hinfo. destruct Hinfo as [info Hin].
    specialize (Hout k info count Hin Hcount). unfold track_outcome in Hout.
    specialize (Hrange k count Hcount). rewrite Hmax in Hout.
    destruct ((tracker_update (tracker info) frame).1.1);
      [|destruct (decide (30 < count + 1))]; destruct Hout as [H1 H2].
    - left. split; [auto|]. exists 0. split; [exact H1 | lia].
    - right. split; assumption.
    - left. split; [auto|]. exists (count + 1). split; [exact H1 | lia]. }
  unfold table_invariant. split; [exact (Hnd' Hnd)|].
  split; [|split; [|split; [congruence|split; [lia|]]]].
  - intros k. split.
    + intros Hk. destruct (Hcase k (Hsub k Hk)) as [[_ (c & Hc & _)] | [Hn _]];
        [rewrite Hc; eauto | contradiction].
    + intros [c Hc]. destruct (decide (k ∈ keys (trackers self))) as [Hk | Hk].
      * destruct (Hcase k Hk) as [[Hlive _] | [_ Hnone]]; [exact Hlive | congruence].
      * destruct (Hother k Hk) as [E _]. rewrite E in Hc.
        exfalso. apply Hk, Hdom. eauto.
  - intros k c Hc. destruct (decide (k ∈ keys (trackers self))) as [Hk | Hk].
    + destruct (Hcase k Hk) as [[_ (c' & Hc' & Hr)] | [_ Hnone]]; [|congruence].
      rewrite Hc in Hc'. injection Hc' as <-. exact Hr.
    + destruct (Hother k Hk) as [E _]. rewrite E in Hc. eapply Hrange, Hc.
  - intros k Hk. rewrite Hnid. apply Hkeys, Hsub, Hk.
Qed.

Lemma table_invariant_update (self self' : ObjectTracker VT) (frame : Frame)
    (detections : list Detection) (objs : list TrackedObject) :
  table_invariant self -> update self frame detections = Ok (self', objs) ->
  table_invariant self'.
Proof.
  intros Hinv Hupd. unfold update in Hupd.
  eapply table_invariant_loop; [|exact Hupd].
  apply table_invariant_bootstrap, Hinv.
Qed.

Lemma reachable_table_invariant (self : ObjectTracker VT) :
  reachable self -> table_invariant self.
Proof.
  induction 1 as [tt | self frame detections self' objs _ IH Hupd | self _ IH].
  - apply table_invariant_init.
  - eapply table_invariant_update; eassumption.
  - apply table_invariant_reset. apply IH.
Qed.

(** X13. Between frames the manager's two dictionaries stay in step: in
    every reachable state the ids in [self.trackers] are distinct,
    [self.disappeared] holds a counter for exactly those ids (no counter
    outlives its track), and every counter is between 0 and 30. *)
Theorem manager_tables_in_step (self : ObjectTracker VT) :
  reachable self ->
  NoDup (keys (trackers self)) /\
  (forall k, k ∈ keys (trackers self) <-> is_Some (disappeared self !! k)) /\
  (forall k count, disappeared self !! k = Some count -> 0 <= count <= 30).
Proof.
  intros Hreach. destruct (reachable_table_invariant self Hreach) as (H1 & H2 & H3 & _).
  split; [exact H1 | split; [exact H2 | exact H3]].
Qed.

End ManagerTableProperties.

Section ManagerIdProperties.

Import Tracker.

Context `{VT : VisualTracker}.

Local Open Scope Z_scope.

Lemma bootstrap_step_ids (frame : Frame) (self : ObjectTracker VT) (detection : Detection) :
  next_id self <= next_id (bootstrap_step frame self detection) /\
  forall k, k ∈ keys (trackers (bootstrap_step frame self detection)) ->
            k ∈ keys (trackers self) \/ next_id self <= k.
Proof.
  unfold bootstrap_step.
  destruct (tracker_init (create_tracker self) frame (det_bbox detection)) as [success tracker'].
  destruct success; record_fields.
  - split; [lia|]. intros k Hk. apply keys_dict_set in Hk. destruct Hk as [-> | Hk]; [right; lia | tauto].
  - split; [lia | tauto].
Qed.

Lemma bootstrap_fold_ids (frame : Frame) (detections : list Detection)
    (self : ObjectTracker VT) :
  next_id self <= next_id (foldl (bootstrap_step frame) self detections) /\
  forall k, k ∈ keys (trackers (foldl (bootstrap_step frame) self detections)) ->
            k ∈ keys (trackers self) \/ next_id self <= k.
Proof.
  revert self. induction detections as [|d ds IH]; intros self; simpl.
  - split; [lia | tauto].
  - destruct (IH (bootstrap_step frame self d)) as [Hn Hk].
    destruct (bootstrap_step_ids frame self d) as [Hn1 Hk1].
    split; [lia|]. intros k Hin. destruct (Hk k Hin) as [Hold | Hnew]; [|right; lia].
    apply Hk1, Hold.
Qed.

Lemma bootstrap_ids (frame : Frame) (detections : list Detection) (self : ObjectTracker VT) :
  next_id self <= next_id (bootstrap frame detections self) /\
  forall k, k ∈ keys (trackers (bootstrap frame detections self)) ->
            k ∈ keys (trackers self) \/ next_id self <= k.
Proof.
  unfold bootstrap. destruct (trackers self) eqn:E.
  - rewrite <- E. apply bootstrap_fold_ids.
  - rewrite <- E. split; [lia | tauto].
Qed.

(** X14. Ids are handed out in increasing order and never twice while the
    job runs: every live id is below [next_id], [update] never lowers
    [next_id], and a track that appears in a call to [update] has an id at or
    above the [next_id] from before the call, hence above every id that was
    live before it. *)
Theorem ids_are_fresh (self self' : ObjectTracker VT) (frame : Frame)
    (detections : list Detection) (tracked_objects : list TrackedObject) :
  reachable self ->
  update self frame detections = Ok (self', tracked_objects) ->
  (forall k, k ∈ keys (trackers self) -> 0 <= k < next_id self) /\
  next_id self <= next_id self' /\
  (forall k, k ∈ keys (trackers self') -> k ∉ keys (trackers self) ->
             next_id self <= k < next_id self').
Proof.
  intros Hreach Hupd.
  pose proof (reachable_table_invariant self Hreach) as Hinv.
  pose proof (table_invariant_update _ _ _ _ _ Hinv Hupd) as (_ & _ & _ & _ & _ & Hkeys').
  destruct Hinv as (Hnd & Hdom & _ & _ & _ & Hkeys).
  destruct (bootstrap_ids frame detections self) as [Hn Hk].
  unfold update in Hupd.
  pose proof (table_invariant_bootstrap frame detections self
                (reachable_table_invariant self Hreach)) as (Hndb & Hdomb & _).
  destruct (track_loop frame (trackers (bootstrap frame detections self))
              (bootstrap frame detections self) [] Hndb)
    as (self2 & objs2 & Hfold2 & Hsh & _).
  { intros k Hin. apply Hdomb, Hin. }
  rewrite Hupd in Hfold2. injection Hfold2 as <- <-.
  destruct Hsh as (Hnid & _ & _ & Hsub & _).
  split; [exact Hkeys|]. split; [lia|].
  intros k Hin Hnew. split; [|apply Hkeys', Hin].
  destruct (Hk k (Hsub k Hin)) as [Hold | Hge]; [contradiction | exact Hge].
Qed.

(** X15. [reset] brings a manager back to the state of a new one of the
    same tracker type: empty tables and ids that start again at 0. *)
Theorem reset_is_init (self : ObjectTracker VT) :
  reachable self -> reset self = init (tracker_type self).
Proof.
  intros Hreach.
  destruct (reachable_table_invariant self Hreach) as (_ & _ & _ & Hmax & _).
  unfold reset, init, set_next_id, set_disappeared, set_trackers. cbn.
  rewrite Hmax. reflexivity.
Qed.

End ManagerIdProperties.

Section BootstrapProperties.

Import Tracker.

Context `{VT : VisualTracker}.

Local Open Scope Z_scope.

Lemma dict_set_fresh {V : Type} (k : Z) (v : V) (d : list (Z * V)) :
  k ∉ keys d -> dict_set k v d = d ++ [(k, v)].
Proof.
  induction d as [|[k' v'] d IH]; simpl; intros Hk; [reflexivity|].
  apply not_elem_of_cons in Hk. destruct Hk as [Hne Hk].
  destruct (decide (k' = k)); [congruence|]. rewrite IH by exact Hk. reflexivity.
Qed.

Lemma range_from_empty (a : Z) : Zones.range_from a (a + 0) = [].
Proof. unfold Zones.range_from. replace (a + 0 - a) with 0 by lia. reflexivity. Qed.

Lemma range_from_cons (a : Z) (n : nat) :
  Zones.range_from a (a + Z.of_nat (S n)) = a :: Zones.range_from (a + 1) (a + 1 + Z.of_nat n).
Proof.
  unfold Zones.range_from.
  replace (Z.to_nat (a + Z.of_nat (S n) - a)) with (S n) by lia.
  replace (Z.to_nat (a + 1 + Z.of_nat n - (a + 1))) with n by lia.
  simpl seq. simpl map. f_equal; [lia|].
  rewrite <- seq_shift, map_map. apply map_ext. intros i. lia.
Qed.

Lemma accepted_step (frame frame' : Frame) (self : ObjectTracker VT) (d d' : Detection) :
  accepted (bootstrap_step frame self d) frame' d' = accepted self frame' d'.
Proof.
  unfold accepted, create_tracker, bootstrap_step.
  destruct (tracker_init _ frame (det_bbox d)) as [[] t]; reflexivity.
Qed.

Lemma bootstrap_step_cases (frame : Frame) (self : ObjectTracker VT) (d : Detection) :
  (accepted self frame d = true /\
   bootstrap_step frame self d =
   set_next_id (next_id self + 1)
     (set_disappeared (<[next_id self := 0]> (disappeared self))
        (set_trackers
           (dict_set (next_id self)
              {| tracker := (tracker_init (create_tracker self) frame (det_bbox d)).2;
                 info_class_id := det_class_id d;
                 info_confidence := det_confidence d |} (trackers self)) self))) \/
  (accepted self frame d = false /\ bootstrap_step frame self d = self).
Proof.
  unfold accepted, bootstrap_step.
  destruct (tracker_init (create_tracker self) frame (det_bbox d)) as [[] t];
    [left | right]; split; reflexivity.
Qed.

Lemma bootstrap_fold_creates (frame : Frame) (detections : list Detection) :
  forall self : ObjectTracker VT,
    (forall k, k ∈ keys (trackers self) -> k < next_id self) ->
    let created := List.filter (accepted self frame) detections in
    let self' := foldl (bootstrap_step frame) self detections in
    keys (trackers self') =
      keys (trackers self) ++ Zones.range_from (next_id self) (next_id self + len created) /\
    class_ids (trackers self') = class_ids (trackers self) ++ map det_class_id created /\
    confidences (trackers self') = confidences (trackers self) ++ map det_confidence created /\
    next_id self' = next_id self + len created /\
    (forall k, k < next_id self -> disappeared self' !! k = disappeared self !! k) /\
    (forall k, next_id self <= k < next_id self' -> disappeared self' !! k = Some 0).
Proof.
  induction detections as [|d ds IH]; intros self Hkeys; cbn zeta.
  - simpl. unfold len. simpl. rewrite range_from_empty, !app_nil_r.
    repeat split; try reflexivity; try lia.
  - cbn [foldl List.filter].
    assert (Hext : List.filter (accepted (bootstrap_step frame self d) frame) ds
                   = List.filter (accepted self frame) ds).
    { apply List.filter_ext. intros d'. apply accepted_step. }
    specialize (IH (bootstrap_step frame self d)). cbn zeta in IH. rewrite Hext in IH.
    destruct (bootstrap_step_cases frame self d) as [[Hacc Hstep] | [Hacc Hstep]];
      rewrite Hacc; [|rewrite Hstep in IH |- *; exact (IH Hkeys)].
    destruct IH as (Hk & Hc & Hf & Hn & Hold & Hnew).
    { rewrite Hstep. record_fields.
      rewrite dict_set_fresh by (intros Hin; specialize (Hkeys _ Hin); lia).
      intros k Hin. unfold keys in Hin. rewrite map_app in Hin.
      apply elem_of_app in Hin. destruct Hin as [Hin | Hin].
      - specialize (Hkeys k Hin). lia.
      - simpl in Hin. apply list_elem_of_singleton in Hin. lia. }
    set (self' := foldl (bootstrap_step frame) (bootstrap_step frame self d) ds) in *.
    rewrite Hstep in Hk, Hc, Hf, Hn, Hold, Hnew. record_fields.
    rewrite dict_set_fresh in Hk, Hc, Hf
      by (intros Hin; specialize (Hkeys _ Hin); lia).
    unfold len in *. cbn [length map]. rewrite range_from_cons.
    unfold keys, class_ids, confidences in *. rewrite !map_app in Hk, Hc, Hf.
    cbn [map fst snd info_class_id info_confidence] in Hk, Hc, Hf.
    rewrite <- !app_assoc in Hk, Hc, Hf. cbn [app] in Hk, Hc, Hf.
    split; [exact Hk|]. split; [exact Hc|]. split; [exact Hf|].
    split; [lia|]. split.
    + intros k Hlt. rewrite Hold by lia. apply lookup_insert_ne. lia.
    + intros k Hrange. destruct (decide (k = next_id self)) as [-> | Hne].
      * rewrite Hold by lia. apply lookup_insert_eq.
      * apply Hnew. lia.
Qed.

Lemma elem_of_range_from (a b k : Z) : k ∈ Zones.range_from a b <-> a <= k < b.
Proof.
  unfold Zones.range_from. rewrite list_elem_of_fmap. split.
  - intros (i & -> & Hi). apply elem_of_seq in Hi. lia.
  - intros Hk. exists (Z.to_nat (k - a)). split; [lia|]. apply elem_of_seq. lia.
Qed.

(** X16. On an empty table [update] starts one track per detection whose box
    the backend accepts, in the order of the detections: the new ids are
    consecutive from [next_id], each track carries the class id and the
    confidence of its detection, its counter starts at 0, and [next_id]
    advances by the number of tracks created.  A detection the backend
    rejects leaves no trace. *)
Theorem bootstrap_creates_tracks (self : ObjectTracker VT) (frame : Frame)
    (detections : list Detection) :
  trackers self = [] ->
  let created := List.filter (accepted self frame) detections in
  let self' := bootstrap frame detections self in
  keys (trackers self') = Zones.range_from (next_id self) (next_id self + len created) /\
  class_ids (trackers self') = map det_class_id created /\
  confidences (trackers self') = map det_confidence created /\
  next_id self' = next_id self + len created /\
  (forall k, k ∈ keys (trackers self') -> disappeared self' !! k = Some 0).
Proof.
  intros Hempty created self'.
  destruct (bootstrap_fold_creates frame detections self)
    as (Hk & Hc & Hf & Hn & _ & Hnew).
  { rewrite Hempty. intros k Hin. apply elem_of_nil in Hin. contradiction. }
  assert (Hb : self' = foldl (bootstrap_step frame) self detections).
  { unfold self', bootstrap. rewrite Hempty. reflexivity. }
  rewrite Hempty in Hk, Hc, Hf. cbn [keys class_ids confidences map app] in Hk, Hc, Hf.
  rewrite Hb. split; [exact Hk|]. split; [exact Hc|]. split; [exact Hf|].
  split; [exact Hn|].
  intros k Hin. rewrite Hk in Hin. apply elem_of_range_from in Hin.
  apply Hnew. rewrite Hn. exact Hin.
Qed.

End BootstrapProperties.

Section UpdateOutputProperties.

Import Tracker.

Context `{VT : VisualTracker}.

Local Open Scope Z_scope.

Lemma track_fold_raise (frame : Frame) (e : exn) (items : list (Z * TrackerInfo VT)) :
  foldl (track_step frame) (Raise e) items = Raise e.
Proof. induction items as [|item items IH]; [reflexivity | exact IH]. Qed.

(** The list [update] returns holds, in dictionary order, one object for
    every entry whose backend followed the frame. *)
Lemma track_loop_objs (frame : Frame) (items : list (Z * TrackerInfo VT)) :
  forall (self self' : ObjectTracker VT) (objs objs' : list TrackedObject),
    foldl (track_step frame) (Ok (self, objs)) items = Ok (self', objs') ->
    objs' = objs ++ omap (reported frame) items.
Proof.
  induction items as [|[k info] items IH]; intros self self' objs objs' Hfold.
  - simpl in Hfold. injection Hfold as _ <-. simpl. rewrite app_nil_r. reflexivity.
  - cbn [foldl] in Hfold.
    change (omap (reported frame) ((k, info) :: items))
      with (match reported frame (k, info) with
            | Some obj => obj :: omap (reported frame) items
            | None => omap (reported frame) items
            end).
    unfold reported at 1. cbn [fst snd].
    unfold track_step at 2 in Hfold. cbn [mbind result_bind] in Hfold.
    destruct (tracker_update (tracker info) frame) as [[success box] tracker'].
    destruct success.
    + apply IH in Hfold. rewrite Hfold, <- app_assoc. reflexivity.
    + record_fields.
      destruct (disappeared self !! k) as [count|];
        [|rewrite track_fold_raise in Hfold; discriminate Hfold].
      destruct (max_disappeared self <? count + 1); apply IH in Hfold; exact Hfold.
Qed.

Lemma reported_id (frame : Frame) (item : Z * TrackerInfo VT) (obj : TrackedObject) :
  reported frame item = Some obj ->
  id obj = item.1 /\ (tracker_update (tracker item.2) frame).1.1 = true /\
  frame_id obj = 0 /\ velocity obj = None /\ center obj = bbox_center (bbox obj) /\
  class_id obj = info_class_id item.2 /\ confidence obj = info_confidence item.2.
Proof.
  unfold reported.
  destruct (tracker_update (tracker item.2) frame) as [[success box] tracker'].
  destruct success; [|discriminate]. intros E. injection E as <-. repeat split.
Qed.

Lemma reported_ids_NoDup (frame : Frame) (items : list (Z * TrackerInfo VT)) :
  NoDup (keys items) -> NoDup (map id (omap (reported frame) items)).
Proof.
  induction items as [|item items IH]; intros Hnd; [apply NoDup_nil_2|].
  cbn [keys map] in Hnd. apply NoDup_cons in Hnd. destruct Hnd as [Hi Hnd].
  change (omap (reported frame) (item :: items))
    with (match reported frame item with
          | Some obj => obj :: omap (reported frame) items
          | None => omap (reported frame) items
          end).
  destruct (reported frame item) as [obj|] eqn:E; [|apply IH, Hnd].
  cbn [map]. apply NoDup_cons. split; [|apply IH, Hnd].
  destruct (reported_id _ _ _ E) as [-> _].
  intros Hin. apply Hi. apply list_elem_of_fmap in Hin.
  destruct Hin as (obj' & Eid & Hin). apply list_elem_of_omap in Hin.
  destruct Hin as (item' & Hin' & E').
  destruct (reported_id _ _ _ E') as [Eid' _].
  unfold keys. apply list_elem_of_fmap. exists item'. split; [congruence | exact Hin'].
Qed.

(** X17. In a reachable state, the list [update] returns is exactly the set
    of tracks seen in this frame: its ids are distinct, and an id is in the
    list if and only if the track is live after the call with its counter at
    0.  Every object in it is new: frame id 0, no velocity, and its center is
    the middle of its box. *)
Theorem update_reports_seen_tracks (self self' : ObjectTracker VT) (frame : Frame)
    (detections : list Detection) (tracked_objects : list TrackedObject) :
  reachable self ->
  update self frame detections = Ok (self', tracked_objects) ->
  NoDup (map id tracked_objects) /\
  (forall k, k ∈ map id tracked_objects <->
             k ∈ keys (trackers self') /\ disappeared self' !! k = Some 0) /\
  Forall (fun obj => frame_id obj = 0 /\ velocity obj = None /\
                     center obj = bbox_center (bbox obj)) tracked_objects.
Proof.
  intros Hreach Hupd.
  pose proof (table_invariant_bootstrap frame detections self
                (reachable_table_invariant self Hreach))
    as (Hnd & Hdom & Hrange & Hmax & _).
  unfold update in Hupd.
  set (sb := bootstrap frame detections self) in *.
  pose proof (track_loop_objs frame (trackers sb) sb self' [] tracked_objects Hupd) as Hobjs.
  cbn [app] in Hobjs.
  destruct (track_loop frame (trackers sb) sb [] Hnd)
    as (self2 & objs2 & Hfold2 & Hsh & _ & Hout).
  { intros k Hin. apply Hdom, Hin. }
  rewrite Hupd in Hfold2. injection Hfold2 as <- <-.
  destruct Hsh as (_ & _ & _ & Hsub & _).
  split; [rewrite Hobjs; apply reported_ids_NoDup, Hnd|].
  split.
  - intros k. split.
    + intros Hin. rewrite Hobjs in Hin. apply list_elem_of_fmap in Hin.
      destruct Hin as (obj & -> & Hin). apply list_elem_of_omap in Hin.
      destruct Hin as ([k info] & Hitem & Hrep).
      destruct (reported_id _ _ _ Hrep) as (Eid & Hsucc & _). cbn [fst snd] in Eid, Hsucc.
      rewrite Eid.
      assert (Hk : k ∈ keys (trackers sb)) by (apply elem_of_keys; eauto).
      destruct (proj1 (Hdom k) Hk) as [count Hcount].
      specialize (Hout k info count Hitem Hcount). unfold track_outcome in Hout.
      rewrite Hsucc in Hout. destruct Hout as [H0 Hlive]. split; [apply Hlive, Hk | exact H0].
    + intros [Hlive H0].
      pose proof (Hsub k Hlive) as Hk.
      destruct (proj1 (Hdom k) Hk) as [count Hcount].
      apply elem_of_keys in Hk as Hitem. destruct Hitem as [info Hitem].
      specialize (Hout k info count Hitem Hcount). unfold track_outcome in Hout.
      specialize (Hrange k count Hcount).
      destruct ((tracker_update (tracker info) frame).1.1) eqn:Hsucc.
      * rewrite Hobjs. apply list_elem_of_fmap.
        assert (exists obj, reported frame (k, info) = Some obj) as [obj Hrep].
        { unfold reported. cbn [snd].
          destruct (tracker_update (tracker info) frame) as [[success box] tracker'].
          cbn [fst] in Hsucc. subst success. eauto. }
        exists obj. destruct (reported_id _ _ _ Hrep) as (Eid & _).
        split; [symmetry; exact Eid|]. apply list_elem_of_omap. eauto.
      * destruct (decide (max_disappeared sb < count + 1)); destruct Hout as [H1 H2].
        -- contradiction.
        -- rewrite H1 in H0. injection H0 as H0. lia.
  - rewrite Hobjs. apply Forall_forall. intros obj Hin.
    apply list_elem_of_omap in Hin. destruct Hin as (item & _ & Hrep).
    destruct (reported_id _ _ _ Hrep) as (_ & _ & Hf & Hv & Hc & _). auto.
Qed.

End UpdateOutputProperties.

Section MissedFramesProperties.

Import Tracker.

Context `{VT : VisualTracker}.

Local Open Scope Z_scope.

Lemma bootstrap_nil (frame : Frame) (self : ObjectTracker VT) :
  bootstrap frame [] self = self.
Proof. unfold bootstrap. destruct (trackers self); reflexivity. Qed.

Lemma run_cons (self self1 : ObjectTracker VT) (frame : Frame)
    (detections : list Detection) (objs : list TrackedObject)
    (rest : list (Frame * list Detection)) :
  update self frame detections = Ok (self1, objs) ->
  run self ((frame, detections) :: rest) = run self1 rest.
Proof.
  intros Hupd. unfold run. cbn [foldl mbind result_bind fst snd]. rewrite Hupd. reflexivity.
Qed.

(** One frame that no backend follows, with no detections. *)
Lemma missed_frame (self : ObjectTracker VT) (frame : Frame) :
  table_invariant self ->
  (forall t, (tracker_update t frame).1.1 = false) ->
  exists self' objs,
    update self frame [] = Ok (self', objs) /\
    table_invariant self' /\
    (forall k, k ∈ keys (trackers self') -> k ∈ keys (trackers self)) /\
    forall k count, disappeared self !! k = Some count ->
      (count + 1 <= 30 -> k ∈ keys (trackers self') /\
                          disappeared self' !! k = Some (count + 1)) /\
      (30 < count + 1 -> (k ∉ keys (trackers self')) /\ disappeared self' !! k = None).
Proof.
  intros Hinv Hmiss.
  destruct (update_spec frame [] self (table_invariant_wf self Hinv))
    as (self' & objs & Hupd & Hsh & _ & Hout).
  rewrite bootstrap_nil in Hsh, Hout.
  exists self', objs. split; [exact Hupd|].
  split; [exact (table_invariant_update _ _ _ _ _ Hinv Hupd)|].
  destruct Hsh as (_ & _ & _ & Hsub & _). split; [exact Hsub|].
  destruct Hinv as (_ & Hdom & _ & Hmax & _).
  intros k count Hcount.
  assert (Hk : k ∈ keys (trackers self)) by (apply Hdom; eauto).
  apply elem_of_keys in Hk as Hitem. destruct Hitem as [info Hitem].
  specialize (Hout k info count Hitem Hcount). unfold track_outcome in Hout.
  rewrite Hmiss, Hmax in Hout.
  destruct (decide (30 < count + 1)); destruct Hout as [H1 H2]; split; intros; try lia; auto.
Qed.

(** X18. Frames that no backend follows (and that bring no detections) age
    every track together: after [n] such frames a track whose counter was
    [count] is still live, with counter [count + n], when [count + n <= 30],
    and is gone otherwise.  No track comes back, and after 31 such frames the
    table is empty. *)
Theorem missed_frames_expire (frames : list Frame) :
  forall self : ObjectTracker VT,
    reachable self ->
    (forall frame t, frame ∈ frames -> (tracker_update t frame).1.1 = false) ->
    exists self',
      run self (map (fun frame => (frame, [])) frames) = Ok self' /\
      reachable self' /\
      (forall k, k ∈ keys (trackers self') -> k ∈ keys (trackers self)) /\
      (forall k count, disappeared self !! k = Some count ->
         (count + len frames <= 30 ->
            k ∈ keys (trackers self') /\
            disappeared self' !! k = Some (count + len frames)) /\
         (30 < count + len frames ->
            (k ∉ keys (trackers self')) /\ disappeared self' !! k = None)) /\
      (31 <= len frames -> trackers self' = []).
Proof.
  induction frames as [|frame frames IH]; intros self Hreach Hmiss.
  - exists self. split; [reflexivity|]. split; [exact Hreach|]. split; [tauto|].
    change (len (@nil Frame)) with 0. split; [|lia].
    intros k count Hcount.
    destruct (reachable_table_invariant self Hreach) as (_ & Hdom & Hrange & _).
    specialize (Hrange k count Hcount).
    replace (count + 0) with count by lia.
    split; [|lia]. intros _. split; [apply Hdom; eauto | exact Hcount].
  - pose proof (reachable_table_invariant self Hreach) as Hinv.
    destruct (missed_frame self frame Hinv) as (self1 & objs & Hupd & Hinv1 & Hsub1 & Hstep).
    { intros t. apply Hmiss. left. }
    assert (Hreach1 : reachable self1) by (eapply reachable_update; eassumption).
    destruct (IH self1 Hreach1) as (self' & Hrun & Hreach' & Hsub & Hrest & _).
    { intros f t Hin. apply Hmiss. right. exact Hin. }
    exists self'. cbn [map]. rewrite (run_cons _ _ _ _ _ _ Hupd).
    split; [exact Hrun|]. split; [exact Hreach'|].
    split; [intros k Hin; apply Hsub1, Hsub, Hin|].
    destruct (reachable_table_invariant self' Hreach') as (_ & Hdom' & _).
    assert (Hall : forall k count, disappeared self !! k = Some count ->
         (count + len (frame :: frames) <= 30 ->
            k ∈ keys (trackers self') /\
            disappeared self' !! k = Some (count + len (frame :: frames))) /\
         (30 < count + len (frame :: frames) ->
            (k ∉ keys (trackers self')) /\ disappeared self' !! k = None)).
    { intros k count Hcount. unfold len in *. cbn [length]. rewrite Nat2Z.inj_succ.
      destruct (Hstep k count Hcount) as [Hkeep Hdrop].
      destruct (decide (count + 1 <= 30)) as [Hle | Hgt].
      - destruct (Hkeep Hle) as [_ Hc1].
        destruct (Hrest k (count + 1) Hc1) as [Hkeep' Hdrop'].
        split; intros Hn.
        + replace (count + Z.succ (Z.of_nat (length frames)))
            with (count + 1 + Z.of_nat (length frames)) by lia.
          apply Hkeep'. lia.
        + apply Hdrop'. lia.
      - destruct (Hdrop ltac:(lia)) as [Hgone _].
        split; intros Hn; [lia|].
        assert (Hgone' : k ∉ keys (trackers self')) by (intros Hin; apply Hgone, Hsub, Hin).
        split; [exact Hgone'|].
        destruct (disappeared self' !! k) as [c|] eqn:Ec; [|reflexivity].
        exfalso. apply Hgone', Hdom'. eauto. }
    split; [exact Hall|].
    intros Hlong.
    destruct (trackers self') as [|[k info] rest] eqn:Et; [reflexivity|]. exfalso.
    assert (Hk' : k ∈ keys ((k, info) :: rest)) by left.
    assert (Hk : k ∈ keys (trackers self)) by (apply Hsub1, Hsub, Hk').
    destruct Hinv as (_ & Hdom & Hrange & _).
    destruct (proj1 (Hdom k) Hk) as [count Hcount].
    specialize (Hrange k count Hcount).
    destruct (Hall k count Hcount) as [_ Hdrop].
    destruct (Hdrop ltac:(lia)) as [Hgone _]. contradiction.
Qed.

End MissedFramesProperties.

(** * Further properties of the detection filter and the ball history *)

Section FilterAndHistoryProperties.

Import Tracker.

Context `{VT : VisualTracker}.

Local Open Scope Q_scope.

Lemma filter_detections_In (detections : list Detection) (threshold : Q) (d : Detection) :
  In d (filter_detections detections threshold) <->
  In d detections /\ threshold <= det_confidence d.
Proof.
  unfold filter_detections. rewrite List.filter_In, Qle_bool_iff. reflexivity.
Qed.

Lemma filter_detections_twice (detections : list Detection) (t1 t2 : Q) :
  t1 <= t2 ->
  filter_detections (filter_detections detections t1) t2 = filter_detections detections t2.
Proof.
  intros Hle. unfold filter_detections.
  induction detections as [|d ds IH]; [reflexivity|]. cbn [List.filter].
  destruct (Qle_bool t1 (det_confidence d)) eqn:E1;
    destruct (Qle_bool t2 (det_confidence d)) eqn:E2; cbn [List.filter];
    rewrite ?E2, ?IH; try reflexivity.
  exfalso. apply Qle_bool_iff in E2.
  assert (Qle_bool t1 (det_confidence d) = true) as E
    by (apply Qle_bool_iff; eapply Qle_trans; eassumption).
  congruence.
Qed.

(** X19. [filter_detections] keeps, in their order, exactly the detections
    whose confidence is at least the threshold (a confidence equal to the
    threshold is kept).  Filtering twice is filtering once at the higher
    threshold, and a manager bootstrapped from the filtered list only holds
    tracks whose confidence reaches the threshold. *)
Theorem filter_detections_keeps (detections : list Detection) (threshold : Q) :
  (forall d, In d (filter_detections detections threshold) <->
             In d detections /\ threshold <= det_confidence d) /\
  sublist (filter_detections detections threshold) detections /\
  (forall higher, threshold <= higher ->
     filter_detections (filter_detections detections threshold) higher
     = filter_detections detections higher) /\
  (forall (self : ObjectTracker VT) frame,
     trackers self = [] ->
     Forall (fun c => threshold <= c)
       (confidences (trackers (bootstrap frame (filter_detections detections threshold) self)))).
Proof.
  split; [intros d; apply filter_detections_In|].
  split; [|split; [intros higher; apply filter_detections_twice|]].
  - unfold filter_detections. induction detections as [|d ds IH]; [constructor|].
    cbn [List.filter]. destruct (Qle_bool threshold (det_confidence d));
      [apply sublist_skip | apply sublist_cons]; exact IH.
  - intros self frame Hempty.
    destruct (bootstrap_fold_creates frame (filter_detections detections threshold) self)
      as (_ & _ & Hf & _).
    { rewrite Hempty. intros k Hin. apply elem_of_nil in Hin. contradiction. }
    unfold bootstrap. rewrite Hempty. rewrite Hf, Hempty. cbn [confidences map app].
    apply Forall_forall. intros c Hin. apply list_elem_of_fmap in Hin.
    destruct Hin as (d & -> & Hin). apply list_elem_of_In in Hin.
    apply List.filter_In in Hin. destruct Hin as [Hin _].
    apply filter_detections_In in Hin. apply Hin.
Qed.

(** The sample [update_ball_history] stores for a ball. *)
Lemma update_ball_history_cases (self : BallTracker) (ball : TrackedObject)
    (rest : list TrackedObject) :
  let sample := {| sample_frame_id := frame_id ball; position := center ball;
                   sample_bbox := bbox ball |} in
  ((len (ball_history self) < max_history self)%Z /\
   ball_history (update_ball_history self (ball :: rest)) = ball_history self ++ [sample]) \/
  ((max_history self <= len (ball_history self))%Z /\
   ball_history (update_ball_history self (ball :: rest))
   = drop 1 (ball_history self ++ [sample])).
Proof.
  intros sample. unfold update_ball_history. fold sample.
  assert (Hlen : len (ball_history self ++ [sample]) = (len (ball_history self) + 1)%Z)
    by (unfold len; rewrite length_app; simpl; lia).
  destruct (Z.ltb_spec (max_history self) (len (ball_history self ++ [sample])));
    [right | left]; (split; [lia | reflexivity]).
Qed.

(** X20. The ball history is a bounded first-in first-out window: a call
    without balls changes nothing; a call with balls appends the sample of
    the first ball only, dropping the oldest sample exactly when the window
    (of size at least 1) is full; so a history within [max_history] stays within it, and, for a
    window of size at least 1, the newest sample is always the last one. *)
Theorem ball_history_window (self : BallTracker) (ball : TrackedObject)
    (rest : list TrackedObject) :
  let sample := {| sample_frame_id := frame_id ball; position := center ball;
                   sample_bbox := bbox ball |} in
  let self' := update_ball_history self (ball :: rest) in
  update_ball_history self [] = self /\
  max_history self' = max_history self /\ base self' = base self /\
  ((len (ball_history self) < max_history self)%Z ->
     ball_history self' = ball_history self ++ [sample]) /\
  ((1 <= max_history self)%Z -> (len (ball_history self) = max_history self)%Z ->
     ball_history self' = drop 1 (ball_history self) ++ [sample] /\
     len (ball_history self') = max_history self) /\
  ((len (ball_history self) <= max_history self)%Z ->
     (len (ball_history self') <= max_history self)%Z) /\
  ((1 <= max_history self)%Z -> last (ball_history self') = Some sample).
Proof.
  intros sample self'.
  split; [reflexivity|].
  assert (Hfields : max_history self' = max_history self /\ base self' = base self).
  { unfold self', update_ball_history.
    destruct (max_history self <? _)%Z; split; reflexivity. }
  split; [apply Hfields|]. split; [apply Hfields|].
  destruct (update_ball_history_cases self ball rest) as [[Hlt Hh] | [Hge Hh]];
    fold sample in Hh; fold self' in Hh; rewrite Hh.
  - split; [reflexivity|]. split; [lia|].
    split; [intros _; unfold len in *; rewrite length_app; simpl; lia|].
    intros _. apply last_snoc.
  - split; [lia|].
    assert (Hlen : len (drop 1 (ball_history self ++ [sample])) = len (ball_history self)).
    { unfold len. rewrite length_drop, length_app. simpl. lia. }
    split; [|split].
    + intros Hmax Hfull. split; [|rewrite Hlen; exact Hfull].
      destruct (ball_history self) as [|s0 h]; [|reflexivity].
      unfold len in Hfull. simpl in Hfull. lia.
    + intros Hle. rewrite Hlen. exact Hle.
    + intros Hmax.
      destruct (ball_history self) as [|s0 h] eqn:Eh.
      * unfold len in Hge. simpl in Hge. lia.
      * simpl. rewrite drop_0. apply last_snoc.
Qed.

End FilterAndHistoryProperties.

(** * Further properties of the prediction, the kicks and the possession *)

Section PredictionProperties.

Import Tracker.

Context `{VT : VisualTracker}.

Local Open Scope Q_scope.

Lemma predict_last_three (self : BallTracker) (frames_ahead : Z)
    (older : list BallSample) (s0 s1 s2 : BallSample) :
  ball_history self = older ++ [s0; s1; s2] ->
  exists px py,
    predict_ball_position self frames_ahead = Some (px, py) /\
    px == (position s2).1 + ((position s2).1 - (position s0).1) / 2 * inject_Z frames_ahead /\
    py == (position s2).2 + ((position s2).2 - (position s0).2) / 2 * inject_Z frames_ahead.
Proof.
  intros Hh. unfold predict_ball_position, len. rewrite Hh.
  assert (Hlen : length (older ++ [s0; s1; s2]) = (length older + 3)%nat)
    by (rewrite length_app; reflexivity).
  destruct (Z.ltb_spec (Z.of_nat (length (older ++ [s0; s1; s2]))) 3); [lia|].
  replace (length (older ++ [s0; s1; s2]) - 3)%nat with (length older) by lia.
  rewrite drop_app_length.
  replace (older ++ [s0; s1; s2]) with ((older ++ [s0; s1]) ++ [s2])
    by (rewrite <- app_assoc; reflexivity).
  rewrite last_snoc. cbn [velocities map length qsum foldl fst snd Z.of_nat].
  eexists _, _. split; [reflexivity|]. split; simpl; field.
Qed.

Lemma inject_Z_minus (a b : Z) : inject_Z (a - b) == inject_Z a - inject_Z b.
Proof. unfold Z.sub. rewrite inject_Z_plus, inject_Z_opp. reflexivity. Qed.

(** On the half-pixel grid, and for a prediction of at most 1024 frames,
    no operation of the prediction rounds. *)
Lemma rounded_prediction_exact (p0 p1 p2 : Q) (frames_ahead : Z) :
  on_half_grid p0 -> on_half_grid p1 -> on_half_grid p2 ->
  (Z.abs frames_ahead <= 1024)%Z ->
  rounded_prediction p0 p1 p2 frames_ahead
  == p2 + (p2 - p0) / 2 * inject_Z frames_ahead.
Proof.
  intros (k0 & Hk0 & E0) (k1 & Hk1 & E1) (k2 & Hk2 & E2) Hf.
  change (2 ^ 40)%Z with 1099511627776%Z in *.
  unfold rounded_prediction. cbv zeta.
  assert (B : forall k : Z, (Z.abs k <= 9007199254740991)%Z -> (Z.abs k < 2 ^ 53)%Z)
    by (intros k Hk; change (2 ^ 53)%Z with 9007199254740992%Z; lia).
  rewrite (fl_quarters (p1 - p0) (2 * (k1 - k0))); [|apply B; lia|].
  2:{ rewrite E0, E1, inject_Z_mult, inject_Z_minus. change (inject_Z 2) with 2. field. }
  rewrite (fl_quarters (p2 - p1) (2 * (k2 - k1))); [|apply B; lia|].
  2:{ rewrite E1, E2, inject_Z_mult, inject_Z_minus. change (inject_Z 2) with 2. field. }
  rewrite (fl_quarters (0 + (p1 - p0)) (2 * (k1 - k0))); [|apply B; lia|].
  2:{ rewrite E0, E1, inject_Z_mult, inject_Z_minus. change (inject_Z 2) with 2. field. }
  rewrite (fl_quarters (0 + (p1 - p0) + (p2 - p1)) (2 * (k2 - k0))); [|apply B; lia|].
  2:{ rewrite E0, E1, E2, inject_Z_mult, inject_Z_minus. change (inject_Z 2) with 2. field. }
  rewrite (fl_quarters ((0 + (p1 - p0) + (p2 - p1)) / inject_Z 2) (k2 - k0)); [|apply B; lia|].
  2:{ rewrite E0, E1, E2, inject_Z_minus. change (inject_Z 2) with 2. field. }
  rewrite (fl_quarters ((0 + (p1 - p0) + (p2 - p1)) / inject_Z 2 * inject_Z frames_ahead)
             ((k2 - k0) * frames_ahead)); [|apply B; nia|].
  2:{ rewrite E0, E1, E2, inject_Z_mult, inject_Z_minus. change (inject_Z 2) with 2. field. }
  rewrite (fl_quarters (p2 + (0 + (p1 - p0) + (p2 - p1)) / inject_Z 2 * inject_Z frames_ahead)
             (2 * k2 + (k2 - k0) * frames_ahead)); [|apply B; nia|].
  2:{ rewrite E0, E1, E2, inject_Z_plus, !inject_Z_mult, inject_Z_minus.
      change (inject_Z 2) with 2. field. }
  change (inject_Z 2) with 2. field.
Qed.

(** X21. For samples on the half-pixel grid and a prediction of at most
    1024 frames, where no operation of the code rounds, the prediction is a
    straight line through the third-last and the last sample: the sample
    between them cancels out of the average velocity, older samples are
    never read, and the coordinates are those that the rounded operations
    give.  Predicting 0 frames ahead gives the last position. *)
Theorem predict_ball_position_chord (self : BallTracker) (frames_ahead : Z)
    (older : list BallSample) (s0 s1 s2 : BallSample) :
  ball_history self = older ++ [s0; s1; s2] ->
  (forall s, s ∈ [s0; s1; s2] ->
     on_half_grid (position s).1 /\ on_half_grid (position s).2) ->
  (Z.abs frames_ahead <= 1024)%Z ->
  exists px py,
    predict_ball_position self frames_ahead = Some (px, py) /\
    px == (position s2).1 + ((position s2).1 - (position s0).1) / 2 * inject_Z frames_ahead /\
    py == (position s2).2 + ((position s2).2 - (position s0).2) / 2 * inject_Z frames_ahead /\
    px == rounded_prediction (position s0).1 (position s1).1 (position s2).1 frames_ahead /\
    py == rounded_prediction (position s0).2 (position s1).2 (position s2).2 frames_ahead /\
    (frames_ahead = 0%Z -> px == (position s2).1 /\ py == (position s2).2).
Proof.
  intros Hh Hgrid Hf.
  destruct (predict_last_three self frames_ahead older s0 s1 s2 Hh) as (px & py & Hp & Hx & Hy).
  destruct (Hgrid s0 ltac:(left)) as [G0x G0y].
  destruct (Hgrid s1 ltac:(right; left)) as [G1x G1y].
  destruct (Hgrid s2 ltac:(right; right; left)) as [G2x G2y].
  exists px, py. split; [exact Hp|]. split; [exact Hx|]. split; [exact Hy|].
  split; [|split].
  - rewrite (rounded_prediction_exact _ _ _ _ G0x G1x G2x Hf). exact Hx.
  - rewrite (rounded_prediction_exact _ _ _ _ G0y G1y G2y Hf). exact Hy.
  - intros ->. rewrite Hx, Hy. change (inject_Z 0) with 0. split; ring.
Qed.

End PredictionProperties.

Section KickProperties.

Import Tracker.

Local Open Scope Q_scope.

Lemma kick_fold_app (threshold : Q) (l : list TrackedObject) (acc : list Kick) :
  foldl (kick_step threshold) acc l = acc ++ foldl (kick_step threshold) [] l.
Proof.
  revert acc. induction l as [|b l IH]; intros acc; simpl.
  - rewrite app_nil_r. reflexivity.
  - rewrite (IH (kick_step threshold acc b)), (IH (kick_step threshold [] b)).
    unfold kick_step. destruct (velocity b) as [v|]; [|reflexivity].
    destruct (Qlt_le_dec threshold (velocity_magnitude v)); [|reflexivity].
    rewrite app_assoc. reflexivity.
Qed.

Lemma kick_fold_cons (threshold : Q) (b : TrackedObject) (l : list TrackedObject) :
  foldl (kick_step threshold) [] (b :: l)
  = kick_step threshold [] b ++ foldl (kick_step threshold) [] l.
Proof. simpl. apply kick_fold_app. Qed.

Lemma kick_fold_elem (threshold : Q) (l : list TrackedObject) (kick : Kick) :
  kick ∈ foldl (kick_step threshold) [] l <->
  exists ball v,
    ball ∈ l /\ velocity ball = Some v /\
    threshold < velocity_magnitude v /\
    kick = kick_of ball v.
Proof.
  induction l as [|b l IH].
  - simpl. split; [intros H; inversion H | intros (ball & v & H & _); inversion H].
  - rewrite kick_fold_cons, elem_of_app, IH. unfold kick_step at 1. split.
    + intros [Hin | (ball & v & Hin & Hrest)].
      * destruct (velocity b) as [v|] eqn:Ev; [|inversion Hin].
        destruct (Qlt_le_dec threshold (velocity_magnitude v)); [|inversion Hin].
        simpl in Hin. apply list_elem_of_singleton in Hin.
        exists b, v. split; [left|]. auto.
      * exists ball, v. split; [right; exact Hin | exact Hrest].
    + intros (ball & v & Hin & Hv & Hmag & ->).
      apply elem_of_cons in Hin. destruct Hin as [-> | Hin].
      * left. rewrite Hv.
        destruct (Qlt_le_dec threshold (velocity_magnitude v)) as [_ | Hle]; [|lra].
        simpl. left.
      * right. exists ball, v. auto.
Qed.



(** The test against the threshold is on the double.  A velocity of
    [(50, 2^-30)] has a norm above 50, but the double computed for it is 50,
    which is not above the threshold 50: no kick.  A velocity of [(6, 8)]
    has magnitude 10 and is a kick for the threshold 9. *)
Lemma detect_ball_kick_on_doubles :
  (50 < sqrt (Q2R (50 ^ 2 + (1 # 1073741824) ^ 2)))%R /\
  detect_ball_kick [track_at 2 1 (0, 0) (Some (50, 1 # 1073741824))] 50 = [] /\
  detect_ball_kick [track_at 2 1 (0, 0) (Some (6, 8))] 9 =
    [ {| kick_frame_id := 0; kick_ball_id := 2; kick_velocity := (6, 8);
         kick_velocity_magnitude := 10; kick_position := (0, 0) |} ].
Proof.
  split; [|split; vm_compute; reflexivity].
  assert (E : (50 = sqrt (50 * 50))%R) by (rewrite sqrt_square; lra).
  rewrite E at 1. apply sqrt_lt_1_alt.
  change (Q2R (50 ^ 2 + (1 # 1073741824) ^ 2))
    with (Q2R (2882303761517117440001 # 1152921504606846976)).
  unfold Q2R. simpl. split; lra.
Qed.

End KickProperties.

Section VelocityAndKickProperties.

Import Tracker.

Local Open Scope Q_scope.

(** When the subtraction of the two centers is exact, the magnitude of the
    velocity is the distance between the centers. *)
Lemma magnitude_of_displacement (c p : Point) :
  fl (c.1 - p.1) == c.1 - p.1 -> fl (c.2 - p.2) == c.2 - p.2 ->
  velocity_magnitude (c.1 - p.1, c.2 - p.2) = _calculate_distance c p.
Proof.
  intros Hx Hy. unfold velocity_magnitude, _calculate_distance. cbn [fst snd].
  apply np_sqrt_comp.
  assert (fl ((c.1 - p.1) ^ 2) = fl (fl (c.1 - p.1) ^ 2)) as ->
    by (apply fl_comp; rewrite Hx; reflexivity).
  assert (fl ((c.2 - p.2) ^ 2) = fl (fl (c.2 - p.2) ^ 2)) as ->
    by (apply fl_comp; rewrite Hy; reflexivity).
  reflexivity.
Qed.

(** X23. Velocity and kick detection compose into a displacement test: for
    a ball that has a previous object, and whose displacement from it is a
    pair of doubles (so that the subtraction of [calculate_velocity] does not
    round), [detect_ball_kick] applied to the result of [calculate_velocity]
    reports the ball exactly when the distance that [_calculate_distance]
    computes between its center and its previous center is strictly above the
    threshold. *)
Theorem kick_iff_displacement (tracked_objects older newer : list TrackedObject)
    (ball prev_ball : TrackedObject) (threshold : Q) :
  ball ∈ tracked_objects -> class_id ball = 1%Z ->
  id prev_ball = id ball ->
  (forall o, o ∈ newer -> id o <> id ball) ->
  let v := ((center ball).1 - (center prev_ball).1,
            (center ball).2 - (center prev_ball).2) in
  fl v.1 == v.1 -> fl v.2 == v.2 ->
  kick_of ball v
    ∈ detect_ball_kick (calculate_velocity tracked_objects (older ++ prev_ball :: newer))
        threshold
  <-> threshold < _calculate_distance (center ball) (center prev_ball).
Proof.
  intros Hin Hcls Hid Hnew v Hx Hy.
  assert (Hmag : velocity_magnitude v = _calculate_distance (center ball) (center prev_ball))
    by exact (magnitude_of_displacement (center ball) (center prev_ball) Hx Hy).
  unfold detect_ball_kick. rewrite kick_fold_elem. split.
  - intros (ball' & v' & _ & _ & Hgt & Hkick).
    assert (v = v') as <- by exact (f_equal kick_velocity Hkick).
    rewrite <- Hmag. exact Hgt.
  - intros Hgt. exists (set_velocity (Some v) ball), v.
    split; [|split; [reflexivity | split; [rewrite Hmag; exact Hgt | reflexivity]]].
    unfold balls. apply list_elem_of_filter. split; [exact Hcls|].
    unfold calculate_velocity. apply list_elem_of_fmap. exists ball.
    split; [|exact Hin].
    rewrite <- Hid in Hnew |- *. rewrite objects_by_id_last by exact Hnew. reflexivity.
Qed.

Lemma kick_iff_displacement_witness :
  let ball := track_at 2 1 (30, 40) None in
  let prev_ball := track_at 2 1 (0, 0) None in
  kick_of ball (30 - 0, 40 - 0)
    ∈ detect_ball_kick (calculate_velocity [track_at 0 0 (5, 5) None; ball] [prev_ball]) 70
  <-> 70 < _calculate_distance (center ball) (center prev_ball).
Proof.
  intros ball prev_ball.
  apply (kick_iff_displacement [track_at 0 0 (5, 5) None; ball] [] [] ball prev_ball 70).
  - right. left.
  - reflexivity.
  - reflexivity.
  - intros o Ho. inversion Ho.
  - vm_compute. reflexivity.
  - vm_compute. reflexivity.
Defined.

(** X27. [calculate_velocity] is idempotent: a second call with the same
    previous objects changes nothing, since it reads only ids and centers,
    which it never modifies. *)
Theorem calculate_velocity_idempotent (tracked_objects previous_objects : list TrackedObject) :
  calculate_velocity (calculate_velocity tracked_objects previous_objects) previous_objects
  = calculate_velocity tracked_objects previous_objects.
Proof.
  unfold calculate_velocity. rewrite <- list_fmap_compose.
  apply list_fmap_ext. intros i obj _. simpl.
  destruct (objects_by_id previous_objects !! id obj) as [prev_obj|] eqn:E.
  - cbn [id set_velocity]. rewrite E. reflexivity.
  - rewrite E. reflexivity.
Qed.

End VelocityAndKickProperties.

Section DistanceProperties.

Import Tracker.

Local Open Scope Q_scope.

Lemma square_eq_0 (a : Q) : a ^ 2 == 0 -> a == 0.
Proof. change (a ^ 2) with (a * a). intros H. nra. Qed.

(** X25. [_calculate_distance] behaves as a distance: it is never negative,
    it does not depend on the order of the two points, it is 0 from a point
    to itself and only between points with equal coordinates. *)
Theorem calculate_distance_metric (p q : Point) :
  0 <= _calculate_distance p q /\
  _calculate_distance p q = _calculate_distance q p /\
  _calculate_distance p p = 0 /\
  (_calculate_distance p q == 0 -> p.1 == q.1 /\ p.2 == q.2).
Proof.
  unfold _calculate_distance. split; [apply np_sqrt_nonneg|]. split; [|split].
  - apply np_sqrt_comp.
    assert (Hsq : forall a b : Q, fl (fl (a - b) ^ 2) = fl (fl (b - a) ^ 2)).
    { intros a b. apply fl_comp.
      assert (fl (b - a) = fl (- (a - b))) as -> by (apply fl_comp; ring).
      rewrite fl_opp. change ((- fl (a - b)) ^ 2) with (- fl (a - b) * - fl (a - b)).
      change (fl (a - b) ^ 2) with (fl (a - b) * fl (a - b)). ring. }
    rewrite (Hsq p.1 q.1), (Hsq p.2 q.2). reflexivity.
  - assert (Hz : forall a : Q, fl (fl (a - a) ^ 2) = 0).
    { intros a. rewrite (fl_0 (a - a)) by ring. reflexivity. }
    rewrite !Hz. reflexivity.
  - intros H0. apply np_sqrt_eq_0 in H0.
    pose proof (fl_nonneg _ (Qsqr_nonneg (fl (p.1 - q.1)))) as Hx.
    pose proof (fl_nonneg _ (Qsqr_nonneg (fl (p.2 - q.2)))) as Hy.
    assert (Hs : 0 <= fl (fl (p.1 - q.1) ^ 2) + fl (fl (p.2 - q.2) ^ 2)) by lra.
    pose proof (fl_nonneg _ Hs) as Hs'.
    assert (E : fl (fl (fl (p.1 - q.1) ^ 2) + fl (fl (p.2 - q.2) ^ 2)) == 0) by lra.
    apply fl_eq_0 in E.
    assert (Ex : fl (fl (p.1 - q.1) ^ 2) == 0) by lra.
    assert (Ey : fl (fl (p.2 - q.2) ^ 2) == 0) by lra.
    apply fl_eq_0, square_eq_0, fl_eq_0 in Ex.
    apply fl_eq_0, square_eq_0, fl_eq_0 in Ey.
    split; lra.
Qed.

End DistanceProperties.

Section PossessionProperties.

Import Tracker.

Local Open Scope Q_scope.

(** The nearest player does not depend on the threshold. *)
Lemma detect_ball_transfer_shape (tracked_objects : list TrackedObject) :
  (forall threshold, detect_ball_transfer tracked_objects threshold = []) \/
  exists ball closest_player,
    ball ∈ tracked_objects /\ class_id ball = 1%Z /\
    closest_player ∈ tracked_objects /\ class_id closest_player = 0%Z /\
    forall threshold,
      detect_ball_transfer tracked_objects threshold =
      if Qle_bool (_calculate_distance (center ball) (center closest_player)) threshold
      then [transfer_of ball closest_player] else [].
Proof.
  unfold detect_ball_transfer.
  destruct (balls tracked_objects) as [|ball other_balls] eqn:Eb; [left; reflexivity|].
  destruct (Z.ltb_spec (len (players tracked_objects)) 2) as [Hfew | Hmany];
    [left; reflexivity|].
  destruct (players tracked_objects) as [|p0 ps] eqn:Ep; [unfold len in Hmany; simpl in Hmany; lia|].
  destruct (closest_loop ball ps p0) as (c & Hc & Hin & _).
  assert (foldl (closest_step ball) (None, Inf) (p0 :: ps)
          = (Some c, Finite (dist ball c))) as Hloop by exact Hc.
  right. exists ball, c.
  assert (Hball : ball ∈ balls tracked_objects) by (rewrite Eb; left).
  unfold balls in Hball. apply list_elem_of_filter in Hball.
  rewrite <- Ep in Hin. unfold players in Hin. apply list_elem_of_filter in Hin.
  split; [apply Hball|]. split; [apply Hball|]. split; [apply Hin|]. split; [apply Hin|].
  intros threshold. rewrite Hloop. unfold dist.
  destruct (Qle_bool _ _); reflexivity.
Qed.

(** X26. [detect_ball_transfer] emits at most one event per call.  The
    event, when there is one, does not depend on the threshold: raising the
    threshold keeps it, and a negative threshold gives none.  Tracks of a
    class other than 0 and 1 play no part. *)
Theorem detect_ball_transfer_threshold (tracked_objects : list TrackedObject)
    (threshold higher : Q) :
  (length (detect_ball_transfer tracked_objects threshold) <= 1)%nat /\
  ((threshold < 0)%Q -> detect_ball_transfer tracked_objects threshold = []) /\
  ((threshold <= higher)%Q ->
   detect_ball_transfer tracked_objects threshold <> [] ->
   detect_ball_transfer tracked_objects higher
   = detect_ball_transfer tracked_objects threshold) /\
  detect_ball_transfer
    (filter (fun obj => class_id obj = 0%Z \/ class_id obj = 1%Z) tracked_objects) threshold
  = detect_ball_transfer tracked_objects threshold.
Proof.
  split; [|split; [|split]].
  - destruct (detect_ball_transfer_shape tracked_objects) as [Hnone | (b & c & _ & _ & _ & _ & Hshape)].
    + rewrite Hnone. simpl. lia.
    + rewrite Hshape. destruct (Qle_bool _ _); simpl; lia.
  - intros Hneg.
    destruct (detect_ball_transfer_shape tracked_objects) as [Hnone | (b & c & _ & _ & _ & _ & Hshape)];
      [apply Hnone|].
    rewrite Hshape. destruct (Qle_bool _ _) eqn:E; [|reflexivity].
    exfalso. apply Qle_bool_iff in E.
    pose proof (np_sqrt_nonneg (fl (fl (fl ((center b).1 - (center c).1) ^ 2)
                                    + fl (fl ((center b).2 - (center c).2) ^ 2)))) as Hpos.
    unfold _calculate_distance in E. lra.
  - intros Hle Hsome.
    destruct (detect_ball_transfer_shape tracked_objects) as [Hnone | (b & c & _ & _ & _ & _ & Hshape)];
      [rewrite Hnone in Hsome; contradiction|].
    rewrite (Hshape threshold) in Hsome |- *. rewrite (Hshape higher).
    destruct (Qle_bool _ threshold) eqn:Hd; [|contradiction].
    apply Qle_bool_iff in Hd.
    destruct (Qle_bool _ higher) eqn:Hn; [reflexivity|].
    exfalso. assert (Hh : _calculate_distance (center b) (center c) <= higher) by lra.
    apply Qle_bool_iff in Hh. congruence.
  - unfold detect_ball_transfer, players, balls.
    rewrite !list_filter_filter.
    assert (Hp : filter (fun obj => class_id obj = 0%Z /\ (class_id obj = 0%Z \/ class_id obj = 1%Z))
                   tracked_objects
                 = filter (fun obj => class_id obj = 0%Z) tracked_objects)
      by (apply list_filter_iff; intros obj; tauto).
    assert (Hb : filter (fun obj => class_id obj = 1%Z /\ (class_id obj = 0%Z \/ class_id obj = 1%Z))
                   tracked_objects
                 = filter (fun obj => class_id obj = 1%Z) tracked_objects)
      by (apply list_filter_iff; intros obj; tauto).
    rewrite Hp, Hb. reflexivity.
Qed.

End PossessionProperties.

Section ClassIdProperties.

Import Tracker.

Context `{VT : VisualTracker}.

Variable P : Z -> Prop.

Lemma dict_set_Forall {V : Type} (Q : Z * V -> Prop) (k : Z) (v : V) (d : list (Z * V)) :
  Forall Q d -> Q (k, v) -> Forall Q (dict_set k v d).
Proof.
  induction 1 as [|[k' v'] d Hx Hd IH]; intros Hkv; simpl.
  - constructor; [exact Hkv | constructor].
  - destruct (decide (k' = k)); constructor; auto.
Qed.

Lemma dict_del_Forall {V : Type} (Q : Z * V -> Prop) (k : Z) (d : list (Z * V)) :
  Forall Q d -> Forall Q (dict_del k d).
Proof.
  induction 1 as [|[k' v'] d Hx Hd IH]; simpl; [constructor|].
  destruct (decide (k' = k)); [exact IH | constructor; assumption].
Qed.

Lemma bootstrap_class (frame : Frame) (detections : list Detection) (self : ObjectTracker VT) :
  tracks_in_class P self -> Forall (fun d => P (det_class_id d)) detections ->
  tracks_in_class P (bootstrap frame detections self).
Proof.
  intros Hself Hdets. unfold bootstrap. destruct (trackers self) eqn:E; [|exact Hself].
  clear E. revert self Hself.
  induction Hdets as [|d ds Hd _ IH]; intros self Hself; simpl; [exact Hself|].
  apply IH. unfold bootstrap_step.
  destruct (tracker_init (create_tracker self) frame (det_bbox d)) as [[] t]; [|exact Hself].
  unfold tracks_in_class. record_fields. apply dict_set_Forall; [exact Hself | exact Hd].
Qed.

Lemma track_step_class (frame : Frame) (self self' : ObjectTracker VT)
    (objs objs' : list TrackedObject) (item : Z * TrackerInfo VT) :
  tracks_in_class P self -> P (info_class_id item.2) ->
  Forall (fun obj => P (class_id obj)) objs ->
  track_step frame (Ok (self, objs)) item = Ok (self', objs') ->
  tracks_in_class P self' /\ Forall (fun obj => P (class_id obj)) objs'.
Proof.
  intros Hself Hitem Hobjs. destruct item as [k info]. cbn [snd] in Hitem.
  unfold track_step. cbn [mbind result_bind].
  destruct (tracker_update (tracker info) frame) as [[success box] tracker'].
  assert (Halter : Forall (fun item => P (info_class_id item.2))
                     (dict_alter (set_tracker tracker') k (trackers self))).
  { unfold dict_alter. apply Forall_map. eapply Forall_impl; [exact Hself|].
    intros [k' info'] Hp. simpl. destruct (decide (k' = k)); exact Hp. }
  destruct success.
  - intros E. injection E as <- <-. split; [exact Halter|].
    apply Forall_app. split; [exact Hobjs|]. apply Forall_singleton. exact Hitem.
  - record_fields. destruct (disappeared self !! k) as [count|]; [|discriminate].
    destruct (max_disappeared self <? count + 1)%Z; intros E; injection E as <- <-;
      (split; [|exact Hobjs]); unfold tracks_in_class; record_fields;
      [apply dict_del_Forall|]; exact Halter.
Qed.

Lemma update_class (self self' : ObjectTracker VT) (frame : Frame)
    (detections : list Detection) (objs : list TrackedObject) :
  tracks_in_class P self -> Forall (fun d => P (det_class_id d)) detections ->
  update self frame detections = Ok (self', objs) ->
  tracks_in_class P self' /\ Forall (fun obj => P (class_id obj)) objs.
Proof.
  intros Hself Hdets. unfold update.
  pose proof (bootstrap_class frame detections self Hself Hdets) as Hb.
  set (sb := bootstrap frame detections self) in *.
  assert (Hitems : Forall (fun item => P (info_class_id item.2)) (trackers sb)) by exact Hb.
  assert (Hnil : Forall (fun obj => P (class_id obj)) ([] : list TrackedObject)) by constructor.
  revert Hb Hnil. generalize ([] : list TrackedObject). generalize sb at 1 2.
  induction Hitems as [|item items Hitem _ IH]; intros s objs0 Hs Hobjs0 Hfold.
  - simpl in Hfold. injection Hfold as <- <-. split; assumption.
  - cbn [foldl] in Hfold.
    destruct (track_step frame (Ok (s, objs0)) item) as [[s1 objs1]|e] eqn:Estep;
      [|rewrite track_fold_raise in Hfold; discriminate Hfold].
    destruct (track_step_class _ _ _ _ _ _ Hs Hitem Hobjs0 Estep) as [Hs1 Hobjs1].
    exact (IH s1 objs1 Hs1 Hobjs1 Hfold).
Qed.

Lemma run_class (inputs : list (Frame * list Detection)) :
  forall self self' : ObjectTracker VT,
    tracks_in_class P self ->
    Forall (fun input => Forall (fun d => P (det_class_id d)) input.2) inputs ->
    run self inputs = Ok self' ->
    tracks_in_class P self'.
Proof.
  induction inputs as [|[frame dets] inputs IH]; intros self self' Hself Hin Hrun.
  - unfold run in Hrun. simpl in Hrun. injection Hrun as <-. exact Hself.
  - apply Forall_cons in Hin. destruct Hin as [Hdets Hin]. cbn [snd] in Hdets.
    destruct (update self frame dets) as [[s1 objs1]|e] eqn:Eupd.
    + rewrite (run_cons _ _ _ _ _ _ Eupd) in Hrun.
      destruct (update_class _ _ _ _ _ Hself Hdets Eupd) as [Hs1 _].
      exact (IH s1 self' Hs1 Hin Hrun).
    + exfalso. unfold run in Hrun. cbn [foldl mbind result_bind fst snd] in Hrun.
      rewrite Eupd in Hrun. cbn [mbind result_bind] in Hrun.
      assert (Hraise : forall l, foldl (fun acc (input : Frame * list Detection) =>
                          self ← acc; '(self, _) ← update self input.1 input.2; Ok self)
                          (Raise e) l = Raise e)
        by (induction l as [|x l IHl]; [reflexivity | exact IHl]).
      rewrite Hraise in Hrun. discriminate Hrun.
Qed.

End ClassIdProperties.

Section DetectorClassProperties.

Import Tracker.

Context `{VT : VisualTracker}.

(** X24. The tracker takes class id 1 for the ball, but the detector script
    lets through the COCO ids 0 and 32 only.  A manager that is fed such
    detections alone never reports a track of class 1: every track keeps the
    class id of its detection, so [update] returns no ball, and both
    [detect_ball_transfer] and [detect_ball_kick] stay silent on its output,
    whatever the thresholds. *)
Theorem detector_ball_is_never_a_tracker_ball (tracker_type : string)
    (inputs : list (Frame * list Detection)) (self self' : ObjectTracker VT)
    (frame : Frame) (detections : list Detection) (tracked_objects : list TrackedObject)
    (transfer_threshold velocity_threshold : Q) :
  Forall (fun input =>
            Forall (fun d => det_class_id d ∈ Detector.target_classes) input.2) inputs ->
  Forall (fun d => det_class_id d ∈ Detector.target_classes) detections ->
  run (init tracker_type) inputs = Ok self ->
  update self frame detections = Ok (self', tracked_objects) ->
  Forall (fun obj => class_id obj ∈ Detector.target_classes) tracked_objects /\
  balls tracked_objects = [] /\
  detect_ball_transfer tracked_objects transfer_threshold = [] /\
  detect_ball_kick tracked_objects velocity_threshold = [].
Proof.
  intros Hinputs Hdets Hrun Hupd.
  assert (Hself : tracks_in_class (fun c => c ∈ Detector.target_classes) self).
  { eapply run_class; [|exact Hinputs | exact Hrun]. constructor. }
  destruct (update_class _ _ _ _ _ _ Hself Hdets Hupd) as [_ Hobjs].
  assert (Hballs : balls tracked_objects = []).
  { unfold balls. clear Hupd. induction Hobjs as [|obj objs Hobj _ IH]; [reflexivity|].
    rewrite filter_cons. destruct (decide (class_id obj = 1%Z)) as [E | _]; [|exact IH].
    exfalso. rewrite E in Hobj. unfold Detector.target_classes in Hobj.
    rewrite !elem_of_cons, elem_of_nil in Hobj. lia. }
  split; [exact Hobjs|]. split; [exact Hballs|].
  unfold detect_ball_transfer, detect_ball_kick. rewrite Hballs. split; reflexivity.
Qed.

End DetectorClassProperties.

Section TrackIdentityProperties.

Import Tracker.

Context `{VT : VisualTracker}.

Local Open Scope Z_scope.

Lemma dict_alter_elem {V : Type} (f : V -> V) (j k : Z) (v : V) (d : list (Z * V)) :
  (k, v) ∈ dict_alter f j d -> exists v0, (k, v0) ∈ d /\ (v = v0 \/ v = f v0).
Proof.
  unfold dict_alter. intros Hin. apply list_elem_of_fmap in Hin.
  destruct Hin as ([k0 v0] & E & Hin). simpl in E.
  destruct (decide (k0 = j)); injection E as -> ->; eauto.
Qed.

Lemma dict_del_elem {V : Type} (j k : Z) (v : V) (d : list (Z * V)) :
  (k, v) ∈ dict_del j d -> (k, v) ∈ d.
Proof.
  induction d as [|[k0 v0] d IH]; simpl; [tauto|].
  destruct (decide (k0 = j)); intros Hin.
  - right. apply IH, Hin.
  - apply elem_of_cons in Hin. destruct Hin as [E | Hin]; [rewrite E; left | right; apply IH, Hin].
Qed.

Lemma NoDup_keys_inj {V : Type} (k : Z) (v1 v2 : V) (d : list (Z * V)) :
  NoDup (keys d) -> (k, v1) ∈ d -> (k, v2) ∈ d -> v1 = v2.
Proof.
  induction d as [|[k0 v0] d IH]; intros Hnd H1 H2; [inversion H1|].
  cbn [keys map fst] in Hnd. apply NoDup_cons in Hnd. destruct Hnd as [Hk0 Hnd].
  apply elem_of_cons in H1. apply elem_of_cons in H2.
  destruct H1 as [E1 | H1], H2 as [E2 | H2].
  - congruence.
  - injection E1 as -> ->. exfalso. apply Hk0, elem_of_keys. eauto.
  - injection E2 as -> ->. exfalso. apply Hk0, elem_of_keys. eauto.
  - exact (IH Hnd H1 H2).
Qed.

Lemma track_step_identity (frame : Frame) (self self' : ObjectTracker VT)
    (objs objs' : list TrackedObject) (item : Z * TrackerInfo VT) :
  track_step frame (Ok (self, objs)) item = Ok (self', objs') ->
  forall k info', (k, info') ∈ trackers self' ->
    exists info, (k, info) ∈ trackers self /\ same_identity info info'.
Proof.
  destruct item as [j info_j]. unfold track_step. cbn [mbind result_bind].
  destruct (tracker_update (tracker info_j) frame) as [[success box] tracker'].
  assert (Halter : forall k info',
             (k, info') ∈ dict_alter (set_tracker tracker') j (trackers self) ->
             exists info, (k, info) ∈ trackers self /\ same_identity info info').
  { intros k info' Hin. apply dict_alter_elem in Hin.
    destruct Hin as (info & Hin & [-> | ->]); exists info; (split; [exact Hin|]);
      split; reflexivity. }
  destruct success.
  - intros E. injection E as <- <-. record_fields. exact Halter.
  - record_fields. destruct (disappeared self !! j) as [count|]; [|discriminate].
    destruct (max_disappeared self <? count + 1); intros E; injection E as <- <-;
      record_fields; [|exact Halter].
    intros k info' Hin. apply Halter. eapply dict_del_elem, Hin.
Qed.

Lemma track_loop_identity (frame : Frame) (items : list (Z * TrackerInfo VT)) :
  forall (self self' : ObjectTracker VT) (objs objs' : list TrackedObject),
    foldl (track_step frame) (Ok (self, objs)) items = Ok (self', objs') ->
    forall k info', (k, info') ∈ trackers self' ->
      exists info, (k, info) ∈ trackers self /\ same_identity info info'.
Proof.
  induction items as [|item items IH]; intros self self' objs objs' Hfold k info' Hin.
  - simpl in Hfold. injection Hfold as <- <-. exists info'. split; [exact Hin|]. split; reflexivity.
  - cbn [foldl] in Hfold.
    destruct (track_step frame (Ok (self, objs)) item) as [[s1 objs1]|e] eqn:Estep;
      [|rewrite track_fold_raise in Hfold; discriminate Hfold].
    destruct (IH _ _ _ _ Hfold k info' Hin) as (info1 & Hin1 & [Hc1 Hf1]).
    destruct (track_step_identity _ _ _ _ _ _ Estep k info1 Hin1) as (info & Hin0 & [Hc0 Hf0]).
    exists info. split; [exact Hin0|]. split; congruence.
Qed.

(** X28. A track never changes class: in a reachable state, a track that is
    live before and after a call to [update] has the same class id and the
    same confidence in both tables, and every object the call returns carries
    the class id and the confidence of its track. *)
Theorem track_identity_is_stable (self self' : ObjectTracker VT) (frame : Frame)
    (detections : list Detection) (tracked_objects : list TrackedObject) :
  reachable self ->
  update self frame detections = Ok (self', tracked_objects) ->
  (forall k info info',
      (k, info) ∈ trackers self -> (k, info') ∈ trackers self' ->
      info_class_id info' = info_class_id info /\
      info_confidence info' = info_confidence info) /\
  (forall obj, obj ∈ tracked_objects ->
      exists info', (id obj, info') ∈ trackers self' /\
                    class_id obj = info_class_id info' /\
                    confidence obj = info_confidence info').
Proof.
  intros Hreach Hupd.
  pose proof (reachable_table_invariant self Hreach) as Hinv.
  pose proof (table_invariant_bootstrap frame detections self Hinv)
    as (Hnd & Hdom & _).
  unfold update in Hupd.
  set (sb := bootstrap frame detections self) in *.
  pose proof (track_loop_identity frame (trackers sb) sb self' [] tracked_objects Hupd)
    as Hident.
  split.
  - intros k info info' Hin Hin'.
    assert (Hsb : sb = self).
    { apply bootstrap_nonempty. intros E. rewrite E in Hin. inversion Hin. }
    destruct (Hident k info' Hin') as (info0 & Hin0 & Hsame).
    rewrite Hsb in Hin0, Hnd.
    rewrite (NoDup_keys_inj k info info0 _ Hnd Hin Hin0). exact Hsame.
  - intros obj Hobj.
    pose proof (track_loop_objs frame (trackers sb) sb self' [] tracked_objects Hupd) as Hobjs.
    cbn [app] in Hobjs. rewrite Hobjs in Hobj. apply list_elem_of_omap in Hobj.
    destruct Hobj as ([k info] & Hitem & Hrep).
    destruct (reported_id _ _ _ Hrep) as (Eid & Hsucc & _ & _ & _ & Hcls & Hconf).
    cbn [fst snd] in Eid, Hsucc, Hcls, Hconf.
    destruct (track_loop frame (trackers sb) sb [] Hnd)
      as (self2 & objs2 & Hfold2 & _ & _ & Hout).
    { intros k0 Hin. apply Hdom, Hin. }
    rewrite Hupd in Hfold2. injection Hfold2 as <- <-.
    assert (Hk : k ∈ keys (trackers sb)) by (apply elem_of_keys; eauto).
    destruct (proj1 (Hdom k) Hk) as [count Hcount].
    specialize (Hout k info count Hitem Hcount). unfold track_outcome in Hout.
    rewrite Hsucc in Hout. destruct Hout as [_ Hlive].
    specialize (Hlive Hk). apply elem_of_keys in Hlive. destruct Hlive as [info' Hin'].
    destruct (Hident k info' Hin') as (info0 & Hin0 & [Hc Hf]).
    rewrite <- (NoDup_keys_inj k info info0 _ Hnd Hitem Hin0) in Hc, Hf.
    exists info'. rewrite Eid. split; [exact Hin'|]. split; congruence.
Qed.

End TrackIdentityProperties.

Section ManagerWitnesses.

Import Tracker.

Local Open Scope Z_scope.

Lemma manager_tables_in_step_witness :
  NoDup (keys (trackers after_bootstrap)) /\
  (forall k, k ∈ keys (trackers after_bootstrap)
             <-> is_Some (disappeared after_bootstrap !! k)) /\
  (forall k count, disappeared after_bootstrap !! k = Some count -> 0 <= count <= 30).
Proof. apply (manager_tables_in_step after_bootstrap after_bootstrap_reachable). Defined.

Lemma ids_are_fresh_witness :
  (forall k, k ∈ keys (trackers (init (VT := scripted_tracker) "CSRT")) ->
             0 <= k < next_id (init (VT := scripted_tracker) "CSRT")) /\
  next_id (init (VT := scripted_tracker) "CSRT") <= next_id after_bootstrap /\
  (forall k, k ∈ keys (trackers after_bootstrap) ->
             k ∉ keys (trackers (init (VT := scripted_tracker) "CSRT")) ->
             next_id (init (VT := scripted_tracker) "CSRT") <= k < next_id after_bootstrap).
Proof.
  eapply (ids_are_fresh (VT := scripted_tracker) (init "CSRT") after_bootstrap true
            [ball_detection]).
  - apply reachable_init.
  - vm_compute. reflexivity.
Defined.

Lemma reset_is_init_witness :
  reset after_bootstrap = init (tracker_type after_bootstrap).
Proof. apply (reset_is_init after_bootstrap after_bootstrap_reachable). Defined.

Lemma bootstrap_creates_tracks_witness :
  let self := init (VT := scripted_tracker) "CSRT" in
  let created := List.filter (accepted self true) [ball_detection; coco_ball_detection] in
  let self' := bootstrap (VT := scripted_tracker) true [ball_detection; coco_ball_detection] self in
  keys (trackers self') = Zones.range_from (next_id self) (next_id self + len created) /\
  class_ids (trackers self') = map det_class_id created /\
  confidences (trackers self') = map det_confidence created /\
  next_id self' = next_id self + len created /\
  (forall k, k ∈ keys (trackers self') -> disappeared self' !! k = Some 0).
Proof.
  apply (bootstrap_creates_tracks (VT := scripted_tracker) (init "CSRT") true
           [ball_detection; coco_ball_detection]).
  reflexivity.
Defined.

Lemma update_reports_seen_tracks_witness :
  exists self' tracked_objects,
    update (VT := scripted_tracker) after_bootstrap true [] = Ok (self', tracked_objects) /\
    NoDup (map id tracked_objects) /\
    (forall k, k ∈ map id tracked_objects <->
               k ∈ keys (trackers self') /\ disappeared self' !! k = Some 0) /\
    Forall (fun obj => frame_id obj = 0 /\ velocity obj = None /\
                       center obj = bbox_center (bbox obj)) tracked_objects.
Proof.
  eexists _, _. split; [vm_compute; reflexivity|].
  eapply (update_reports_seen_tracks (VT := scripted_tracker) after_bootstrap _ true []).
  - exact after_bootstrap_reachable.
  - vm_compute. reflexivity.
Defined.

Lemma missed_frames_expire_witness :
  exists self',
    run (VT := scripted_tracker) after_bootstrap
      (map (fun frame => (frame, [])) [false; false]) = Ok self' /\
    reachable self' /\
    (forall k, k ∈ keys (trackers self') -> k ∈ keys (trackers after_bootstrap)) /\
    (forall k count, disappeared after_bootstrap !! k = Some count ->
       (count + len [false; false] <= 30 ->
          k ∈ keys (trackers self') /\
          disappeared self' !! k = Some (count + len [false; false])) /\
       (30 < count + len [false; false] ->
          (k ∉ keys (trackers self')) /\ disappeared self' !! k = None)) /\
    (31 <= len [false; false] -> trackers self' = []).
Proof.
  apply (missed_frames_expire (VT := scripted_tracker) [false; false] after_bootstrap).
  - exact after_bootstrap_reachable.
  - intros frame t Hin. rewrite !elem_of_cons, elem_of_nil in Hin.
    destruct Hin as [-> | [-> | []]]; reflexivity.
Defined.

Lemma detector_ball_is_never_a_tracker_ball_witness :
  exists self self' tracked_objects,
    run (VT := scripted_tracker) (init "CSRT") [(true, [coco_ball_detection])] = Ok self /\
    update self true [] = Ok (self', tracked_objects) /\
    length tracked_objects = 1%nat /\
    Forall (fun obj => class_id obj ∈ Detector.target_classes) tracked_objects /\
    balls tracked_objects = [] /\
    detect_ball_transfer tracked_objects 50 = [] /\
    detect_ball_kick tracked_objects 10 = [].
Proof.
  eexists _, _, _.
  split; [vm_compute; reflexivity|].
  split; [vm_compute; reflexivity|].
  split; [reflexivity|].
  eapply (detector_ball_is_never_a_tracker_ball (VT := scripted_tracker) "CSRT"
            [(true, [coco_ball_detection])] _ _ true []).
  - repeat constructor.
  - constructor.
  - vm_compute. reflexivity.
  - vm_compute. reflexivity.
Defined.

Lemma predict_ball_position_chord_witness :
  let self := {| base := init (VT := scripted_tracker) "CSRT";
                 ball_history := [sample_at 1 (1 # 2) 10; sample_at 2 3 (25 # 2);
                                  sample_at 3 (7 # 2) 16];
                 max_history := 30 |} in
  exists px py,
    predict_ball_position self 5 = Some (px, py) /\
    (px == (7 # 2) + ((7 # 2) - (1 # 2)) / 2 * inject_Z 5)%Q /\
    (py == 16 + (16 - 10) / 2 * inject_Z 5)%Q /\
    (px == rounded_prediction (1 # 2) 3 (7 # 2) 5)%Q /\
    (py == rounded_prediction 10 (25 # 2) 16 5)%Q /\
    (5 = 0 -> (px == 7 # 2)%Q /\ (py == 16)%Q).
Proof.
  intros self.
  apply (predict_ball_position_chord self 5 []
           (sample_at 1 (1 # 2) 10) (sample_at 2 3 (25 # 2)) (sample_at 3 (7 # 2) 16)).
  - reflexivity.
  - intros s Hs. rewrite !elem_of_cons, elem_of_nil in Hs.
    destruct Hs as [-> | [-> | [-> | []]]]; split.
    + exists 1%Z. split; [vm_compute; discriminate | reflexivity].
    + exists 20%Z. split; [vm_compute; discriminate | reflexivity].
    + exists 6%Z. split; [vm_compute; discriminate | reflexivity].
    + exists 25%Z. split; [vm_compute; discriminate | reflexivity].
    + exists 7%Z. split; [vm_compute; discriminate | reflexivity].
    + exists 32%Z. split; [vm_compute; discriminate | reflexivity].
  - vm_compute. discriminate.
Defined.

Lemma track_identity_is_stable_witness :
  exists self' tracked_objects,
    update (VT := scripted_tracker) after_bootstrap true [] = Ok (self', tracked_objects) /\
    (forall k info info',
        (k, info) ∈ trackers after_bootstrap -> (k, info') ∈ trackers self' ->
        info_class_id info' = info_class_id info /\
        info_confidence info' = info_confidence info) /\
    (forall obj, obj ∈ tracked_objects ->
        exists info', (id obj, info') ∈ trackers self' /\
                      class_id obj = info_class_id info' /\
                      confidence obj = info_confidence info').
Proof.
  eexists _, _. split; [vm_compute; reflexivity|].
  eapply (track_identity_is_stable (VT := scripted_tracker) after_bootstrap _ true []).
  - exact after_bootstrap_reachable.
  - vm_compute. reflexivity.
Defined.

End ManagerWitnesses.
